(** * Dual-record synchronisation layer of the career-recommendation app

    A shallow embedding of [src/utils/csv.js] (the tabular master store
    adapter) and [src/utils/userStorage.js] (the detailed record store and
    the synchronisation engine), followed by the properties stated about
    them.

    Conventions of the embedding.
    - A JavaScript string is a [string]; each [ascii] stands for one UTF-16
      code unit below 256 (the Latin-1 range), which is where the regular
      expressions and [toLowerCase] of the source are modelled exactly.
    - [undefined]/[null]/absent is [None]; [a || b] is [a ||| b].
    - [localStorage] holds JSON text; the embedding keeps the parsed
      document under each key ([JSON.parse (JSON.stringify v) = v] on the
      documents the code stores), with objects as insertion-ordered
      association lists or records with a fixed field order, so that equal
      documents have equal serialised forms.
    - [async] functions are awaited in sequence by every caller; they are
      embedded as computations in a state-and-exception monad over the
      browser state. *)

From Stdlib Require Import Ascii String NArith Lia Bool.
From stdpp Require Import base option list strings gmap.

Open Scope string_scope.

(** ** JavaScript string primitives *)

Module Js.

Definition code (c : ascii) : N := N_of_ascii c.

Definition between (lo hi : N) (c : ascii) : bool :=
  ((lo <=? code c) && (code c <=? hi))%N.

(** The character class [[a-zA-Z0-9]]. *)
Definition is_alnum (c : ascii) : bool :=
  between 48 57 c || between 65 90 c || between 97 122 c.

(** The character class [\s] restricted to code units below 256:
    TAB, LF, VT, FF, CR, SPACE and NO-BREAK SPACE. *)
Definition is_space (c : ascii) : bool :=
  between 9 13 c || (code c =? 32)%N || (code c =? 160)%N.

(** [String.prototype.toLowerCase] on one code unit below 256: A-Z and the
    Latin-1 capitals (all of 0xC0-0xDE but the multiplication sign). *)
Definition lower_char (c : ascii) : ascii :=
  if between 65 90 c || (between 192 222 c && negb (code c =? 215)%N)
  then ascii_of_N (code c + 32)
  else c.

Fixpoint map_chars (f : ascii -> ascii) (s : string) : string :=
  match s with
  | EmptyString => EmptyString
  | String c r => String (f c) (map_chars f r)
  end.

Definition toLowerCase (s : string) : string := map_chars lower_char s.

(** [s.replace(/[^a-zA-Z0-9]/g, "_")] *)
Definition replace_non_alnum (s : string) : string :=
  map_chars (fun c => if is_alnum c then c else "_"%char) s.

(** [s.replace(/\s+/g, "_")]: every maximal run of white space becomes one
    underscore; [in_run] tells that the previous code unit was white space. *)
Fixpoint replace_space_runs (in_run : bool) (s : string) : string :=
  match s with
  | EmptyString => EmptyString
  | String c r =>
      if is_space c
      then (if in_run then replace_space_runs true r
            else String "_" (replace_space_runs true r))
      else String c (replace_space_runs false r)
  end.

Fixpoint drop_spaces (s : string) : string :=
  match s with
  | EmptyString => EmptyString
  | String c r => if is_space c then drop_spaces r else s
  end.

Fixpoint rev_string (acc s : string) : string :=
  match s with
  | EmptyString => acc
  | String c r => rev_string (String c acc) r
  end.

(** [s.trim()] *)
Definition trim (s : string) : string :=
  rev_string "" (drop_spaces (rev_string "" (drop_spaces s))).

(** [s.split(sep)] for a one-character separator; never the empty list. *)
Fixpoint split (sep : ascii) (s : string) : list string :=
  match s with
  | EmptyString => [EmptyString]
  | String c r =>
      if Ascii.eqb c sep then EmptyString :: split sep r
      else match split sep r with
           | h :: t => String c h :: t
           | [] => [String c EmptyString]
           end
  end.

(** [arr.join(sep)] *)
Definition join (sep : string) (l : list string) : string := String.concat sep l.

(** Truthiness of a string-or-undefined value. *)
Definition truthy (v : option string) : bool :=
  match v with
  | Some s => negb (String.eqb s "")
  | None => false
  end.

(** [a || b] *)
Definition or_else {A} (is_true : A -> bool) (a b : A) : A :=
  if is_true a then a else b.

(** [a === b] on strings-or-undefined. *)
Definition strict_eq (a b : option string) : bool :=
  match a, b with
  | Some x, Some y => String.eqb x y
  | None, None => true
  | _, _ => false
  end.

End Js.

Notation "a ||| b" := (Js.or_else Js.truthy a b) (at level 50, left associativity).

(** ** [userStorage.js]: key derivation *)

Definition getFileName (name : string) : string :=
  Js.toLowerCase (Js.replace_space_runs false (Js.replace_non_alnum name)).

(** The key derivation as the specification words it: lower-case the name,
    strip (remove) the characters outside [[a-zA-Z0-9]]; once those are
    removed no white space is left to collapse. *)
Fixpoint strip_non_alnum (s : string) : string :=
  match s with
  | EmptyString => EmptyString
  | String c r =>
      if Js.is_alnum c then String c (strip_non_alnum r) else strip_non_alnum r
  end.

Definition spec_key (name : string) : string :=
  Js.toLowerCase (strip_non_alnum name).

(** The same words read more loosely: the characters other than
    alphanumerics and white space are removed, then every run of white space
    is collapsed into one underscore. *)
Fixpoint strip_punctuation (s : string) : string :=
  match s with
  | EmptyString => EmptyString
  | String c r =>
      if Js.is_alnum c || Js.is_space c then String c (strip_punctuation r)
      else strip_punctuation r
  end.

Definition spec_key_collapsing (name : string) : string :=
  Js.toLowerCase (Js.replace_space_runs false (strip_punctuation name)).

(** What the source computes, one code unit at a time. *)
Definition key_char (c : ascii) : ascii :=
  if Js.is_alnum c then Js.lower_char c else "_"%char.

(** ** Data model *)

(** A summary row is a JavaScript object whose values are strings: the
    properties in insertion order (property names that look like array
    indices, which JavaScript would enumerate first, are not told apart). *)
Definition row : Type := list (string * string).

(** [o[k]] *)
Fixpoint obj_get (k : string) (o : row) : option string :=
  match o with
  | [] => None
  | (k', v) :: rest => if String.eqb k' k then Some v else obj_get k rest
  end.

(** [o[k] = v]: an existing property keeps its place. *)
Fixpoint obj_set (k v : string) (o : row) : row :=
  match o with
  | [] => [(k, v)]
  | (k', v') :: rest =>
      if String.eqb k' k then (k, v) :: rest else (k', v') :: obj_set k v rest
  end.

(** [recommendations_selected] is handed over as a string or as an array. *)
Inductive str_or_list : Type :=
  | Str (s : string)
  | Arr (l : list string).

(** The profile object: the payload [userData] handed to the engine and the
    document [jsonData] it stores; a property that is absent, [undefined] or
    [null] is [None]. The field order is that of the [jsonData] literal;
    [name] and [email] are the legacy spellings read by the engine. *)
Record UserData : Type := mkUserData {
  full_name : option string;
  email_address : option string;
  password : option string;
  gender : option string;
  country : option string;
  year : option string;
  education : option string;
  interests : option (list string);
  custom_interest : option string;
  skills : option (list string);
  custom_skill : option string;
  profile_picture : option string;
  bio : option string;
  recommendations_saved : option (list string);
  recommendations_selected : option str_or_list;
  recommendations_rejected : option (list string);
  name : option string;
  email : option string
}.

(** [localStorage], by key: ["csv_users"], ["user_files"],
    ["deleted_images"] and the family ["user_json_" + fileName] (indexed by
    [fileName]); [None] and a missing map entry are [getItem] answering
    [null]. *)
Record Storage : Type := mkStorage {
  csv_users : option (list row);
  user_files : option (gmap string string);
  deleted_images : option (list string);
  user_json : gmap string UserData
}.

(** What the engine does not control: the text of the baseline file
    [/data/d.csv], whether the n-th interaction with the outside finds it
    ([fetch] answering ok), the n-th draw of [Math.random] (used modulo the
    size of the pool drawn from) and which storage contents fit the quota
    ([setItem] throws when the contents it would produce do not). *)
Record Env : Type := mkEnv {
  d_csv : string;
  online : nat -> bool;
  random : nat -> nat;
  quota : Storage -> bool
}.

(** The browser state: the storage and the number of interactions with the
    outside made so far. *)
Record World : Type := mkWorld {
  ls : Storage;
  tick : nat
}.

(** ** Computations: state and exceptions *)

Inductive outcome (A : Type) : Type :=
  | Ret (a : A)
  | Throw.
Arguments Ret {A} a.
Arguments Throw {A}.

Definition M (A : Type) : Type := World -> outcome A * World.

Definition ret {A} (a : A) : M A := fun w => (Ret a, w).

Definition throw {A} : M A := fun w => (Throw, w).

Definition bind {A B} (m : M A) (k : A -> M B) : M B :=
  fun w =>
    match m w with
    | (Ret a, w') => k a w'
    | (Throw, w') => (Throw, w')
    end.

(** [try { m } catch (error) { h }] *)
Definition try_catch {A} (m h : M A) : M A :=
  fun w =>
    match m w with
    | (Ret a, w') => (Ret a, w')
    | (Throw, w') => h w'
    end.

Notation "'let*' x := m 'in' k" := (bind m (fun x => k))
  (at level 10, x pattern, m at level 100, k at level 200).
Notation "m >> k" := (bind m (fun _ => k))
  (at level 100, k at level 200, right associativity).

(** Result and final state of a run. *)
Definition result {A} (m : M A) (w : World) : outcome A := fst (m w).
Definition after {A} (m : M A) (w : World) : World := snd (m w).

Fixpoint mapM {A B} (f : A -> M B) (l : list A) : M (list B) :=
  match l with
  | [] => ret []
  | x :: rest => let* y := f x in let* ys := mapM f rest in ret (y :: ys)
  end.

Definition with_csv_users (v : list row) (s : Storage) : Storage :=
  {| csv_users := Some v; user_files := user_files s;
     deleted_images := deleted_images s; user_json := user_json s |}.

Definition with_user_files (v : gmap string string) (s : Storage) : Storage :=
  {| csv_users := csv_users s; user_files := Some v;
     deleted_images := deleted_images s; user_json := user_json s |}.

Definition with_deleted_images (v : list string) (s : Storage) : Storage :=
  {| csv_users := csv_users s; user_files := user_files s;
     deleted_images := Some v; user_json := user_json s |}.

Definition with_user_json (f : gmap string UserData -> gmap string UserData)
    (s : Storage) : Storage :=
  {| csv_users := csv_users s; user_files := user_files s;
     deleted_images := deleted_images s; user_json := f (user_json s) |}.

Section Model.

Variable E : Env.

(** [localStorage.getItem], read through a projection. *)
Definition getItem {A} (proj : Storage -> A) : M A :=
  fun w => (Ret (proj (ls w)), w).

(** [localStorage.setItem]: throws, and stores nothing, over quota. *)
Definition setItem (upd : Storage -> Storage) : M unit :=
  fun w =>
    let s := upd (ls w) in
    if quota E s then (Ret tt, {| ls := s; tick := tick w |}) else (Throw, w).

(** [localStorage.removeItem] *)
Definition removeItem (upd : Storage -> Storage) : M unit :=
  fun w => (Ret tt, {| ls := upd (ls w); tick := tick w |}).

(** [fetch("/data/d.csv")], then [fetch("./data/d.csv")], then
    [response.text()]: the text, or a throw. *)
Definition fetch_csv : M string :=
  fun w =>
    let w' := {| ls := ls w; tick := S (tick w) |} in
    if online E (tick w) then (Ret (d_csv E), w') else (Throw, w').

(** [Math.floor(Math.random() * n)] *)
Definition random_index (n : nat) : M nat :=
  fun w => (Ret (random E (tick w) mod n), {| ls := ls w; tick := S (tick w) |}).

(** ** [avatars.js] *)

(** [avatarCatalog]: file and gender of each entry. *)
Definition avatarCatalog : list (string * string) :=
  [ ("01_female_2001.jpg.jpg", "female");
    ("02_male_1998.jpg.jpg", "male");
    ("03_male_1997.jpg.jpeg", "male");
    ("04_female_1987.jpg.jpeg", "female");
    ("5_female_1986.jpg.jpg", "female");
    ("06_male_1999.jpg.jpg", "male");
    ("07_female_2001.jpg.jpg", "female");
    ("08_male_1968.jpg.jpg", "male");
    ("09_male_1982.jpg.jpg", "male");
    ("10_male_19981.jpg.jpg", "male");
    ("11_male_1970.jpg.jpg", "male");
    ("12_female_1989.jpg.jpg", "female");
    ("12_male_2011.jpg.jpeg", "male") ].

Definition getRandomAvatarFile (gender : option string) : M string :=
  let normalizedGender := Js.toLowerCase (default "other" gender) in
  let genderSpecific :=
    List.filter (fun avatar => String.eqb (snd avatar) normalizedGender)
      avatarCatalog in
  let pool := match genderSpecific with [] => avatarCatalog | _ => genderSpecific end in
  let* randomIndex := random_index (length pool) in
  ret (fst (nth randomIndex pool ("", ""))).

(** ** [csv.js] *)

(** [headers.forEach((header, index) => { user[header] = values[index] || "" })]
    on the fresh object [user]: a header [__proto__] reaches the setter of
    [Object.prototype], which ignores a string, and creates no property. The
    properties are kept in the order of their creation; the place JavaScript
    gives to a header that reads as an array index (before the others) is
    not modelled. *)
Fixpoint fill_row (headers values : list string) (user : row) : row :=
  match headers with
  | [] => user
  | header :: hs =>
      fill_row hs (tail values)
        (if String.eqb header "__proto__" then user
         else obj_set header (default "" (head values)) user)
  end.

Definition parse_line (headers : list string) (line : string) : option row :=
  if String.eqb (Js.trim line) "" then None
  else
    let values := map Js.trim (Js.split "," line) in
    let user := fill_row headers values [] in
    if Js.truthy (obj_get "email" user) || Js.truthy (obj_get "email_address" user)
    then Some user
    else None.

Definition parseCSV (csvText : string) : list row :=
  match Js.split "010" (Js.trim csvText) with
  | header_line :: ((_ :: _) as lines) =>
      let headers := map Js.trim (Js.split "," header_line) in
      omap (parse_line headers) lines
  | _ => []
  end.

(** One step of [cachedUsers.forEach]: the cached row is appended unless a
    row merged so far has the same [email] property ([===], so that two
    rows without the property are the same). *)
Definition merge_step (allUsers : list row) (cachedUser : row) : list row :=
  if existsb (fun u => Js.strict_eq (obj_get "email" u) (obj_get "email" cachedUser))
       allUsers
  then allUsers
  else allUsers ++ [cachedUser].

Definition merge_users (users cachedUsers : list row) : list row :=
  fold_left merge_step cachedUsers users.

(** The callback of [allUsers.map]. *)
Definition normalize_user (user : row) : M row :=
  if Js.truthy (obj_get "avatar" user) then ret user
  else
    let* file := getRandomAvatarFile (obj_get "gender" user) in
    ret (obj_set "avatar" file user).

(** [JSON.parse(localStorage.getItem("csv_users") || "[]")] *)
Definition cached_users : M (list row) :=
  let* cached := getItem csv_users in ret (default [] cached).

Definition readCSV : M (list row) :=
  try_catch
    (let* csvText := fetch_csv in
     let users := parseCSV csvText in
     let* cachedUsers := cached_users in
     let allUsers := merge_users users cachedUsers in
     let* normalizedUsers := mapM normalize_user allUsers in
     setItem (with_csv_users normalizedUsers) >>
     ret normalizedUsers)
    cached_users.

(** [user.email?.toLowerCase() === email.toLowerCase() ||
     user.email_address?.toLowerCase() === email.toLowerCase()] *)
Definition same_lower (field : option string) (wanted : string) : bool :=
  match field with
  | Some s => String.eqb (Js.toLowerCase s) (Js.toLowerCase wanted)
  | None => false
  end.

Definition email_matches (email : string) (user : row) : bool :=
  same_lower (obj_get "email" user) email
  || same_lower (obj_get "email_address" user) email.

Definition name_matches (name : string) (user : row) : bool :=
  same_lower (obj_get "name" user) name
  || same_lower (obj_get "full_name" user) name.

Definition findUserByEmail (email : string) : M (option row) :=
  let* users := readCSV in ret (List.find (email_matches email) users).

Definition findUserByName (name : string) : M (option row) :=
  let* users := readCSV in ret (List.find (name_matches name) users).

(** [arr.findIndex(p)]; [None] is [-1]. *)
Fixpoint findIndex {A} (p : A -> bool) (l : list A) : option nat :=
  match l with
  | [] => None
  | x :: rest => if p x then Some 0 else option_map S (findIndex p rest)
  end.

(** ** [userStorage.js] *)

(** [JSON.parse(localStorage.getItem("user_files") || "{}")] *)
Definition stored_user_files : M (gmap string string) :=
  let* stored := getItem user_files in ret (default ∅ stored).

(** [userFiles[name] = fileName] on the object [JSON.parse] built: for the
    name [__proto__] an own property of that name is updated, and where there
    is none the assignment reaches the setter of [Object.prototype], which
    ignores a string, so that no property is created. *)
Definition assign_entry (name fileName : string) (userFiles : gmap string string)
    : gmap string string :=
  if String.eqb name "__proto__" && negb (bool_decide (is_Some (userFiles !! name)))
  then userFiles
  else <[name := fileName]> userFiles.

Definition saveUserJson (name : string) (userData : UserData)
    (oldName : option string) : M bool :=
  try_catch
    (let fileName := getFileName name in
     (if Js.truthy oldName && negb (Js.strict_eq oldName (Some name)) then
        let oldFileName := getFileName (default "" oldName) in
        removeItem (with_user_json (delete oldFileName)) >>
        let* userFiles := stored_user_files in
        setItem (with_user_files (delete (default "" oldName) userFiles))
      else ret tt) >>
     setItem (with_user_json (insert fileName userData)) >>
     let* userFiles := stored_user_files in
     setItem (with_user_files (assign_entry name fileName userFiles)) >>
     ret true)
    (ret false).

Definition loadUserJson (name : string) : M (option UserData) :=
  try_catch
    (let fileName := getFileName name in
     let* jsonData := getItem (fun s => user_json s !! fileName) in
     ret jsonData)
    (ret None).

(** [JSON.parse(localStorage.getItem("deleted_images") || "[]")] *)
Definition stored_deleted_images : M (list string) :=
  let* stored := getItem deleted_images in ret (default [] stored).

(** [deletedImages.includes(imagePath)] *)
Definition includes (l : list string) (x : string) : bool :=
  existsb (String.eqb x) l.

Definition deleteOldImage (imagePath : option string) : M unit :=
  if negb (Js.truthy imagePath) then ret tt
  else
    try_catch
      (let* deletedImages := stored_deleted_images in
       if negb (includes deletedImages (default "" imagePath)) then
         setItem (with_deleted_images (deletedImages ++ [default "" imagePath]))
       else ret tt)
      (ret tt).

(** The object literal assigned to [users[userIndex]]. *)
Definition overwrite_row (updatedData : row) : row :=
  let field k := (k, default "" (obj_get k updatedData)) in
  [ field "full_name"; field "email_address"; field "password"; field "gender";
    field "country"; field "year"; field "profile_picture";
    field "recommendations_selected"; field "bio" ].

Definition updateCSVRow (email : string) (updatedData : row)
    (oldImagePath : option string) : M bool :=
  try_catch
    (let* users := readCSV in
     match findIndex (email_matches email) users with
     | None => ret false
     | Some userIndex =>
         (if Js.truthy oldImagePath
             && negb (Js.strict_eq oldImagePath (obj_get "profile_picture" updatedData))
          then deleteOldImage oldImagePath
          else ret tt) >>
         setItem (with_csv_users (<[userIndex := overwrite_row updatedData]> users)) >>
         ret true
     end)
    (ret false).

(** [fullName] and [email] of [saveUserDataDual]. *)
Definition fullName_of (userData : UserData) : option string :=
  full_name userData ||| name userData.

Definition email_of (userData : UserData) : option string :=
  email_address userData ||| email userData.

(** [userData.recommendations_selected || []] *)
Definition selected_or_empty (v : option str_or_list) : option str_or_list :=
  match v with
  | Some (Str s) => if String.eqb s "" then Some (Arr []) else Some (Str s)
  | Some (Arr l) => Some (Arr l)
  | None => Some (Arr [])
  end.

(** [Array.isArray(v) ? v.join("; ") : v || ""] *)
Definition selected_joined (v : option str_or_list) : string :=
  match v with
  | Some (Arr l) => Js.join "; " l
  | Some (Str s) => s
  | None => ""
  end.

(** The [jsonData] literal. *)
Definition jsonData_of (fullName email : string) (userData : UserData) : UserData :=
  {| full_name := Some fullName;
     email_address := Some email;
     password := Some (default "" (password userData));
     gender := Some (default "" (gender userData));
     country := Some (default "" (country userData));
     year := Some (default "" (year userData));
     education := Some (default "" (education userData));
     interests := Some (default [] (interests userData));
     custom_interest := Some (default "" (custom_interest userData));
     skills := Some (default [] (skills userData));
     custom_skill := Some (default "" (custom_skill userData));
     profile_picture := Some (default "" (profile_picture userData));
     bio := Some (default "" (bio userData));
     recommendations_saved := Some (default [] (recommendations_saved userData));
     recommendations_selected := selected_or_empty (recommendations_selected userData);
     recommendations_rejected := Some (default [] (recommendations_rejected userData));
     name := None;
     email := None |}.

(** The [csvData] literal. *)
Definition csvData_of (fullName email : string) (userData : UserData) : row :=
  [ ("full_name", fullName);
    ("email_address", email);
    ("password", default "" (password userData));
    ("gender", default "" (gender userData));
    ("country", default "" (country userData));
    ("year", default "" (year userData));
    ("profile_picture", default "" (profile_picture userData));
    ("recommendations_selected", selected_joined (recommendations_selected userData));
    ("bio", default "" (bio userData)) ].

Definition saveUserDataDual (userData : UserData)
    (oldName oldImagePath : option string) : M bool :=
  try_catch
    (let fullName := fullName_of userData in
     let email := email_of userData in
     if negb (Js.truthy fullName) || negb (Js.truthy email) then ret false
     else
       let fullName := default "" fullName in
       let email := default "" email in
       let jsonData := jsonData_of fullName email userData in
       let* jsonSaved := saveUserJson fullName jsonData oldName in
       let csvData := csvData_of fullName email userData in
       let* existingUser := findUserByEmail email in
       match existingUser with
       | Some _ => updateCSVRow email csvData oldImagePath >> ret jsonSaved
       | None =>
           let* users := readCSV in
           setItem (with_csv_users (users ++ [csvData])) >>
           ret jsonSaved
       end)
    (ret false).

Definition loadUserData (name : string) : M (option UserData) :=
  loadUserJson name.

Record Exists : Type := mkExists {
  exists_ : bool;
  byName : bool;
  byEmail : bool
}.

Definition checkUserExists (name email : string) : M Exists :=
  let* foundByName := findUserByName name in
  let* foundByEmail := findUserByEmail email in
  ret {| exists_ := bool_decide (is_Some foundByName) || bool_decide (is_Some foundByEmail);
         byName := bool_decide (is_Some foundByName);
         byEmail := bool_decide (is_Some foundByEmail) |}.

End Model.

(** The empty browser storage. *)
Definition empty_storage : Storage :=
  {| csv_users := None; user_files := None; deleted_images := None; user_json := ∅ |}.

Definition fresh : World := {| ls := empty_storage; tick := 0 |}.

(** The rows of the local layer: what ["csv_users"] holds, none when the key
    is absent. *)
Definition stored_rows (s : Storage) : list row := default [] (csv_users s).

(** The detail record a [load(name)] returns in a given storage. *)
Definition load (name : string) (s : Storage) : option UserData :=
  user_json s !! getFileName name.

(** One call of the engine's [syncUser]. *)
Record call : Type := mkCall {
  payload : UserData;
  previousName : option string;
  previousResourcePath : option string
}.

Definition syncUser (E : Env) (c : call) (w : World) : World :=
  after (saveUserDataDual E (payload c) (previousName c) (previousResourcePath c)) w.

Definition syncAll (E : Env) (cs : list call) (w : World) : World :=
  fold_left (fun w c => syncUser E c w) cs w.

(** ** Vocabulary of the statements *)

(** A computation that always returns. *)
Definition returns {A} (m : M A) : Prop :=
  forall w, exists a, result m w = Ret a.

(** [m] only moves the storage along [R]. *)
Definition keeps (R : Storage -> Storage -> Prop) {A} (m : M A) : Prop :=
  forall w, R (ls w) (ls (after m w)).

(** [oldName && oldName !== name] *)
Definition renames (oldName : option string) (name : string) : bool :=
  Js.truthy oldName && negb (Js.strict_eq oldName (Some name)).

(** The detail documents after a successful [saveUserJson]. *)
Definition moved_json (oldName : option string) (name : string) (d : UserData)
    (m : gmap string UserData) : gmap string UserData :=
  <[getFileName name := d]>
    (if renames oldName name then delete (getFileName (default "" oldName)) m else m).

(** The validation of [saveUserDataDual], and what it builds from a payload
    that passes. *)
Definition valid (userData : UserData) : bool :=
  Js.truthy (fullName_of userData) && Js.truthy (email_of userData).

Definition key_name (userData : UserData) : string :=
  default "" (fullName_of userData).

Definition key_email (userData : UserData) : string :=
  default "" (email_of userData).

Definition detail_of (userData : UserData) : UserData :=
  jsonData_of (key_name userData) (key_email userData) userData.

Definition summary_of (userData : UserData) : row :=
  csvData_of (key_name userData) (key_email userData) userData.

(** The second half of [saveUserDataDual]: from the look-up by e-mail to the
    [return jsonSaved]. *)
Definition sync_summary (E : Env) (email : string) (csvData : row)
    (oldImagePath : option string) (jsonSaved : bool) : M bool :=
  let* existingUser := findUserByEmail E email in
  match existingUser with
  | Some _ => updateCSVRow E email csvData oldImagePath >> ret jsonSaved
  | None =>
      let* users := readCSV E in
      setItem E (with_csv_users (users ++ [csvData])) >>
      ret jsonSaved
  end.

(** The deletion-tracking list of a storage. *)
Definition marked (s : Storage) : list string := default [] (deleted_images s).

(** ** Concrete scenarios *)

(** A browser whose draws of [Math.random] are 0, 1, 2, ... *)
Definition browser (csv : string) (net : nat -> bool) (fits : Storage -> bool) : Env :=
  {| d_csv := csv; online := net; random := fun n => n; quota := fits |}.

Definition always (b : bool) : nat -> bool := fun _ => b.

Definition roomy : Storage -> bool := fun _ => true.

(** A storage with room for one document only. *)
Definition room_for_one : Storage -> bool :=
  fun s => Nat.leb (size (user_json s) + length (stored_rows s)) 1.

(** The payload built by the registration flow. *)
Definition signup_payload (name email password : string) : UserData :=
  {| full_name := Some name;
     email_address := Some email;
     password := Some password;
     gender := Some "female";
     country := Some "UK";
     year := Some "1815";
     education := Some "";
     interests := Some [];
     custom_interest := Some "";
     skills := Some [];
     custom_skill := Some "";
     profile_picture := Some "Faces/01_female_2001.jpg.jpg";
     bio := None;
     recommendations_saved := Some [];
     recommendations_selected := None;
     recommendations_rejected := Some [];
     name := None;
     email := None |}.

Definition ada : UserData := signup_payload "Ada Lovelace" "ada@x.test" "secret1".

Definition bob : UserData := signup_payload "Bob" "bob@x.test" "secret2".

(** A payload that spells its identity the legacy way. *)
Definition legacy_payload : UserData :=
  {| full_name := None; email_address := None; password := Some "secret1";
     gender := None; country := None; year := None; education := None;
     interests := None; custom_interest := None; skills := None;
     custom_skill := None; profile_picture := None; bio := None;
     recommendations_saved := None; recommendations_selected := None;
     recommendations_rejected := None;
     name := Some "Ada Lovelace"; email := Some "ada@x.test" |}.

Definition with_skills (l : list string) (p : UserData) : UserData :=
  {| full_name := full_name p; email_address := email_address p;
     password := password p; gender := gender p; country := country p;
     year := year p; education := education p; interests := interests p;
     custom_interest := custom_interest p; skills := Some l;
     custom_skill := custom_skill p; profile_picture := profile_picture p;
     bio := bio p; recommendations_saved := recommendations_saved p;
     recommendations_selected := recommendations_selected p;
     recommendations_rejected := recommendations_rejected p;
     name := name p; email := email p |}.

Definition with_full_name (n : string) (p : UserData) : UserData :=
  {| full_name := Some n; email_address := email_address p;
     password := password p; gender := gender p; country := country p;
     year := year p; education := education p; interests := interests p;
     custom_interest := custom_interest p; skills := skills p;
     custom_skill := custom_skill p; profile_picture := profile_picture p;
     bio := bio p; recommendations_saved := recommendations_saved p;
     recommendations_selected := recommendations_selected p;
     recommendations_rejected := recommendations_rejected p;
     name := name p; email := email p |}.

(** Baseline files in the current and in the legacy column format. *)
Definition baseline_new : string :=
  "full_name,email_address,password
Ada Lovelace,ada@x.test,secret1
".

Definition baseline_legacy : string :=
  "name,email,password
Ada Lovelace,ada@x.test,secret1
".

(** ** Vocabulary of the merge *)

(** The property the merge of [readCSV] compares. *)
Definition legacy_email (r : row) : option string := obj_get "email" r.

Definition seen_in (seen : list (option string)) (x : option string) : bool :=
  existsb (fun e => Js.strict_eq e x) seen.

(** The cached rows the merge appends, given the [email] properties of the
    rows merged so far. *)
Fixpoint merge_added (seen : list (option string)) (cached : list row) : list row :=
  match cached with
  | [] => []
  | c :: rest =>
      if seen_in seen (legacy_email c) then merge_added seen rest
      else c :: merge_added (seen ++ [legacy_email c]) rest
  end.

(** Rows that no look-up by e-mail and no merge can tell apart. *)
Definition same_keys (r r' : row) : Prop :=
  obj_get "email" r = obj_get "email" r'
  /\ obj_get "email_address" r = obj_get "email_address" r'.

(** Rows the merge appends one and all. *)
Fixpoint all_new (seen : list (option string)) (rows : list row) : Prop :=
  match rows with
  | [] => True
  | r :: rest =>
      seen_in seen (legacy_email r) = false
      /\ all_new (seen ++ [legacy_email r]) rest
  end.

(** The storage takes every write. *)
Definition never_full (E : Env) : Prop := forall s, quota E s = true.

(** The baseline is within reach at every read or at none. *)
Definition steady (E : Env) : Prop := forall n m, online E n = online E m.

Definition with_profile_picture (path : string) (p : UserData) : UserData :=
  {| full_name := full_name p; email_address := email_address p;
     password := password p; gender := gender p; country := country p;
     year := year p; education := education p; interests := interests p;
     custom_interest := custom_interest p; skills := skills p;
     custom_skill := custom_skill p; profile_picture := Some path;
     bio := bio p; recommendations_saved := recommendations_saved p;
     recommendations_selected := recommendations_selected p;
     recommendations_rejected := recommendations_rejected p;
     name := name p; email := email p |}.

(** The baseline is out of reach until the k-th interaction with the
    outside, and within reach from then on. *)
Definition reach_from (k n : nat) : bool := Nat.leb k n.

(** ** Vocabulary of the uniqueness invariant *)

(** The operations a caller runs against the summary store. *)
Inductive op : Type :=
  | Sync (c : call)
  | ReadAll.

Definition run_op (E : Env) (o : op) (w : World) : World :=
  match o with
  | Sync c => syncUser E c w
  | ReadAll => after (readCSV E) w
  end.

Definition run_ops (E : Env) (os : list op) (w : World) : World :=
  fold_left (fun w o => run_op E o w) os w.

(** Rows of the current column format: no legacy [email] property. *)
Definition current_format (rows : list row) : Prop :=
  Forall (fun r => obj_get "email" r = None) rows.

(** No two rows with the same case-insensitive [email_address]. *)
Definition unique_addresses (rows : list row) : Prop :=
  forall i j r r' a a',
    rows !! i = Some r -> rows !! j = Some r' ->
    obj_get "email_address" r = Some a -> obj_get "email_address" r' = Some a' ->
    Js.toLowerCase a = Js.toLowerCase a' -> i = j.

(** No two rows that one look-up by e-mail would both match. *)
Definition clash_free (rows : list row) : Prop :=
  forall i j r r' e,
    rows !! i = Some r -> rows !! j = Some r' ->
    email_matches e r = true -> email_matches e r' = true -> i = j.

Definition tidy (rows : list row) : Prop :=
  current_format rows /\ clash_free rows.

(** A payload that spells out every property of the detail record, the way
    the profile page builds it: nothing for the engine to default. *)
Definition present {A} (v : option A) : bool :=
  match v with Some _ => true | None => false end.

Definition complete (p : UserData) : bool :=
  Js.truthy (full_name p) && Js.truthy (email_address p)
  && present (password p) && present (gender p) && present (country p)
  && present (year p) && present (education p) && present (interests p)
  && present (custom_interest p) && present (skills p) && present (custom_skill p)
  && present (profile_picture p) && present (bio p)
  && present (recommendations_saved p)
  && match recommendations_selected p with
     | Some (Str s) => negb (String.eqb s "")
     | Some (Arr _) => true
     | None => false
     end
  && present (recommendations_rejected p)
  && negb (present (name p)) && negb (present (email p)).

(** ** More of [csv.js] *)

(** [const { k: _, ...rest } = o] *)
Fixpoint obj_remove (k : string) (o : row) : row :=
  match o with
  | [] => []
  | (k', v) :: rest =>
      if String.eqb k' k then obj_remove k rest else (k', v) :: obj_remove k rest
  end.

(** The [headers] of [convertToCSV]. *)
Definition csv_headers : list string :=
  [ "full_name"; "email_address"; "password"; "gender"; "country"; "year";
    "profile_picture"; "recommendations_selected"; "bio" ].

(** The callback of [headers.map] in [convertToCSV]. *)
Definition export_field (user : row) (header : string) : string :=
  if String.eqb header "full_name" then
    default "" (obj_get "full_name" user ||| obj_get "name" user)
  else if String.eqb header "email_address" then
    default "" (obj_get "email_address" user ||| obj_get "email" user)
  else if String.eqb header "profile_picture" then
    default "" (obj_get "profile_picture" user ||| obj_get "avatar" user)
  else if String.eqb header "recommendations_selected" then
    default "" (obj_get "recommendations_selected" user)
  else if String.eqb header "bio" then
    default "" (obj_get "bio" user)
  else default "" (obj_get header user).

Definition export_row (user : row) : string :=
  Js.join "," (map (export_field user) csv_headers).

Definition convertToCSV (users : list row) : string :=
  match users with
  | [] =>
      "full_name,email_address,password,gender,country,year,profile_picture,recommendations_selected,bio
"
  | _ =>
      let csvLines := Js.join "," csv_headers :: map export_row users in
      Js.join "
" csvLines ++ "
"
  end.

Definition getCSVString (E : Env) : M string :=
  let* users := readCSV E in ret (convertToCSV users).

(** The argument of [addUser]: an object with a string [email] and optional
    other properties. *)
Module UserObject.
Record t : Type := mk {
  name : option string;
  email : string;
  password : option string;
  gender : option string;
  year : option string;
  country : option string;
  avatar : option string
}.
End UserObject.

(** An object literal stored as JSON: the properties whose value is
    [undefined] are not there. *)
Definition literal (props : list (string * option string)) : row :=
  omap (fun p => option_map (pair (fst p)) (snd p)) props.

Definition addUser (E : Env) (userObject : UserObject.t) : M (option row) :=
  try_catch
    (let* existingUser := findUserByEmail E (UserObject.email userObject) in
     match existingUser with
     | Some _ => ret None
     | None =>
         let* users := readCSV E in
         let* avatarFile :=
           (if Js.truthy (UserObject.avatar userObject)
            then ret (default "" (UserObject.avatar userObject))
            else getRandomAvatarFile E (UserObject.gender userObject)) in
         let newUser :=
           literal [ ("name", UserObject.name userObject);
                     ("email", Some (UserObject.email userObject));
                     ("password", UserObject.password userObject);
                     ("gender", UserObject.gender userObject);
                     ("year", UserObject.year userObject);
                     ("country", UserObject.country userObject);
                     ("avatar", Some avatarFile) ] in
         setItem E (with_csv_users (users ++ [newUser])) >>
         ret (Some newUser)
     end)
    (ret None).

(** The answer of [validateLogin]. *)
Record LoginResult : Type := mkLoginResult {
  success : bool;
  user : option row;
  error : option string
}.

Definition login_refused : LoginResult :=
  {| success := false; user := None;
     error := Some "Invalid email address or password" |}.

Definition validateLogin (E : Env) (email password : string) : M LoginResult :=
  try_catch
    (let* found := findUserByEmail E email in
     match found with
     | None => ret login_refused
     | Some u =>
         if negb (Js.strict_eq (obj_get "password" u) (Some password))
         then ret login_refused
         else ret {| success := true;
                     user := Some (obj_remove "password" u);
                     error := None |}
     end)
    (ret {| success := false; user := None;
            error := Some "An error occurred during login" |}).

(** ** More of [avatars.js] *)

(** The URL the bundler gives an avatar file is not in the sources: it is a
    function [url_of] of the file name. *)
Definition defaultAvatar : string * string :=
  nth 0 avatarCatalog ("", "").

Definition getAvatarUrl (url_of : string -> string) (fileName : option string) : string :=
  if negb (Js.truthy fileName) then url_of (fst defaultAvatar)
  else
    match List.find (fun avatar => String.eqb (fst avatar) (default "" fileName))
            avatarCatalog with
    | Some found => url_of (fst found)
    | None => url_of (fst defaultAvatar)
    end.

Definition withAvatarMetadata (url_of : string -> string) (E : Env)
    (user : option row) : M (option row) :=
  match user with
  | None => ret None
  | Some u =>
      let* fileName :=
        (if Js.truthy (obj_get "avatar" u) then ret (default "" (obj_get "avatar" u))
         else getRandomAvatarFile E (obj_get "gender" u)) in
      ret (Some (obj_set "avatarUrl" (getAvatarUrl url_of (Some fileName))
                   (obj_set "avatar" fileName u)))
  end.

(** ** More of [userStorage.js] *)

Definition getUserJsonPath (name : string) : string :=
  "/user/" ++ getFileName name ++ ".json".

(** [Object.entries(userFiles)] lists the entries in the order the
    properties were created, which the stored map does not record: the
    order is a parameter [entries_of]. *)
Definition getAllUserJsonFiles
    (entries_of : gmap string string -> list (string * string)) : M (list UserData) :=
  try_catch
    (let* userFiles := stored_user_files in
     let* found := mapM (fun entry => loadUserJson (fst entry)) (entries_of userFiles) in
     ret (omap id found))
    (ret []).

(** ** The authentication service *)

Definition initializeAdminUser (E : Env) : M unit :=
  let* adminExists := findUserByEmail E "admin" in
  match adminExists with
  | Some _ => ret tt
  | None =>
      addUser E {| UserObject.name := Some "Admin";
                   UserObject.email := "admin";
                   UserObject.password := Some "admin";
                   UserObject.gender := Some "male";
                   UserObject.year := Some "1990";
                   UserObject.country := Some "Bangladesh";
                   UserObject.avatar := None |} >>
      ret tt
  end.

(** ** Vocabulary of the further statements *)

Fixpoint has_char (c : ascii) (s : string) : bool :=
  match s with
  | EmptyString => false
  | String c' r => Ascii.eqb c' c || has_char c r
  end.

(** A value that survives the CSV text: no comma, no line feed, nothing for
    [trim] to remove. *)
Definition clean_field (v : string) : bool :=
  negb (has_char "," v) && negb (has_char "010" v) && String.eqb (Js.trim v) v.

(** The row [parseCSV] reads back from the line [convertToCSV] writes. *)
Definition exported (user : row) : row :=
  map (fun header => (header, export_field user header)) csv_headers.

(** A row [convertToCSV] writes so that [parseCSV] reads it back. *)
Definition exportable (user : row) : bool :=
  forallb clean_field (map (export_field user) csv_headers)
  && Js.truthy (Some (export_field user "email_address")).

(** The characters of a storage key. *)
Definition key_alphabet (c : ascii) : bool :=
  Js.between 48 57 c || Js.between 97 122 c || Ascii.eqb c "_".

Fixpoint all_chars_in (p : ascii -> bool) (s : string) : bool :=
  match s with
  | EmptyString => true
  | String c r => p c && all_chars_in p r
  end.

(** The gender of a catalog file. *)
Definition catalog_gender (file : string) : option string :=
  option_map snd (List.find (fun avatar => String.eqb (fst avatar) file) avatarCatalog).

(** The detail documents when only the deletion of a rename has happened. *)
Definition unmoved_json (oldName : option string) (name : string)
    (m : gmap string UserData) : gmap string UserData :=
  if renames oldName name then delete (getFileName (default "" oldName)) m else m.

(** [oldImagePath && oldImagePath !== updatedData.profile_picture], for the
    row the engine builds from a payload. *)
Definition picture_changed (oldImagePath : option string) (p : UserData) : bool :=
  Js.truthy oldImagePath
  && negb (Js.strict_eq oldImagePath (obj_get "profile_picture" (summary_of p))).

(** The deletion list with one more path marked. *)
Definition mark (path : string) (l : list string) : list string :=
  if includes l path then l else l ++ [path].

(** Two storages that differ in the summary rows at most. *)
Definition only_csv_users (s s' : Storage) : Prop :=
  user_json s' = user_json s
  /\ user_files s' = user_files s
  /\ deleted_images s' = deleted_images s.

(** A string that starts, respectively ends, with something else than white
    space. *)
Definition starts_solid (s : string) : bool :=
  match s with
  | EmptyString => false
  | String c _ => negb (Js.is_space c)
  end.

Fixpoint ends_solid (s : string) : bool :=
  match s with
  | EmptyString => false
  | String c EmptyString => negb (Js.is_space c)
  | String _ r => ends_solid r
  end.

(** ** More of the authentication service *)

(** The regular expression of the service is a sequence of single characters
    and of one-or-more repetitions of a character class, anchored at both
    ends. *)
Inductive regex_item : Type :=
  | One (class : ascii -> bool)
  | Plus (class : ascii -> bool).

(** [regex.test(s)] for an anchored sequence of items. *)
Fixpoint regex_test (s : string) (items : list regex_item) {struct s} : bool :=
  match s, items with
  | EmptyString, [] => true
  | String c r, One class :: rest => class c && regex_test r rest
  | String c r, Plus class :: rest =>
      class c && (regex_test r rest || regex_test r (Plus class :: rest))
  | _, _ => false
  end.

(** The class [[^\s@]]. *)
Definition email_char (c : ascii) : bool :=
  negb (Js.is_space c) && negb (Ascii.eqb c "@").

(** [/^[^\s@]+@[^\s@]+\.[^\s@]+$/.test(email)] *)
Definition isValidEmail (email : string) : bool :=
  regex_test email
    [ Plus email_char; One (Ascii.eqb "@"); Plus email_char; One (Ascii.eqb ".");
      Plus email_char ].

Definition refusal (message : string) : LoginResult :=
  {| success := false; user := None; error := Some message |}.

(** The [userData] literal of [registerUser]. *)
Definition registration_data
    (name email password gender year country profilePicture : string) : UserData :=
  {| full_name := Some name;
     email_address := Some email;
     password := Some password;
     gender := Some gender;
     country := Some country;
     year := Some year;
     education := Some "";
     interests := Some [];
     custom_interest := Some "";
     skills := Some [];
     custom_skill := Some "";
     profile_picture := Some profilePicture;
     bio := None;
     recommendations_saved := Some [];
     recommendations_selected := None;
     recommendations_rejected := Some [];
     name := None;
     email := None |}.

(** The session key ["currentUser"] is not one of the keys of [Storage]: the
    write [localStorage.setItem("currentUser", ...)] is a computation
    [setCurrentUser] given from outside, which may throw. The arguments are
    the strings of the sign-up form. *)
Definition registerUser (url_of : string -> string)
    (setCurrentUser : option row -> M unit) (E : Env)
    (name email password confirmPassword gender year country : string)
    : M LoginResult :=
  if negb (Js.truthy (Some name)) || negb (Js.truthy (Some email))
     || negb (Js.truthy (Some password)) || negb (Js.truthy (Some confirmPassword))
     || negb (Js.truthy (Some gender)) || negb (Js.truthy (Some year))
     || negb (Js.truthy (Some country))
  then ret (refusal "Please fill in all fields")
  else if negb (isValidEmail email)
  then ret (refusal "Please enter a valid email address")
  else if negb (Js.strict_eq (Some password) (Some confirmPassword))
  then ret (refusal "Passwords do not match")
  else if Nat.ltb (String.length password) 6
  then ret (refusal "Password must be at least 6 characters")
  else
    let* userExists := checkUserExists E name email in
    if exists_ userExists
    then ret (refusal "Account already exists. Please log in instead.")
    else
      let* avatarFile := getRandomAvatarFile E (Some gender) in
      let profilePicture := "Faces/" ++ avatarFile in
      let userData :=
        registration_data name email password gender year country profilePicture in
      let* saved := saveUserDataDual E userData None None in
      if negb saved
      then ret (refusal "Failed to create account. Please try again.")
      else
        let* currentUser :=
          withAvatarMetadata url_of E
            (Some (literal [ ("email", Some email); ("name", Some name);
                             ("gender", Some gender); ("year", Some year);
                             ("country", Some country); ("avatar", Some avatarFile) ])) in
        setCurrentUser currentUser >>
        ret {| success := true; user := currentUser; error := None |}.

(** What the regular expression of [isValidEmail] describes. *)
Definition email_shape (email : string) : Prop :=
  exists a b c,
    email = a ++ "@" ++ b ++ "." ++ c
    /\ a <> "" /\ b <> "" /\ c <> ""
    /\ all_chars_in email_char a = true
    /\ all_chars_in email_char b = true
    /\ all_chars_in email_char c = true.

(** The form values that pass the checks [registerUser] makes before it
    looks anything up. *)
Definition acceptable (name email password confirmPassword gender year country : string)
    : bool :=
  forallb (fun v => Js.truthy (Some v))
    [name; email; password; confirmPassword; gender; year; country]
  && isValidEmail email
  && String.eqb password confirmPassword
  && Nat.leb 6 (String.length password).

(** A session write that succeeds and leaves the modelled keys alone. *)
Definition session_write_ok (setCurrentUser : option row -> M unit) : Prop :=
  forall v w, exists w', setCurrentUser v w = (Ret tt, w') /\ ls w' = ls w.

(** The addresses a look-up by e-mail matches a row under, in lower case. *)
Definition match_keys (r : row) : list string :=
  omap (fun k => option_map Js.toLowerCase (obj_get k r)) ["email"; "email_address"].

(** [clash_free], decided. *)
Fixpoint clash_freeb (rows : list row) : bool :=
  match rows with
  | [] => true
  | r :: rest =>
      forallb (fun r' =>
                 forallb (fun k => negb (existsb (String.eqb k) (match_keys r')))
                   (match_keys r))
        rest
      && clash_freeb rest
  end.

(** * Properties *)

(** ** The primitives on examples *)

Example getFileName_ada : getFileName "Ada Lovelace" = "ada_lovelace".
Proof. reflexivity. Qed.

Example getFileName_blanks : getFileName "a  b" = "a__b".
Proof. reflexivity. Qed.

Example replace_space_runs_collapses : Js.replace_space_runs false "a  b c" = "a_b_c".
Proof. reflexivity. Qed.

Example trim_both_ends : Js.trim "  a b
 " = "a b".
Proof. reflexivity. Qed.

Example split_keeps_empty_fields : Js.split "," "a,,b," = ["a"; ""; "b"; ""].
Proof. reflexivity. Qed.

Example join_titles : Js.join "; " ["Data Scientist"; "Web Developer"]
                      = "Data Scientist; Web Developer".
Proof. reflexivity. Qed.

Example parseCSV_current_format :
  parseCSV baseline_new
  = [[("full_name", "Ada Lovelace"); ("email_address", "ada@x.test");
      ("password", "secret1")]].
Proof. reflexivity. Qed.

Example parseCSV_skips_rows_without_email :
  parseCSV "name,email
Ada,ada@x.test

Nobody,
" = [[("name", "Ada"); ("email", "ada@x.test")]].
Proof. reflexivity. Qed.

Example parseCSV_header_only : parseCSV "name,email
" = [].
Proof. reflexivity. Qed.

Example merge_keys_on_legacy_email :
  merge_users [[("email", "a@x")]] [[("email", "a@x"); ("name", "A")]; [("email", "b@x")]]
  = [[("email", "a@x")]; [("email", "b@x")]].
Proof. reflexivity. Qed.

(** ** Strings and key derivation *)

Lemma map_chars_compose (f g : ascii -> ascii) (s : string) :
  Js.map_chars f (Js.map_chars g s) = Js.map_chars (fun c => f (g c)) s.
Proof. induction s as [|c r IH]; simpl; [reflexivity | now rewrite IH]. Qed.

Lemma map_chars_ext (f g : ascii -> ascii) (s : string) :
  (forall c, f c = g c) -> Js.map_chars f s = Js.map_chars g s.
Proof. intros H. induction s as [|c r IH]; simpl; [reflexivity | now rewrite H, IH]. Qed.

Lemma map_chars_length (f : ascii -> ascii) (s : string) :
  String.length (Js.map_chars f s) = String.length s.
Proof. induction s as [|c r IH]; simpl; [reflexivity | now rewrite IH]. Qed.

Ltac all_chars c :=
  destruct c as [[] [] [] [] [] [] [] []]; vm_compute; try reflexivity; try discriminate.

Lemma alnum_not_space (c : ascii) : Js.is_alnum c = true -> Js.is_space c = false.
Proof. all_chars c. Qed.

Lemma replaced_not_space (c : ascii) :
  Js.is_space (if Js.is_alnum c then c else "_"%char) = false.
Proof.
  destruct (Js.is_alnum c) eqn:Hc; [now apply alnum_not_space | reflexivity].
Qed.

(** After the first [replace] no white space is left: the second one finds
    nothing to do. *)
Lemma replace_space_runs_no_op (in_run : bool) (s : string) :
  Js.replace_space_runs in_run (Js.replace_non_alnum s) = Js.replace_non_alnum s.
Proof.
  revert in_run. unfold Js.replace_non_alnum.
  induction s as [|c r IH]; intros in_run; simpl; [reflexivity |].
  rewrite replaced_not_space. now rewrite IH.
Qed.

Lemma lower_replaced (c : ascii) :
  Js.lower_char (if Js.is_alnum c then c else "_"%char) = key_char c.
Proof. unfold key_char. destruct (Js.is_alnum c); reflexivity. Qed.

Lemma getFileName_by_char (name : string) :
  getFileName name = Js.map_chars key_char name.
Proof.
  unfold getFileName. rewrite replace_space_runs_no_op.
  unfold Js.toLowerCase, Js.replace_non_alnum. rewrite map_chars_compose.
  apply map_chars_ext, lower_replaced.
Qed.

Lemma getFileName_length (name : string) :
  String.length (getFileName name) = String.length name.
Proof. rewrite getFileName_by_char. apply map_chars_length. Qed.

Lemma getFileName_empty (name : string) : getFileName name = "" -> name = "".
Proof.
  intros H. pose proof (getFileName_length name) as Hl. rewrite H in Hl.
  destruct name; [reflexivity | discriminate].
Qed.

Lemma truthy_Some (v : option string) :
  Js.truthy v = true -> exists s, v = Some s /\ s <> "".
Proof.
  destruct v as [s|]; simpl; [|discriminate].
  intros H. exists s. split; [reflexivity |].
  intros ->. discriminate.
Qed.

Lemma truthy_nonempty (s : string) : s <> "" -> Js.truthy (Some s) = true.
Proof.
  intros H. simpl. destruct (String.eqb s "") eqn:Hs; [|reflexivity].
  apply String.eqb_eq in Hs. contradiction.
Qed.

Lemma strict_eq_Some (a b : string) :
  Js.strict_eq (Some a) (Some b) = true <-> a = b.
Proof. simpl. apply String.eqb_eq. Qed.

Lemma strict_eq_refl (a : option string) : Js.strict_eq a a = true.
Proof. destruct a; simpl; [apply String.eqb_refl | reflexivity]. Qed.

(** ** Rows *)

Lemma obj_get_set_other (k k' v : string) (o : row) :
  k' <> k -> obj_get k (obj_set k' v o) = obj_get k o.
Proof.
  intros Hne. induction o as [|[k0 v0] rest IH]; simpl.
  - destruct (String.eqb k' k) eqn:Hk; [apply String.eqb_eq in Hk; contradiction | reflexivity].
  - destruct (String.eqb k0 k') eqn:H0; simpl.
    + apply String.eqb_eq in H0. subst k0.
      destruct (String.eqb k' k) eqn:Hk; [apply String.eqb_eq in Hk; contradiction | reflexivity].
    + destruct (String.eqb k0 k); [reflexivity | exact IH].
Qed.

Lemma obj_get_set_same (k v : string) (o : row) :
  obj_get k (obj_set k v o) = Some v.
Proof.
  induction o as [|[k0 v0] rest IH]; simpl.
  - now rewrite String.eqb_refl.
  - destruct (String.eqb k0 k) eqn:H0; simpl.
    + now rewrite String.eqb_refl.
    + now rewrite H0.
Qed.

(** ** Computations *)

Section Runs.

Variable E : Env.

Lemma run_eq {A} (m : M A) (w : World) : m w = (result m w, after m w).
Proof. unfold result, after. now destruct (m w). Qed.

Lemma bind_ret_run {A B} (m : M A) (k : A -> M B) (w w' : World) (a : A) :
  m w = (Ret a, w') -> bind m k w = k a w'.
Proof. intros H. unfold bind. now rewrite H. Qed.

Lemma bind_throw_run {A B} (m : M A) (k : A -> M B) (w w' : World) :
  m w = (Throw, w') -> bind m k w = (Throw, w').
Proof. intros H. unfold bind. now rewrite H. Qed.

Lemma returns_ret {A} (a : A) : returns (ret a).
Proof. intros w. now exists a. Qed.

Lemma returns_bind {A B} (m : M A) (k : A -> M B) :
  returns m -> (forall a, returns (k a)) -> returns (bind m k).
Proof.
  intros Hm Hk w. destruct (Hm w) as [a Ha].
  unfold result, bind in *. destruct (m w) as [[a'|] w']; simpl in Ha; [|discriminate].
  apply Hk.
Qed.

Lemma returns_try_catch {A} (m h : M A) : returns h -> returns (try_catch m h).
Proof.
  intros Hh w. unfold result, try_catch.
  destruct (m w) as [[a|] w']; simpl; [now exists a | apply Hh].
Qed.

Lemma returns_getItem {A} (proj : Storage -> A) : returns (getItem proj).
Proof. intros w. now eexists. Qed.

Lemma returns_random_index (n : nat) : returns (random_index E n).
Proof. intros w. now eexists. Qed.

Lemma returns_cached_users : returns cached_users.
Proof. apply returns_bind; [apply returns_getItem | intros; apply returns_ret]. Qed.

Lemma returns_readCSV : returns (readCSV E).
Proof. apply returns_try_catch, returns_cached_users. Qed.

Lemma returns_findUserByEmail (email : string) : returns (findUserByEmail E email).
Proof. apply returns_bind; [apply returns_readCSV | intros; apply returns_ret]. Qed.

Lemma returns_findUserByName (name : string) : returns (findUserByName E name).
Proof. apply returns_bind; [apply returns_readCSV | intros; apply returns_ret]. Qed.

Lemma returns_saveUserJson name userData oldName :
  returns (saveUserJson E name userData oldName).
Proof. apply returns_try_catch, returns_ret. Qed.

Lemma returns_updateCSVRow email updatedData oldImagePath :
  returns (updateCSVRow E email updatedData oldImagePath).
Proof. apply returns_try_catch, returns_ret. Qed.

Lemma returns_saveUserDataDual userData oldName oldImagePath :
  returns (saveUserDataDual E userData oldName oldImagePath).
Proof. apply returns_try_catch, returns_ret. Qed.

(** *** Frame rules: what a computation leaves alone in the storage *)

Section Keeps.

Variable R : Storage -> Storage -> Prop.
Hypothesis R_refl : forall s, R s s.
Hypothesis R_trans : forall s1 s2 s3, R s1 s2 -> R s2 s3 -> R s1 s3.

Lemma keeps_ret {A} (a : A) : keeps R (ret a).
Proof. intros w. apply R_refl. Qed.

Lemma keeps_throw {A} : keeps R (@throw A).
Proof. intros w. apply R_refl. Qed.

Lemma keeps_bind {A B} (m : M A) (k : A -> M B) :
  keeps R m -> (forall a, keeps R (k a)) -> keeps R (bind m k).
Proof.
  intros Hm Hk w. specialize (Hm w). unfold after, bind in *.
  destruct (m w) as [[a|] w']; simpl in *; [|exact Hm].
  eapply R_trans; [exact Hm | apply Hk].
Qed.

Lemma keeps_try_catch {A} (m h : M A) :
  keeps R m -> keeps R h -> keeps R (try_catch m h).
Proof.
  intros Hm Hh w. specialize (Hm w). unfold after, try_catch in *.
  destruct (m w) as [[a|] w']; simpl in *; [exact Hm |].
  eapply R_trans; [exact Hm | apply Hh].
Qed.

Lemma keeps_getItem {A} (proj : Storage -> A) : keeps R (getItem proj).
Proof. intros w. apply R_refl. Qed.

Lemma keeps_setItem (upd : Storage -> Storage) :
  (forall s, R s (upd s)) -> keeps R (setItem E upd).
Proof.
  intros H w. unfold after, setItem. destruct (quota E (upd (ls w))); simpl;
    [apply H | apply R_refl].
Qed.

Lemma keeps_removeItem (upd : Storage -> Storage) :
  (forall s, R s (upd s)) -> keeps R (removeItem upd).
Proof. intros H w. apply H. Qed.

Lemma keeps_fetch_csv : keeps R (fetch_csv E).
Proof. intros w. unfold after, fetch_csv. destruct (online E (tick w)); apply R_refl. Qed.

Lemma keeps_random_index (n : nat) : keeps R (random_index E n).
Proof. intros w. apply R_refl. Qed.

Lemma keeps_mapM {A B} (f : A -> M B) (l : list A) :
  (forall a, keeps R (f a)) -> keeps R (mapM f l).
Proof.
  intros Hf. induction l as [|x rest IH]; simpl.
  - apply keeps_ret.
  - apply keeps_bind; [apply Hf |]. intros y.
    apply keeps_bind; [exact IH |]. intros ys. apply keeps_ret.
Qed.

Lemma keeps_if {A} (b : bool) (m1 m2 : M A) :
  keeps R m1 -> keeps R m2 -> keeps R (if b then m1 else m2).
Proof. now destruct b. Qed.

Lemma keeps_getRandomAvatarFile gender : keeps R (getRandomAvatarFile E gender).
Proof.
  apply keeps_bind; [apply keeps_random_index | intros; apply keeps_ret].
Qed.

Lemma keeps_normalize_user user : keeps R (normalize_user E user).
Proof.
  unfold normalize_user. apply keeps_if; [apply keeps_ret |].
  apply keeps_bind; [apply keeps_getRandomAvatarFile | intros; apply keeps_ret].
Qed.

Lemma keeps_cached_users : keeps R cached_users.
Proof. apply keeps_bind; [apply keeps_getItem | intros; apply keeps_ret]. Qed.

(** Reading the table only ever writes ["csv_users"]. *)
Lemma keeps_readCSV :
  (forall v s, R s (with_csv_users v s)) -> keeps R (readCSV E).
Proof.
  intros Hcsv. apply keeps_try_catch; [|apply keeps_cached_users].
  apply keeps_bind; [apply keeps_fetch_csv |]. intros csvText.
  apply keeps_bind; [apply keeps_cached_users |]. intros cachedUsers.
  apply keeps_bind; [apply keeps_mapM, keeps_normalize_user |]. intros normalizedUsers.
  apply keeps_bind; [apply keeps_setItem, Hcsv | intros; apply keeps_ret].
Qed.

Lemma keeps_findUserByEmail email :
  (forall v s, R s (with_csv_users v s)) -> keeps R (findUserByEmail E email).
Proof.
  intros Hcsv. apply keeps_bind; [now apply keeps_readCSV | intros; apply keeps_ret].
Qed.

Lemma keeps_findUserByName name :
  (forall v s, R s (with_csv_users v s)) -> keeps R (findUserByName E name).
Proof.
  intros Hcsv. apply keeps_bind; [now apply keeps_readCSV | intros; apply keeps_ret].
Qed.

Lemma keeps_deleteOldImage imagePath :
  (forall l x, includes l x = false ->
     forall s, default [] (deleted_images s) = l -> R s (with_deleted_images (l ++ [x]) s)) ->
  keeps R (deleteOldImage E imagePath).
Proof.
  intros Hdel. unfold deleteOldImage. apply keeps_if; [apply keeps_ret |].
  apply keeps_try_catch; [|apply keeps_ret].
  intros w. unfold after, bind, stored_deleted_images, getItem, ret. simpl.
  destruct (includes _ _) eqn:Hin; simpl; [apply R_refl |].
  unfold setItem. destruct (quota E _); simpl; [|apply R_refl].
  now apply Hdel.
Qed.

Lemma keeps_updateCSVRow email updatedData oldImagePath :
  (forall v s, R s (with_csv_users v s)) ->
  (forall l x, includes l x = false ->
     forall s, default [] (deleted_images s) = l -> R s (with_deleted_images (l ++ [x]) s)) ->
  keeps R (updateCSVRow E email updatedData oldImagePath).
Proof.
  intros Hcsv Hdel. apply keeps_try_catch; [|apply keeps_ret].
  apply keeps_bind; [now apply keeps_readCSV |]. intros users.
  destruct (findIndex _ users) as [userIndex|]; [|apply keeps_ret].
  apply keeps_bind.
  - apply keeps_if; [now apply keeps_deleteOldImage | apply keeps_ret].
  - intros _. apply keeps_bind; [apply keeps_setItem, Hcsv | intros; apply keeps_ret].
Qed.

Lemma keeps_saveUserJson name userData oldName :
  (forall f s, R s (with_user_json f s)) ->
  (forall v s, R s (with_user_files v s)) ->
  keeps R (saveUserJson E name userData oldName).
Proof.
  intros Hjson Hfiles. apply keeps_try_catch; [|apply keeps_ret].
  apply keeps_bind.
  - apply keeps_if; [|apply keeps_ret].
    apply keeps_bind; [apply keeps_removeItem, Hjson |]. intros _.
    apply keeps_bind; [apply keeps_bind; [apply keeps_getItem | intros; apply keeps_ret] |].
    intros userFiles. apply keeps_setItem, Hfiles.
  - intros _. apply keeps_bind; [apply keeps_setItem, Hjson |]. intros _.
    apply keeps_bind; [apply keeps_bind; [apply keeps_getItem | intros; apply keeps_ret] |].
    intros userFiles.
    apply keeps_bind; [apply keeps_setItem, Hfiles | intros; apply keeps_ret].
Qed.

Lemma keeps_saveUserDataDual userData oldName oldImagePath :
  (forall f s, R s (with_user_json f s)) ->
  (forall v s, R s (with_user_files v s)) ->
  (forall v s, R s (with_csv_users v s)) ->
  (forall l x, includes l x = false ->
     forall s, default [] (deleted_images s) = l -> R s (with_deleted_images (l ++ [x]) s)) ->
  keeps R (saveUserDataDual E userData oldName oldImagePath).
Proof.
  intros Hjson Hfiles Hcsv Hdel. apply keeps_try_catch; [|apply keeps_ret].
  apply keeps_if; [apply keeps_ret |].
  apply keeps_bind; [now apply keeps_saveUserJson |]. intros jsonSaved.
  apply keeps_bind; [now apply keeps_findUserByEmail |]. intros [existingUser|].
  - apply keeps_bind; [now apply keeps_updateCSVRow | intros; apply keeps_ret].
  - apply keeps_bind; [now apply keeps_readCSV |]. intros users.
    apply keeps_bind; [apply keeps_setItem, Hcsv | intros; apply keeps_ret].
Qed.

End Keeps.

End Runs.

(** ** The detailed record store *)

Section Detail.

Variable E : Env.

Ltac split_quota :=
  repeat (match goal with
          | |- context [quota E ?s] => destruct (quota E s) eqn:?; simpl
          end).

Lemma saveUserJson_true name d oldName w :
  result (saveUserJson E name d oldName) w = Ret true ->
  user_json (ls (after (saveUserJson E name d oldName) w))
  = moved_json oldName name d (user_json (ls w))
  /\ csv_users (ls (after (saveUserJson E name d oldName) w)) = csv_users (ls w)
  /\ deleted_images (ls (after (saveUserJson E name d oldName) w)) = deleted_images (ls w).
Proof.
  unfold result, after, saveUserJson, moved_json, renames, try_catch, bind,
    stored_user_files, setItem, removeItem, getItem, ret.
  destruct (Js.truthy oldName && negb (Js.strict_eq oldName (Some name))); simpl;
    split_quota; try discriminate; auto.
Qed.

Lemma saveUserJson_fits name d oldName w :
  (forall s, quota E s = true) ->
  result (saveUserJson E name d oldName) w = Ret true.
Proof.
  intros Hq.
  unfold result, saveUserJson, try_catch, bind,
    stored_user_files, setItem, removeItem, getItem, ret.
  destruct (Js.truthy oldName && negb (Js.strict_eq oldName (Some name))); simpl;
    rewrite ?Hq; simpl; rewrite ?Hq; simpl; rewrite ?Hq; reflexivity.
Qed.

(** [load] is what [loadUserJson] answers, and it touches nothing. *)
Lemma loadUserJson_load name w :
  loadUserJson name w = (Ret (load name (ls w)), w).
Proof. reflexivity. Qed.

Lemma renames_none name : renames None name = false.
Proof. reflexivity. Qed.

Lemma renames_true oldName name :
  oldName <> "" -> oldName <> name -> renames (Some oldName) name = true.
Proof.
  intros Hne Hdiff. unfold renames. rewrite truthy_nonempty by assumption. simpl.
  destruct (String.eqb oldName name) eqn:Heq; [|reflexivity].
  apply String.eqb_eq in Heq. contradiction.
Qed.

Lemma load_moved_new oldName name d m :
  moved_json oldName name d m !! getFileName name = Some d.
Proof. unfold moved_json. apply lookup_insert_eq. Qed.

Lemma load_moved_old oldName name d m :
  renames (Some oldName) name = true ->
  getFileName oldName <> getFileName name ->
  moved_json (Some oldName) name d m !! getFileName oldName = None.
Proof.
  intros Hren Hkey. unfold moved_json. rewrite Hren. simpl.
  rewrite lookup_insert_ne by congruence. apply lookup_delete_eq.
Qed.

End Detail.

(** C4, as amended: the storage key is a function of the display name alone,
    obtained by replacing every code unit outside [a-zA-Z0-9] by an
    underscore and lower-casing the rest, so that it is as long as the name;
    a record saved under one name is the record loaded under any other name
    with the same key. *)
Theorem getFileName_replaces (name : string) :
  getFileName name = Js.map_chars key_char name
  /\ String.length (getFileName name) = String.length name
  /\ forall (E : Env) (other : string) (d : UserData) (w : World),
       getFileName other = getFileName name ->
       result (saveUserJson E name d None) w = Ret true ->
       load other (ls (after (saveUserJson E name d None) w)) = Some d.
Proof.
  split; [apply getFileName_by_char |].
  split; [apply getFileName_length |].
  intros E other d w Hkey Hsaved.
  destruct (saveUserJson_true E name d None w Hsaved) as [Hjson _].
  unfold load. rewrite Hjson, Hkey. apply load_moved_new.
Qed.

(** C4, as stated, fails: in the key of "J. R.  Tolkien" every full stop
    and every blank is an underscore of its own; nothing is removed and the
    two blanks are not collapsed, whichever way the words are read. *)
Lemma getFileName_does_not_strip :
  getFileName "J. R.  Tolkien" = "j__r___tolkien"
  /\ spec_key "J. R.  Tolkien" = "jrtolkien"
  /\ spec_key_collapsing "J. R.  Tolkien" = "j_r_tolkien"
  /\ getFileName "J. R.  Tolkien" <> spec_key "J. R.  Tolkien"
  /\ getFileName "J. R.  Tolkien" <> spec_key_collapsing "J. R.  Tolkien".
Proof. repeat split; discriminate. Qed.

Lemma getFileName_replaces_witness :
  getFileName "Ada Lovelace" = "ada_lovelace"
  /\ "ada-lovelace" <> "Ada Lovelace"
  /\ load "ada-lovelace"
       (ls (after (saveUserJson (browser "" (always false) roomy) "Ada Lovelace"
                     (detail_of ada) None) fresh))
     = Some (detail_of ada).
Proof.
  destruct (getFileName_replaces "Ada Lovelace") as (Hkey & _ & Hload).
  split; [rewrite Hkey; reflexivity |].
  split; [discriminate |].
  apply Hload; reflexivity.
Defined.

(** C9, as amended: renaming between two different names with one storage
    key keeps the record whenever the save reports success: the record is
    then what [load] returns under the new name (and under the old one); and
    the save reports success whenever the storage takes every write. *)
Theorem same_key_rename_keeps_record (E : Env) (name oldName : string)
    (d : UserData) (w : World)
    (Hdiff : oldName <> name)
    (Hkey : getFileName oldName = getFileName name) :
  (result (saveUserJson E name d (Some oldName)) w = Ret true ->
   load name (ls (after (saveUserJson E name d (Some oldName)) w)) = Some d
   /\ load oldName (ls (after (saveUserJson E name d (Some oldName)) w)) = Some d)
  /\ ((forall s, quota E s = true) ->
      result (saveUserJson E name d (Some oldName)) w = Ret true).
Proof.
  split; [|apply saveUserJson_fits].
  intros Hsaved.
  destruct (saveUserJson_true E name d (Some oldName) w Hsaved) as [Hjson _].
  unfold load. rewrite Hjson, Hkey. split; apply load_moved_new.
Qed.

Lemma same_key_rename_keeps_record_witness :
  let E := browser "" (always false) roomy in
  let w := after (saveUserJson E "ada lovelace" (detail_of ada) None) fresh in
  load "ada lovelace" (ls w) = Some (detail_of ada)
  /\ result (saveUserJson E "Ada Lovelace" (detail_of bob) (Some "ada lovelace")) w
     = Ret true
  /\ load "Ada Lovelace"
       (ls (after (saveUserJson E "Ada Lovelace" (detail_of bob) (Some "ada lovelace")) w))
     = Some (detail_of bob).
Proof.
  intros E w.
  assert (Hdiff : "ada lovelace" <> "Ada Lovelace") by discriminate.
  assert (Hkey : getFileName "ada lovelace" = getFileName "Ada Lovelace") by reflexivity.
  destruct (same_key_rename_keeps_record E "Ada Lovelace" "ada lovelace"
              (detail_of bob) w Hdiff Hkey) as [Hload Hok].
  split; [reflexivity |].
  assert (Hres : result (saveUserJson E "Ada Lovelace" (detail_of bob)
                           (Some "ada lovelace")) w = Ret true)
    by (apply Hok; reflexivity).
  split; [exact Hres | exact (proj1 (Hload Hres))].
Defined.

(** C9, as stated, fails: the delete comes before the writes, and a write
    can be refused. Here the store has no room for the document once the key
    is deleted: the save answers false, and the record that [load] returned
    under the old name is under neither name any more. *)
Lemma same_key_rename_loses_record :
  let E := browser "" (always false) (fun s => Nat.leb (size (user_json s)) 0) in
  let w := after (saveUserJson (browser "" (always false) roomy) "ada lovelace"
                    (detail_of ada) None) fresh in
  let w' := after (saveUserJson E "Ada Lovelace" (detail_of ada) (Some "ada lovelace")) w in
  "ada lovelace" <> "Ada Lovelace"
  /\ getFileName "ada lovelace" = getFileName "Ada Lovelace"
  /\ load "ada lovelace" (ls w) = Some (detail_of ada)
  /\ result (saveUserJson E "Ada Lovelace" (detail_of ada) (Some "ada lovelace")) w
     = Ret false
  /\ load "Ada Lovelace" (ls w') = None
  /\ load "ada lovelace" (ls w') = None.
Proof. vm_compute. split; [discriminate | repeat split]. Qed.


(** ** The synchronisation engine *)

Section Engine.

Variable E : Env.

Lemma valid_inv p :
  valid p = true ->
  Js.truthy (fullName_of p) = true /\ Js.truthy (email_of p) = true.
Proof. unfold valid. intros H. now apply andb_true_iff in H. Qed.

Lemma valid_key_name p : valid p = true -> fullName_of p = Some (key_name p).
Proof.
  intros H. apply valid_inv in H as [H _]. apply truthy_Some in H as (s & Hs & _).
  unfold key_name. now rewrite Hs.
Qed.

Lemma key_name_nonempty p : valid p = true -> key_name p <> "".
Proof.
  intros H. apply valid_inv in H as [H _]. apply truthy_Some in H as (s & Hs & Hne).
  unfold key_name. now rewrite Hs.
Qed.

Lemma key_email_nonempty p : valid p = true -> key_email p <> "".
Proof.
  intros H. apply valid_inv in H as [_ H]. apply truthy_Some in H as (s & Hs & Hne).
  unfold key_email. now rewrite Hs.
Qed.

(** A payload that passes the validation is written in two halves. *)
Lemma saveUserDataDual_valid p oldName oldImagePath :
  valid p = true ->
  saveUserDataDual E p oldName oldImagePath
  = try_catch
      (let* jsonSaved := saveUserJson E (key_name p) (detail_of p) oldName in
       sync_summary E (key_email p) (summary_of p) oldImagePath jsonSaved)
      (ret false).
Proof.
  intros H. apply valid_inv in H as [Hn He].
  unfold saveUserDataDual. rewrite Hn, He. reflexivity.
Qed.

Lemma saveUserDataDual_invalid p oldName oldImagePath w :
  valid p = false ->
  saveUserDataDual E p oldName oldImagePath w = (Ret false, w).
Proof.
  unfold valid. intros H. apply andb_false_iff in H.
  unfold saveUserDataDual, try_catch.
  destruct H as [H|H]; rewrite H; simpl; [reflexivity |].
  now rewrite orb_true_r.
Qed.

Lemma or_else_falsy (a b : option string) :
  Js.truthy a = false -> Js.truthy b = false -> Js.truthy (a ||| b) = false.
Proof. intros Ha Hb. unfold Js.or_else. now rewrite Ha. Qed.

Section SummaryFrame.

Variable R : Storage -> Storage -> Prop.
Hypothesis R_refl : forall s, R s s.
Hypothesis R_trans : forall s1 s2 s3, R s1 s2 -> R s2 s3 -> R s1 s3.
Hypothesis R_csv : forall v s, R s (with_csv_users v s).
Hypothesis R_marked :
  forall l x, includes l x = false ->
    forall s, default [] (deleted_images s) = l -> R s (with_deleted_images (l ++ [x]) s).

Lemma keeps_sync_summary email csvData oldImagePath jsonSaved :
  keeps R (sync_summary E email csvData oldImagePath jsonSaved).
Proof.
  apply keeps_bind; [assumption | now apply keeps_findUserByEmail |].
  intros [existingUser|].
  - apply keeps_bind; [assumption | now apply keeps_updateCSVRow | intros; now apply keeps_ret].
  - apply keeps_bind; [assumption | now apply keeps_readCSV |]. intros users.
    apply keeps_bind; [assumption | now apply keeps_setItem | intros; now apply keeps_ret].
Qed.

End SummaryFrame.

(** The second half never touches the detail documents. *)
Lemma sync_summary_user_json email csvData oldImagePath jsonSaved w :
  user_json (ls (after (sync_summary E email csvData oldImagePath jsonSaved) w))
  = user_json (ls w).
Proof.
  pose proof (keeps_sync_summary (fun s s' => user_json s' = user_json s)) as H.
  apply H; try reflexivity.
  intros s1 s2 s3 H12 H23. now rewrite H23.
Qed.

(** The outcome of the second half: the flag it was given, or a throw. *)
Lemma sync_summary_result email csvData oldImagePath jsonSaved w :
  result (sync_summary E email csvData oldImagePath jsonSaved) w = Ret jsonSaved
  \/ result (sync_summary E email csvData oldImagePath jsonSaved) w = Throw.
Proof.
  unfold result, sync_summary, bind.
  destruct (findUserByEmail E email w) as [[[u|]|] w1]; simpl; [| |now right].
  - destruct (updateCSVRow E email csvData oldImagePath w1) as [[b|] w2]; simpl;
      [now left | now right].
  - destruct (readCSV E w1) as [[users|] w2]; simpl; [|now right].
    destruct (setItem E _ w2) as [[[]|] w3]; simpl; [now left | now right].
Qed.

(** The two halves of a valid call, run one after the other. *)
Lemma dual_run p oldName oldImagePath w :
  valid p = true ->
  exists jsonSaved,
    let save := saveUserJson E (key_name p) (detail_of p) oldName in
    let rest := sync_summary E (key_email p) (summary_of p) oldImagePath jsonSaved in
    result save w = Ret jsonSaved
    /\ after (saveUserDataDual E p oldName oldImagePath) w = after rest (after save w)
    /\ result (saveUserDataDual E p oldName oldImagePath) w
       = match result rest (after save w) with
         | Ret b => Ret b
         | Throw => Ret false
         end.
Proof.
  intros Hvalid. rewrite (saveUserDataDual_valid _ _ _ Hvalid).
  destruct (returns_saveUserJson E (key_name p) (detail_of p) oldName w) as [b Hb].
  exists b. simpl. split; [exact Hb |].
  unfold result, after, try_catch, bind in *.
  destruct (saveUserJson E (key_name p) (detail_of p) oldName w) as [[b'|] w1];
    simpl in *; [|discriminate].
  injection Hb as ->.
  destruct (sync_summary E (key_email p) (summary_of p) oldImagePath b w1) as [[b'|] w2];
    simpl; split; reflexivity.
Qed.

(** With room for every write the second half does not throw. *)
Lemma sync_summary_fits email csvData oldImagePath jsonSaved w :
  never_full E ->
  result (sync_summary E email csvData oldImagePath jsonSaved) w = Ret jsonSaved.
Proof.
  intros Hfits.
  destruct (sync_summary_result email csvData oldImagePath jsonSaved w) as [H|H];
    [exact H | exfalso].
  unfold result, sync_summary, bind in H.
  destruct (returns_findUserByEmail E email w) as [found Hfound]. unfold result in Hfound.
  destruct (findUserByEmail E email w) as [[[u|]|] w1]; simpl in *; try discriminate.
  - destruct (returns_updateCSVRow E email csvData oldImagePath w1) as [b Hb].
    unfold result in Hb.
    destruct (updateCSVRow E email csvData oldImagePath w1) as [[b'|] w2];
      simpl in *; discriminate.
  - destruct (returns_readCSV E w1) as [users Husers]. unfold result in Husers.
    destruct (readCSV E w1) as [[users'|] w2]; simpl in *; [|discriminate].
    unfold setItem in H. rewrite Hfits in H. simpl in H. discriminate.
Qed.

Lemma saveUserDataDual_fits p oldName oldImagePath w :
  never_full E -> valid p = true ->
  result (saveUserDataDual E p oldName oldImagePath) w = Ret true.
Proof.
  intros Hfits Hvalid.
  destruct (dual_run p oldName oldImagePath w Hvalid) as (b & Hb & _ & Hres).
  simpl in Hres. rewrite (saveUserJson_fits E _ _ _ w Hfits) in Hb. injection Hb as <-.
  now rewrite sync_summary_fits in Hres.
Qed.

End Engine.

(** C5, as amended: a payload in which both spellings of the name
    ([full_name], [name]) or both spellings of the e-mail address
    ([email_address], [email]) are empty or absent makes the engine return
    false and leaves the whole browser state as it was. *)
Theorem invalid_payload_writes_nothing (E : Env) (p : UserData)
    (oldName oldImagePath : option string) (w : World)
    (Hmissing :
       (Js.truthy (full_name p) = false /\ Js.truthy (name p) = false)
       \/ (Js.truthy (email_address p) = false /\ Js.truthy (email p) = false)) :
  saveUserDataDual E p oldName oldImagePath w = (Ret false, w).
Proof.
  apply saveUserDataDual_invalid. unfold valid, fullName_of, email_of.
  destruct Hmissing as [[H1 H2]|[H1 H2]].
  - now rewrite (or_else_falsy _ _ H1 H2).
  - rewrite (or_else_falsy _ _ H1 H2). apply andb_false_r.
Qed.

(** C5, as stated, fails: a payload without [full_name] and without
    [email_address] is accepted, and written, when it carries the legacy
    [name] and [email]. *)
Lemma legacy_payload_is_written :
  let E := browser "" (always false) roomy in
  full_name legacy_payload = None
  /\ email_address legacy_payload = None
  /\ result (saveUserDataDual E legacy_payload None None) fresh = Ret true
  /\ load "Ada Lovelace" (ls (after (saveUserDataDual E legacy_payload None None) fresh))
     = Some (detail_of legacy_payload)
  /\ stored_rows (ls (after (saveUserDataDual E legacy_payload None None) fresh))
     = [summary_of legacy_payload].
Proof. vm_compute. repeat split. Qed.

Lemma invalid_payload_writes_nothing_witness :
  let E := browser baseline_new (always true) roomy in
  let w := syncUser E (mkCall ada None None) fresh in
  saveUserDataDual E (with_full_name "" bob) None None w = (Ret false, w).
Proof.
  intros E w. apply invalid_payload_writes_nothing.
  left. split; reflexivity.
Defined.

(** C7: for a payload that passes the validation, when the engine reports
    success the detail record found under the payload's name has the empty
    list of interests (of skills) whenever the payload supplied the empty
    list, whatever was stored before; and the engine reports success whenever
    the storage takes every write. *)
Theorem empty_list_clears (E : Env) (p : UserData)
    (oldName oldImagePath : option string) (w : World)
    (Hvalid : valid p = true) :
  (result (saveUserDataDual E p oldName oldImagePath) w = Ret true ->
   exists d,
     load (key_name p) (ls (after (saveUserDataDual E p oldName oldImagePath) w)) = Some d
     /\ (interests p = Some [] -> interests d = Some [])
     /\ (skills p = Some [] -> skills d = Some []))
  /\ (never_full E ->
      result (saveUserDataDual E p oldName oldImagePath) w = Ret true).
Proof.
  split; [|intros Hfits; now apply saveUserDataDual_fits].
  intros Hsaved.
  destruct (dual_run E p oldName oldImagePath w Hvalid) as (b & Hb & Hafter & Hres).
  simpl in *. rewrite Hsaved in Hres.
  destruct (sync_summary_result E (key_email p) (summary_of p) oldImagePath b
              (after (saveUserJson E (key_name p) (detail_of p) oldName) w)) as [Hr|Hr];
    rewrite Hr in Hres; [|discriminate].
  injection Hres as <-.
  exists (detail_of p). split.
  - unfold load. rewrite Hafter, sync_summary_user_json.
    destruct (saveUserJson_true E _ _ _ _ Hb) as [Hjson _].
    rewrite Hjson. apply load_moved_new.
  - unfold detail_of, jsonData_of; simpl. split; intros ->; reflexivity.
Qed.

Lemma empty_list_clears_witness :
  let E := browser baseline_new (always true) roomy in
  let w := syncUser E (mkCall (with_skills ["Python"] ada) None None) fresh in
  (exists d, load "Ada Lovelace" (ls w) = Some d /\ skills d = Some ["Python"])
  /\ exists d,
       load "Ada Lovelace" (ls (after (saveUserDataDual E (with_skills [] ada) None None) w))
       = Some d
       /\ skills d = Some [].
Proof.
  intros E w. split.
  - eexists. split; reflexivity.
  - destruct (empty_list_clears E (with_skills [] ada) None None w eq_refl)
      as [Hclears Hfits].
    assert (Hsaved : result (saveUserDataDual E (with_skills [] ada) None None) w = Ret true)
      by (apply Hfits; intros s; reflexivity).
    destruct (Hclears Hsaved) as (d & Hload & _ & Hskills).
    exists d. split; [exact Hload | now apply Hskills].
Defined.

(** C8, as amended: for a payload that passes the validation the engine
    returns true only if the detail-record write succeeded; when a summary
    row with the payload's e-mail address is found the returned boolean is the
    outcome of the detail write, whatever becomes of the summary update; when
    none is found the returned boolean is the outcome of the detail write
    and-ed with the success of the write that appends the summary row. *)
Theorem dual_write_result (E : Env) (p : UserData)
    (oldName oldImagePath : option string) (w : World)
    (Hvalid : valid p = true) :
  let save := saveUserJson E (key_name p) (detail_of p) oldName in
  let lookup := findUserByEmail E (key_email p) in
  let w1 := after save w in
  let w2 := after lookup w1 in
  let w3 := after (readCSV E) w2 in
  exists jsonSaved,
    result save w = Ret jsonSaved
    /\ (result (saveUserDataDual E p oldName oldImagePath) w = Ret true ->
        jsonSaved = true)
    /\ (forall u, result lookup w1 = Ret (Some u) ->
        result (saveUserDataDual E p oldName oldImagePath) w = Ret jsonSaved)
    /\ (result lookup w1 = Ret None ->
        exists users,
          result (readCSV E) w2 = Ret users
          /\ result (saveUserDataDual E p oldName oldImagePath) w
             = Ret (jsonSaved
                    && quota E (with_csv_users (users ++ [summary_of p]) (ls w3)))).
Proof.
  intros save lookup w1 w2 w3.
  destruct (dual_run E p oldName oldImagePath w Hvalid) as (b & Hb & _ & Hres).
  simpl in Hres. fold save in Hb, Hres. fold w1 in Hres.
  exists b. split; [exact Hb |]. split; [|split].
  - intros Htrue. rewrite Htrue in Hres.
    destruct (sync_summary_result E (key_email p) (summary_of p) oldImagePath b w1)
      as [Hr|Hr]; rewrite Hr in Hres; [now injection Hres | discriminate].
  - intros u Hu. rewrite Hres. clear Hres.
    unfold result, sync_summary, bind in *. fold lookup.
    destruct (lookup w1) as [[o|] w2'] eqn:Hl; simpl in Hu; [|discriminate].
    injection Hu as ->.
    destruct (returns_updateCSVRow E (key_email p) (summary_of p) oldImagePath w2')
      as [b' Hb'].
    unfold result in Hb'.
    destruct (updateCSVRow E (key_email p) (summary_of p) oldImagePath w2')
      as [[b''|] w3']; simpl in *; [reflexivity | discriminate].
  - intros Hnone.
    destruct (returns_readCSV E w2) as [users Husers].
    exists users. split; [exact Husers |].
    rewrite Hres. clear Hres.
    unfold w3, w2, result, after, sync_summary, bind in *. fold lookup.
    destruct (lookup w1) as [[o|] w2'] eqn:Hl; simpl in Hnone; [|discriminate].
    injection Hnone as ->. simpl in *.
    destruct (readCSV E w2') as [[users'|] w3'] eqn:Hr; simpl in *; [|discriminate].
    injection Husers as ->.
    unfold setItem.
    destruct (quota E (with_csv_users (users ++ [summary_of p]) (ls w3'))); simpl;
      [now rewrite andb_true_r | now rewrite andb_false_r].
Qed.

(** C8, as stated, fails: with the baseline out of reach and room for one
    document only, the detail record is written and the engine still returns
    false, because the write that appends the summary row throws. *)
Lemma summary_failure_is_reported :
  let E := browser "" (always false) room_for_one in
  result (saveUserJson E (key_name ada) (detail_of ada) None) fresh = Ret true
  /\ result (saveUserDataDual E ada None None) fresh = Ret false
  /\ load "Ada Lovelace" (ls (after (saveUserDataDual E ada None None) fresh))
     = Some (detail_of ada)
  /\ stored_rows (ls (after (saveUserDataDual E ada None None) fresh)) = [].
Proof. vm_compute. repeat split. Qed.

Lemma dual_write_result_witness :
  let E := browser "" (always false) room_for_one in
  result (saveUserDataDual E ada None None) fresh
  = Ret (true && quota E (with_csv_users ([] ++ [summary_of ada])
                            (ls (after (saveUserJson E (key_name ada) (detail_of ada) None)
                                   fresh)))).
Proof.
  intros E.
  destruct (dual_write_result E ada None None fresh eq_refl)
    as (b & Hb & _ & _ & Happend).
  assert (Hb' : b = true) by (vm_compute in Hb; now injection Hb).
  subst b.
  destruct (Happend eq_refl) as (users & Husers & Hres).
  assert (Hu : users = []) by (vm_compute in Husers; now injection Husers).
  subst users. exact Hres.
Defined.

(** ** The deletion-tracking list *)

Lemma includes_elem_of (l : list string) (x : string) :
  includes l x = true <-> x ∈ l.
Proof.
  unfold includes. rewrite existsb_exists. split.
  - intros (y & Hin & Heq). apply String.eqb_eq in Heq. subst y.
    now apply list_elem_of_In.
  - intros Hin. exists x. split; [now apply list_elem_of_In | apply String.eqb_refl].
Qed.

Lemma NoDup_snoc_fresh (l : list string) (x : string) :
  includes l x = false -> NoDup l -> NoDup (l ++ [x]).
Proof.
  intros Hin Hnd. apply NoDup_app. split; [exact Hnd |]. split.
  - intros y Hy Hx. apply list_elem_of_singleton in Hx. subst y.
    apply includes_elem_of in Hy. congruence.
  - apply NoDup_singleton.
Qed.

Lemma syncUser_keeps_NoDup (E : Env) (c : call) (w : World) :
  NoDup (marked (ls w)) -> NoDup (marked (ls (syncUser E c w))).
Proof.
  unfold syncUser.
  pose proof (keeps_saveUserDataDual E
                (fun s s' => NoDup (marked s) -> NoDup (marked s'))) as H.
  apply H; clear H; try (intros; assumption).
  - intros s1 s2 s3 H12 H23 H1. auto.
  - intros l x Hin s Hl Hnd. unfold marked in *. simpl. rewrite Hl in Hnd.
    now apply NoDup_snoc_fresh.
Qed.

Lemma deleteOldImage_marked (E : Env) (path : string) (w : World) :
  includes (marked (ls w)) path = true ->
  deleteOldImage E (Some path) w = (Ret tt, w).
Proof.
  intros Hin. unfold deleteOldImage.
  destruct (negb (Js.truthy (Some path))); [reflexivity |].
  unfold try_catch, bind, stored_deleted_images, getItem, ret. simpl.
  unfold marked in Hin. now rewrite Hin.
Qed.

(** C10: starting from a duplicate-free deletion-tracking list (the empty
    one of a new browser, for instance), the list is duplicate-free after any
    sequence of calls of the engine; and marking a path that is already in the
    list changes nothing at all. *)
Theorem deleted_images_duplicate_free (E : Env) (cs : list call) (w : World)
    (Hstart : NoDup (marked (ls w))) :
  NoDup (marked (ls (syncAll E cs w)))
  /\ forall path,
       path ∈ marked (ls (syncAll E cs w)) ->
       deleteOldImage E (Some path) (syncAll E cs w) = (Ret tt, syncAll E cs w).
Proof.
  assert (Hend : NoDup (marked (ls (syncAll E cs w)))).
  { unfold syncAll. revert w Hstart.
    induction cs as [|c rest IH]; intros w Hstart; simpl; [exact Hstart |].
    apply IH. now apply syncUser_keeps_NoDup. }
  split; [exact Hend |].
  intros path Hin. apply deleteOldImage_marked. now apply includes_elem_of.
Qed.

(** ** The merge of [readCSV] *)

Lemma existsb_map {A B} (f : B -> bool) (g : A -> B) (l : list A) :
  existsb f (map g l) = existsb (fun x => f (g x)) l.
Proof. induction l as [|x rest IH]; simpl; [reflexivity | now rewrite IH]. Qed.

Lemma merge_step_seen (allUsers : list row) (c : row) :
  merge_step allUsers c
  = if seen_in (map legacy_email allUsers) (legacy_email c)
    then allUsers else (allUsers ++ [c])%list.
Proof. unfold merge_step, seen_in. now rewrite existsb_map. Qed.

(** Baseline first, then the cached rows not yet seen. *)
Lemma merge_users_added (users cachedUsers : list row) :
  merge_users users cachedUsers
  = (users ++ merge_added (map legacy_email users) cachedUsers)%list.
Proof.
  unfold merge_users. revert users.
  induction cachedUsers as [|c rest IH]; intros users; simpl.
  - now rewrite app_nil_r.
  - rewrite IH, merge_step_seen.
    destruct (seen_in (map legacy_email users) (legacy_email c)); [reflexivity |].
    rewrite map_app. simpl. now rewrite <- app_assoc.
Qed.

Lemma seen_in_app (seen more : list (option string)) (x : option string) :
  seen_in (seen ++ more) x = seen_in seen x || seen_in more x.
Proof. unfold seen_in. apply existsb_app. Qed.

Lemma seen_in_map_self (rows : list row) (r : row) :
  In r rows -> seen_in (map legacy_email rows) (legacy_email r) = true.
Proof.
  intros Hin. unfold seen_in. apply existsb_exists.
  exists (legacy_email r). split; [now apply in_map | apply strict_eq_refl].
Qed.

Lemma merge_added_all_new (seen : list (option string)) (cached : list row) :
  all_new seen (merge_added seen cached).
Proof.
  revert seen. induction cached as [|c rest IH]; intros seen; simpl; [exact I |].
  destruct (seen_in seen (legacy_email c)) eqn:Hc; [apply IH |].
  simpl. split; [exact Hc | apply IH].
Qed.

Lemma merge_added_fixed (seen : list (option string)) (rows : list row) :
  all_new seen rows -> merge_added seen rows = rows.
Proof.
  revert seen. induction rows as [|r rest IH]; intros seen; simpl; [reflexivity |].
  intros [Hr Hrest]. rewrite Hr. now rewrite IH.
Qed.

Lemma merge_added_skip (seen : list (option string)) (known rows : list row) :
  Forall (fun r => seen_in seen (legacy_email r) = true) known ->
  merge_added seen (known ++ rows)%list = merge_added seen rows.
Proof.
  induction 1 as [|r rest Hr _ IH]; simpl; [reflexivity |].
  now rewrite Hr.
Qed.

Lemma same_keys_refl (r : row) : same_keys r r.
Proof. now split. Qed.

Lemma same_keys_sym (r r' : row) : same_keys r r' -> same_keys r' r.
Proof. intros [H1 H2]. now split. Qed.

Lemma same_keys_trans (r1 r2 r3 : row) :
  same_keys r1 r2 -> same_keys r2 r3 -> same_keys r1 r3.
Proof. intros [H1 H2] [H3 H4]. split; congruence. Qed.

Lemma Forall2_same_keys_refl (l : list row) : Forall2 same_keys l l.
Proof. induction l; constructor; [apply same_keys_refl | assumption]. Qed.

Lemma Forall2_same_keys_sym (l l' : list row) :
  Forall2 same_keys l l' -> Forall2 same_keys l' l.
Proof. induction 1; constructor; [now apply same_keys_sym | assumption]. Qed.

Lemma Forall2_same_keys_trans (l1 l2 l3 : list row) :
  Forall2 same_keys l1 l2 -> Forall2 same_keys l2 l3 -> Forall2 same_keys l1 l3.
Proof.
  intros H12. revert l3. induction H12 as [|x y l l' Hxy _ IH]; intros l3 H23.
  - inversion H23. constructor.
  - inversion H23 as [|y' z l2' l3' Hyz Hrest]; subst.
    constructor; [eapply same_keys_trans; eassumption | now apply IH].
Qed.

Lemma same_keys_legacy_email (l l' : list row) :
  Forall2 same_keys l l' -> map legacy_email l = map legacy_email l'.
Proof.
  induction 1 as [|x y l l' [Hxy _] _ IH]; simpl; [reflexivity |].
  unfold legacy_email at 1 3. now rewrite Hxy, IH.
Qed.

Lemma all_new_same_keys (seen : list (option string)) (l l' : list row) :
  Forall2 same_keys l l' -> all_new seen l -> all_new seen l'.
Proof.
  intros H. revert seen. induction H as [|x y l l' [Hxy _] _ IH]; intros seen; simpl;
    [trivial |].
  unfold legacy_email. rewrite <- Hxy. intros [Hx Hrest]. split; [exact Hx | now apply IH].
Qed.

(** Merging the baseline with what an earlier merge left in the cache gives
    the same rows again, up to the avatars. *)
Lemma merge_users_again (users cachedUsers merged : list row) :
  Forall2 same_keys (merge_users users cachedUsers) merged ->
  Forall2 same_keys merged (merge_users users merged).
Proof.
  rewrite !merge_users_added. intros H.
  apply Forall2_app_inv_l in H as (known & added & Hknown & Hadded & ->).
  rewrite merge_added_skip.
  - rewrite merge_added_fixed.
    + apply Forall2_app; [now apply Forall2_same_keys_sym | apply Forall2_same_keys_refl].
    + eapply all_new_same_keys; [exact Hadded | apply merge_added_all_new].
  - rewrite (same_keys_legacy_email _ _ Hknown).
    apply Forall_forall. intros r Hr. apply seen_in_map_self.
    now apply list_elem_of_In.
Qed.

Lemma same_keys_email_matches (email : string) (r r' : row) :
  same_keys r r' -> email_matches email r = email_matches email r'.
Proof. intros [H1 H2]. unfold email_matches. now rewrite H1, H2. Qed.

Lemma same_keys_findIndex (email : string) (l l' : list row) :
  Forall2 same_keys l l' ->
  findIndex (email_matches email) l = findIndex (email_matches email) l'.
Proof.
  induction 1 as [|x y l l' Hxy _ IH]; simpl; [reflexivity |].
  rewrite (same_keys_email_matches email x y Hxy). now rewrite IH.
Qed.

Lemma find_findIndex {A} (p : A -> bool) (l : list A) :
  List.find p l = None <-> findIndex p l = None.
Proof.
  induction l as [|x rest IH]; simpl; [tauto |].
  destruct (p x); [split; discriminate |].
  rewrite IH. destruct (findIndex p rest); simpl; split; intros H;
    try discriminate; reflexivity.
Qed.

Lemma find_insert_first {A} (p : A -> bool) (l : list A) (i : nat) (x : A) :
  findIndex p l = Some i -> p x = true -> List.find p (<[i := x]> l) = Some x.
Proof.
  revert i. induction l as [|y rest IH]; intros i; simpl; [discriminate |].
  destruct (p y) eqn:Hy.
  - intros [= <-] Hx. simpl. now rewrite Hx.
  - destruct (findIndex p rest) as [j|] eqn:Hj; simpl; [|discriminate].
    intros [= <-] Hx. simpl. rewrite Hy. now apply IH.
Qed.

Lemma find_snoc_first {A} (p : A -> bool) (l : list A) (x : A) :
  List.find p l = None -> p x = true -> List.find p (l ++ [x])%list = Some x.
Proof.
  induction l as [|y rest IH]; simpl; intros Hl Hx; [now rewrite Hx |].
  destruct (p y); [discriminate | now apply IH].
Qed.

(** ** Reading the table *)

Section Reads.

Variable E : Env.

Lemma getRandomAvatarFile_run (gender : option string) (w : World) :
  exists file w',
    getRandomAvatarFile E gender w = (Ret file, w') /\ ls w' = ls w.
Proof.
  unfold getRandomAvatarFile.
  set (pool := match List.filter _ avatarCatalog with [] => avatarCatalog | _ => _ end).
  clearbody pool. unfold bind, random_index, ret.
  eexists _, _. split; reflexivity.
Qed.

Lemma normalize_user_run (r : row) (w : World) :
  exists r' w',
    normalize_user E r w = (Ret r', w') /\ same_keys r r' /\ ls w' = ls w.
Proof.
  unfold normalize_user. destruct (Js.truthy (obj_get "avatar" r)).
  - exists r, w. split; [reflexivity |]. split; [apply same_keys_refl | reflexivity].
  - destruct (getRandomAvatarFile_run (obj_get "gender" r) w) as (file & w1 & Hfile & Hls).
    exists (obj_set "avatar" file r), w1. split.
    + unfold bind. now rewrite Hfile.
    + split; [|exact Hls].
      split; symmetry; apply obj_get_set_other; discriminate.
Qed.

Lemma mapM_normalize_run (l : list row) (w : World) :
  exists l' w',
    mapM (normalize_user E) l w = (Ret l', w')
    /\ Forall2 same_keys l l' /\ ls w' = ls w.
Proof.
  revert w. induction l as [|r rest IH]; intros w; simpl.
  - exists [], w. split; [reflexivity |]. split; [constructor | reflexivity].
  - destruct (normalize_user_run r w) as (r' & w1 & Hr & Hkeys & Hls1).
    destruct (IH w1) as (rest' & w2 & Hrest & Hall & Hls2).
    exists (r' :: rest'), w2. split.
    + unfold bind at 1. rewrite Hr. unfold bind at 1. now rewrite Hrest.
    + split; [now constructor | congruence].
Qed.

Lemma readCSV_offline (w : World) :
  online E (tick w) = false ->
  readCSV E w = (Ret (stored_rows (ls w)), {| ls := ls w; tick := S (tick w) |}).
Proof.
  intros Hoff. unfold readCSV, try_catch, bind at 1, fetch_csv. now rewrite Hoff.
Qed.

Lemma readCSV_online (w : World) :
  never_full E ->
  online E (tick w) = true ->
  exists merged w',
    readCSV E w = (Ret merged, w')
    /\ Forall2 same_keys
         (merge_users (parseCSV (d_csv E)) (stored_rows (ls w))) merged
    /\ csv_users (ls w') = Some merged.
Proof.
  intros Hfits Hon. unfold readCSV, try_catch, bind at 1, fetch_csv. rewrite Hon.
  unfold bind at 1, cached_users at 1, bind at 1, getItem, ret. simpl.
  set (w0 := {| ls := ls w; tick := S (tick w) |}).
  destruct (mapM_normalize_run
              (merge_users (parseCSV (d_csv E)) (default [] (csv_users (ls w)))) w0)
    as (merged & w1 & Hrun & Hkeys & Hls).
  exists merged, {| ls := with_csv_users merged (ls w1); tick := tick w1 |}.
  unfold bind at 1. rewrite Hrun. unfold bind, setItem. rewrite Hfits. simpl.
  split; [reflexivity |]. split; [exact Hkeys | reflexivity].
Qed.

Lemma try_catch_ret_run {A} (m h : M A) (w w' : World) (a : A) :
  m w = (Ret a, w') -> try_catch m h w = (Ret a, w').
Proof. intros H. unfold try_catch. now rewrite H. Qed.

Lemma setItem_fits (upd : Storage -> Storage) (w : World) :
  never_full E ->
  setItem E upd w = (Ret tt, {| ls := upd (ls w); tick := tick w |}).
Proof. intros Hfits. unfold setItem. now rewrite Hfits. Qed.

(** Two reads in a row see the same rows, up to the avatars. *)
Lemma readCSV_twice (w : World) :
  never_full E -> steady E ->
  exists first second w1 w2,
    readCSV E w = (Ret first, w1)
    /\ readCSV E w1 = (Ret second, w2)
    /\ Forall2 same_keys first second.
Proof.
  intros Hfits Hnet. destruct (online E (tick w)) eqn:Hon.
  - destruct (readCSV_online w Hfits Hon) as (first & w1 & Hrun1 & Hkeys1 & Hcsv1).
    assert (Hon1 : online E (tick w1) = true) by (now rewrite (Hnet _ (tick w))).
    destruct (readCSV_online w1 Hfits Hon1) as (second & w2 & Hrun2 & Hkeys2 & _).
    exists first, second, w1, w2.
    split; [exact Hrun1 |]. split; [exact Hrun2 |].
    unfold stored_rows in Hkeys2. rewrite Hcsv1 in Hkeys2. simpl in Hkeys2.
    eapply Forall2_same_keys_trans; [|exact Hkeys2].
    eapply merge_users_again. exact Hkeys1.
  - exists (stored_rows (ls w)), (stored_rows (ls w)).
    eexists _, _. split; [now apply readCSV_offline |]. split.
    + rewrite readCSV_offline by (simpl; now rewrite (Hnet _ (tick w))).
      reflexivity.
    + apply Forall2_same_keys_refl.
Qed.

Lemma returns_deleteOldImage (imagePath : option string) :
  returns (deleteOldImage E imagePath).
Proof.
  unfold deleteOldImage. destruct (negb (Js.truthy imagePath)); [apply returns_ret |].
  apply returns_try_catch, returns_ret.
Qed.

Lemma returns_unit_run (m : M unit) (w : World) :
  returns m -> exists w', m w = (Ret tt, w').
Proof.
  intros Hret. destruct (Hret w) as [[] Hm]. unfold result in Hm.
  destruct (m w) as [[[]|] w']; simpl in Hm; [now exists w' | discriminate].
Qed.

Lemma updateCSVRow_run (email : string) (csvData : row)
    (oldImagePath : option string) (users : list row) (i : nat) (w w' : World) :
  never_full E ->
  readCSV E w = (Ret users, w') ->
  findIndex (email_matches email) users = Some i ->
  exists w'',
    updateCSVRow E email csvData oldImagePath w = (Ret true, w'')
    /\ stored_rows (ls w'') = <[i := overwrite_row csvData]> users.
Proof.
  intros Hfits Hread Hi.
  set (mark := if Js.truthy oldImagePath
                    && negb (Js.strict_eq oldImagePath (obj_get "profile_picture" csvData))
               then deleteOldImage E oldImagePath else ret tt).
  assert (Hmark : returns mark).
  { unfold mark. destruct (_ && _); [apply returns_deleteOldImage | apply returns_ret]. }
  destruct (returns_unit_run mark w' Hmark) as [w3 Hm].
  eexists. split.
  - unfold updateCSVRow. apply try_catch_ret_run.
    rewrite (bind_ret_run _ _ _ _ _ Hread). rewrite Hi. fold mark.
    rewrite (bind_ret_run _ _ _ _ _ Hm).
    rewrite (bind_ret_run _ _ _ _ _ (setItem_fits _ _ Hfits)).
    reflexivity.
  - reflexivity.
Qed.

(** The second half of the dual write, when the storage takes every write
    and the reach of the baseline does not change: two reads, then the row is
    put where the first match was, or appended when there was none. *)
Lemma sync_summary_rows (email : string) (csvData : row)
    (oldImagePath : option string) (jsonSaved : bool) (w : World) :
  never_full E -> steady E ->
  exists first second w1 w2 w',
    readCSV E w = (Ret first, w1)
    /\ readCSV E w1 = (Ret second, w2)
    /\ sync_summary E email csvData oldImagePath jsonSaved w = (Ret jsonSaved, w')
    /\ ((exists i, findIndex (email_matches email) second = Some i
                   /\ stored_rows (ls w') = <[i := overwrite_row csvData]> second)
        \/ (List.find (email_matches email) second = None
            /\ stored_rows (ls w') = (second ++ [csvData])%list)).
Proof.
  intros Hfits Hnet.
  destruct (readCSV_twice w Hfits Hnet) as (first & second & w1 & w2 & Hr1 & Hr2 & Hkeys).
  assert (Hlookup : findUserByEmail E email w
                    = (Ret (List.find (email_matches email) first), w1)).
  { unfold findUserByEmail. now rewrite (bind_ret_run _ _ _ _ _ Hr1). }
  exists first, second, w1, w2.
  unfold sync_summary. rewrite (bind_ret_run _ _ _ _ _ Hlookup).
  destruct (List.find (email_matches email) first) as [u|] eqn:Hfind.
  - assert (Hidx : exists i, findIndex (email_matches email) second = Some i).
    { rewrite <- (same_keys_findIndex email _ _ Hkeys).
      destruct (findIndex (email_matches email) first) as [i|] eqn:Hi; [now exists i |].
      apply find_findIndex in Hi. congruence. }
    destruct Hidx as [i Hi].
    destruct (updateCSVRow_run email csvData oldImagePath second i w1 w2 Hfits Hr2 Hi)
      as (w3 & Hupd & Hrows).
    exists w3. rewrite (bind_ret_run _ _ _ _ _ Hupd).
    split; [exact Hr1 |]. split; [exact Hr2 |]. split; [reflexivity |].
    left. exists i. now split.
  - eexists. rewrite (bind_ret_run _ _ _ _ _ Hr2).
    rewrite (bind_ret_run _ _ _ _ _ (setItem_fits _ _ Hfits)).
    split; [exact Hr1 |]. split; [exact Hr2 |]. split; [reflexivity |].
    right. split; [|reflexivity].
    apply find_findIndex. rewrite <- (same_keys_findIndex email _ _ Hkeys).
    now apply find_findIndex.
Qed.

(** The flag comes back and the row found by e-mail in the local layer is
    the new one. *)
Lemma sync_summary_run (email : string) (csvData : row)
    (oldImagePath : option string) (jsonSaved : bool) (w : World) :
  never_full E -> steady E ->
  email_matches email csvData = true ->
  overwrite_row csvData = csvData ->
  exists w',
    sync_summary E email csvData oldImagePath jsonSaved w = (Ret jsonSaved, w')
    /\ List.find (email_matches email) (stored_rows (ls w')) = Some csvData.
Proof.
  intros Hfits Hnet Hmatch Hrow.
  destruct (sync_summary_rows email csvData oldImagePath jsonSaved w Hfits Hnet)
    as (first & second & w1 & w2 & w' & _ & _ & Hrun & Hshape).
  exists w'. split; [exact Hrun |].
  destruct Hshape as [(i & Hi & ->)|[Hnone ->]].
  - rewrite Hrow. now apply find_insert_first.
  - now apply find_snoc_first.
Qed.

Lemma summary_of_matches (p : UserData) :
  email_matches (key_email p) (summary_of p) = true.
Proof.
  unfold email_matches, summary_of, csvData_of. simpl.
  apply String.eqb_refl.
Qed.

Lemma summary_of_overwrite (p : UserData) :
  overwrite_row (summary_of p) = summary_of p.
Proof. reflexivity. Qed.

(** One call of the engine with a valid payload, when the storage takes every
    write and the reach of the baseline does not change. *)
Lemma saveUserDataDual_post (p : UserData) (oldName oldImagePath : option string)
    (w : World) :
  never_full E -> steady E -> valid p = true ->
  let w' := after (saveUserDataDual E p oldName oldImagePath) w in
  result (saveUserDataDual E p oldName oldImagePath) w = Ret true
  /\ user_json (ls w') = moved_json oldName (key_name p) (detail_of p) (user_json (ls w))
  /\ List.find (email_matches (key_email p)) (stored_rows (ls w')) = Some (summary_of p).
Proof.
  intros Hfits Hnet Hvalid w'.
  destruct (dual_run E p oldName oldImagePath w Hvalid) as (b & Hb & Hafter & Hres).
  simpl in Hafter, Hres.
  rewrite (saveUserJson_fits E _ _ _ w Hfits) in Hb. injection Hb as <-.
  set (w1 := after (saveUserJson E (key_name p) (detail_of p) oldName) w) in *.
  destruct (sync_summary_run (key_email p) (summary_of p) oldImagePath true w1
              Hfits Hnet (summary_of_matches p) (summary_of_overwrite p))
    as (wf & Hrun & Hrow).
  assert (Hr : result (sync_summary E (key_email p) (summary_of p) oldImagePath true) w1
               = Ret true) by (unfold result; now rewrite Hrun).
  assert (Ha : after (sync_summary E (key_email p) (summary_of p) oldImagePath true) w1
               = wf) by (unfold after; now rewrite Hrun).
  rewrite Hr in Hres. split; [exact Hres |].
  unfold w'. rewrite Hafter, Ha. split; [|exact Hrow].
  rewrite <- Ha, sync_summary_user_json. unfold w1.
  now destruct (saveUserJson_true E (key_name p) (detail_of p) oldName w
                 (saveUserJson_fits E (key_name p) (detail_of p) oldName w Hfits))
    as [Hj _].
Qed.

End Reads.

Lemma deleted_images_duplicate_free_witness :
  let E := browser "" (always false) roomy in
  let old := "Faces/01_female_2001.jpg.jpg" in
  let cs := [ mkCall ada None None;
              mkCall (with_profile_picture "Faces/07_female_2001.jpg.jpg" ada) None (Some old);
              mkCall (with_profile_picture "Faces/12_female_1989.jpg.jpg" ada) None (Some old) ] in
  marked (ls (syncAll E cs fresh)) = [old]
  /\ NoDup (marked (ls (syncAll E cs fresh)))
  /\ deleteOldImage E (Some old) (syncAll E cs fresh) = (Ret tt, syncAll E cs fresh).
Proof.
  intros E old cs.
  assert (Hstart : NoDup (marked (ls fresh))) by apply NoDup_nil_2.
  destruct (deleted_images_duplicate_free E cs fresh Hstart) as [Hnd Hagain].
  split; [reflexivity |]. split; [exact Hnd |].
  apply Hagain. vm_compute. apply list_elem_of_here.
Defined.

(** ** The read operation against its contract *)

(** C1, evaluated where it fails: the baseline holds one row in the current
    column format; Bob signs up, the engine reports success and his row is in
    the local layer; the next read returns the baseline row alone and
    overwrites the local layer with it, so that Bob's row is lost. The merge
    compares the legacy [email] property only, which neither row has. *)
Theorem readCSV_loses_local_row :
  let E := browser baseline_new (always true) roomy in
  let w := syncUser E (mkCall bob None None) fresh in
  result (saveUserDataDual E bob None None) fresh = Ret true
  /\ In (summary_of bob) (stored_rows (ls w))
  /\ result (readCSV E) w
     = Ret [[("full_name", "Ada Lovelace"); ("email_address", "ada@x.test");
             ("password", "secret1"); ("avatar", "06_male_1999.jpg.jpg")]]
  /\ stored_rows (ls (after (readCSV E) w))
     = [[("full_name", "Ada Lovelace"); ("email_address", "ada@x.test");
         ("password", "secret1"); ("avatar", "06_male_1999.jpg.jpg")]]
  /\ result (findUserByEmail E "bob@x.test") w = Ret None.
Proof.
  vm_compute. split; [reflexivity |]. split; [right; left; reflexivity |].
  repeat split.
Qed.

(** ** Rename *)

Lemma summary_of_fields (p : UserData) :
  obj_get "full_name" (summary_of p) = Some (key_name p)
  /\ obj_get "email_address" (summary_of p) = Some (key_email p).
Proof. split; reflexivity. Qed.

Lemma with_full_name_keys (n : string) (p : UserData) :
  n <> "" ->
  key_name (with_full_name n p) = n /\ key_email (with_full_name n p) = key_email p.
Proof.
  intros Hn. unfold key_name, key_email, fullName_of, email_of, Js.or_else. simpl.
  destruct (String.eqb n "") eqn:He; [apply String.eqb_eq in He; contradiction |].
  now split.
Qed.

Lemma summary_of_renamed (n : string) (p : UserData) (k : string) :
  n <> "" -> k <> "full_name" ->
  obj_get k (summary_of p) = obj_get k (summary_of (with_full_name n p)).
Proof.
  intros Hn Hk. unfold summary_of.
  destruct (with_full_name_keys n p Hn) as [-> ->].
  unfold csvData_of.
  change (obj_get k (?a :: ?l)) with
    (if String.eqb (fst a) k then Some (snd a) else obj_get k l).
  cbn [fst snd].
  destruct (String.eqb "full_name" k) eqn:He; [|reflexivity].
  apply String.eqb_eq in He. congruence.
Qed.

Lemma detail_of_complete (p : UserData) : complete p = true -> detail_of p = p.
Proof.
  destruct p as [fn ea pw g c y ed i ci sk cs pp b rs rsel rr n e].
  unfold complete, detail_of, key_name, key_email, fullName_of, email_of,
    jsonData_of, Js.or_else. cbn [full_name email_address password gender country
    year education interests custom_interest skills custom_skill profile_picture
    bio recommendations_saved recommendations_selected recommendations_rejected
    name email].
  intros H. repeat (apply andb_true_iff in H as [H ?]).
  repeat match goal with
         | Hp : present ?v = true |- _ => destruct v; [clear Hp | discriminate Hp]
         | Hp : negb (present ?v) = true |- _ => destruct v; [discriminate Hp | clear Hp]
         end.
  rewrite H.
  match goal with Hea : Js.truthy ea = true |- _ => rewrite Hea end.
  destruct fn; [|discriminate]. destruct ea; [|discriminate].
  cbn [default selected_or_empty].
  destruct rsel as [[sel|sel]|]; try discriminate; [|reflexivity].
  cbn [selected_or_empty].
  destruct (String.eqb sel ""); [discriminate | reflexivity].
Qed.

(** ** Full overwrite *)

(** C6, as amended: when the storage takes every write and the baseline is
    within reach at every read or at none, two calls in succession with the
    same valid payload, no previous name and no previous resource path both
    report success and leave, after the second as after the first, the same
    detail documents (the payload's record under its name among them) and the
    same summary row found by the payload's e-mail address. *)
Theorem sync_twice_identical (E : Env) (p : UserData) (w : World)
    (Hvalid : valid p = true)
    (Hfits : never_full E)
    (Hnet : steady E) :
  let once := syncUser E (mkCall p None None) w in
  let twice := syncUser E (mkCall p None None) once in
  result (saveUserDataDual E p None None) w = Ret true
  /\ result (saveUserDataDual E p None None) once = Ret true
  /\ user_json (ls twice) = user_json (ls once)
  /\ load (key_name p) (ls once) = Some (detail_of p)
  /\ load (key_name p) (ls twice) = load (key_name p) (ls once)
  /\ List.find (email_matches (key_email p)) (stored_rows (ls once)) = Some (summary_of p)
  /\ List.find (email_matches (key_email p)) (stored_rows (ls twice))
     = List.find (email_matches (key_email p)) (stored_rows (ls once)).
Proof.
  intros once twice.
  destruct (saveUserDataDual_post E p None None w Hfits Hnet Hvalid)
    as (Hres1 & Hjson1 & Hrow1).
  destruct (saveUserDataDual_post E p None None once Hfits Hnet Hvalid)
    as (Hres2 & Hjson2 & Hrow2).
  change (after (saveUserDataDual E p None None) w) with once in Hjson1, Hrow1.
  change (after (saveUserDataDual E p None None) once) with twice in Hjson2, Hrow2.
  simpl in Hjson1, Hjson2.
  assert (Hsame : user_json (ls twice) = user_json (ls once)).
  { rewrite Hjson2, Hjson1. unfold moved_json. simpl. apply insert_insert_eq. }
  split; [exact Hres1 |]. split; [exact Hres2 |]. split; [exact Hsame |].
  split; [unfold load; rewrite Hjson1; apply load_moved_new |].
  split; [unfold load; now rewrite Hsame |].
  split; [exact Hrow1 | now rewrite Hrow2, Hrow1].
Qed.

(** C6, as stated, fails: the baseline is out of reach at the first read and
    within reach afterwards; the first call finds no row for Ada in the local
    layer and appends hers behind the baseline row that the next read brings
    in, the second call overwrites. The row found by Ada's address is the
    baseline row after the first call and the payload's row after the
    second. *)
Lemma sync_twice_differs :
  let E := browser baseline_new (reach_from 1) roomy in
  let once := syncUser E (mkCall ada None None) fresh in
  let twice := syncUser E (mkCall ada None None) once in
  result (saveUserDataDual E ada None None) fresh = Ret true
  /\ result (saveUserDataDual E ada None None) once = Ret true
  /\ List.find (email_matches "ada@x.test") (stored_rows (ls once))
     = Some [("full_name", "Ada Lovelace"); ("email_address", "ada@x.test");
             ("password", "secret1"); ("avatar", "03_male_1997.jpg.jpeg")]
  /\ List.find (email_matches "ada@x.test") (stored_rows (ls twice))
     = Some (summary_of ada)
  /\ List.find (email_matches "ada@x.test") (stored_rows (ls twice))
     <> List.find (email_matches "ada@x.test") (stored_rows (ls once)).
Proof. vm_compute. repeat split. discriminate. Qed.

Lemma sync_twice_identical_witness :
  let E := browser baseline_new (always true) roomy in
  let once := syncUser E (mkCall ada None None) fresh in
  let twice := syncUser E (mkCall ada None None) once in
  load "Ada Lovelace" (ls twice) = Some (detail_of ada)
  /\ List.find (email_matches "ada@x.test") (stored_rows (ls twice)) = Some (summary_of ada).
Proof.
  intros E once twice.
  assert (Hfits : never_full E) by (intros s; reflexivity).
  assert (Hnet : steady E) by (intros n m; reflexivity).
  destruct (sync_twice_identical E ada fresh eq_refl Hfits Hnet)
    as (_ & _ & _ & Hload1 & Hload2 & Hrow1 & Hrow2).
  split.
  - etransitivity; [exact Hload2 | exact Hload1].
  - etransitivity; [exact Hrow2 | exact Hrow1].
Defined.

(** ** Uniqueness of e-mail addresses *)

Lemma email_matches_lower (e e' : string) (r : row) :
  Js.toLowerCase e = Js.toLowerCase e' -> email_matches e r = email_matches e' r.
Proof. intros H. unfold email_matches, same_lower. now rewrite H. Qed.

Lemma email_matches_address (r : row) (a : string) :
  obj_get "email_address" r = Some a -> email_matches a r = true.
Proof.
  intros H. unfold email_matches. rewrite H. simpl.
  rewrite String.eqb_refl. apply orb_true_r.
Qed.

Lemma clash_free_unique (rows : list row) :
  clash_free rows -> unique_addresses rows.
Proof.
  intros Hfree i j r r' a a' Hi Hj Ha Ha' Hlow.
  apply (Hfree i j r r' a Hi Hj); [now apply email_matches_address |].
  rewrite (email_matches_lower a a' r' Hlow). now apply email_matches_address.
Qed.

Lemma unique_clash_free (rows : list row) :
  current_format rows -> unique_addresses rows -> clash_free rows.
Proof.
  intros Hfmt Huniq i j r r' e Hi Hj Hr Hr'.
  pose proof (proj1 (Forall_lookup _ _) Hfmt i r Hi) as Hnone. simpl in Hnone.
  pose proof (proj1 (Forall_lookup _ _) Hfmt j r' Hj) as Hnone'. simpl in Hnone'.
  unfold email_matches in Hr, Hr'. rewrite Hnone in Hr. rewrite Hnone' in Hr'.
  simpl in Hr, Hr'.
  destruct (obj_get "email_address" r) as [a|] eqn:Ha; [|discriminate].
  destruct (obj_get "email_address" r') as [a'|] eqn:Ha'; [|discriminate].
  simpl in Hr, Hr'. apply String.eqb_eq in Hr, Hr'.
  apply (Huniq i j r r' a a' Hi Hj Ha Ha'). congruence.
Qed.

Lemma seen_in_snoc_self (seen : list (option string)) (x : option string) :
  seen_in (seen ++ [x]) x = true.
Proof.
  rewrite seen_in_app. unfold seen_in at 2. simpl.
  rewrite strict_eq_refl. simpl. apply orb_true_r.
Qed.

(** Of cached rows in the current format the merge appends the first at
    most, and none once a merged row has no [email] property. *)
Lemma merge_added_current_format (seen : list (option string)) (cached : list row) :
  current_format cached ->
  merge_added seen cached = if seen_in seen None then [] else take 1 cached.
Proof.
  intros Hfmt. revert seen. induction Hfmt as [|c rest Hc _ IH]; intros seen; simpl.
  - now destruct (seen_in seen None).
  - unfold legacy_email. rewrite Hc.
    destruct (seen_in seen None) eqn:Hseen.
    + rewrite IH. now rewrite Hseen.
    + rewrite IH. rewrite seen_in_snoc_self. now rewrite take_0.
Qed.

(** Next to a baseline that starts with a row in the current format, no
    cached row in the current format survives the merge. *)
Lemma merge_users_drops_current_rows (first : row) (users cachedUsers : list row) :
  obj_get "email" first = None ->
  current_format cachedUsers ->
  merge_users (first :: users) cachedUsers = first :: users.
Proof.
  intros Hfirst Hcached. rewrite merge_users_added.
  rewrite (merge_added_current_format _ _ Hcached).
  unfold seen_in, legacy_email. simpl. rewrite Hfirst. simpl.
  now rewrite app_nil_r.
Qed.

Lemma findIndex_lookup {A} (p : A -> bool) (l : list A) (i : nat) :
  findIndex p l = Some i -> exists x, l !! i = Some x /\ p x = true.
Proof.
  revert i. induction l as [|y rest IH]; intros i; simpl; [discriminate |].
  destruct (p y) eqn:Hy.
  - intros [= <-]. now exists y.
  - destruct (findIndex p rest) as [j|]; simpl; [|discriminate].
    intros [= <-]. simpl. now apply IH.
Qed.

Lemma find_none_lookup {A} (p : A -> bool) (l : list A) (i : nat) (x : A) :
  List.find p l = None -> l !! i = Some x -> p x = false.
Proof.
  revert i. induction l as [|y rest IH]; intros i; simpl; [discriminate |].
  destruct (p y) eqn:Hy; [discriminate |].
  intros Hnone. destruct i as [|i]; simpl.
  - now intros [= <-].
  - now apply IH.
Qed.

Lemma summary_of_only_key (p : UserData) (e : string) :
  email_matches e (summary_of p) = true ->
  Js.toLowerCase e = Js.toLowerCase (key_email p).
Proof.
  unfold email_matches, summary_of, csvData_of. simpl.
  intros H. apply String.eqb_eq in H. now symmetry.
Qed.

Lemma saveUserJson_csv_users (E : Env) name d oldName w :
  csv_users (ls (after (saveUserJson E name d oldName) w)) = csv_users (ls w).
Proof.
  pose proof (keeps_saveUserJson E (fun s s' => csv_users s' = csv_users s)) as H.
  apply H; try reflexivity.
  intros s1 s2 s3 H12 H23. now rewrite H23.
Qed.

Lemma two_rows_one_address (rows : list row) (a a' : string) :
  map (obj_get "email_address") rows = [Some a; Some a'] ->
  Js.toLowerCase a = Js.toLowerCase a' ->
  ~ unique_addresses rows.
Proof.
  destruct rows as [|r [|r' [|r'' rest]]]; simpl; try discriminate.
  intros [= Ha Ha'] Hlow Hunique.
  specialize (Hunique 0 1 r r' a a' eq_refl eq_refl Ha Ha' Hlow). discriminate.
Qed.


(** * Further properties *)

(** ** Storage keys *)

Lemma key_char_in_alphabet (c : ascii) : key_alphabet (key_char c) = true.
Proof. all_chars c. Qed.

Lemma key_char_fixed (c : ascii) : key_alphabet c = true -> key_char c = c.
Proof. all_chars c. Qed.

Lemma map_chars_all_in (p : ascii -> bool) (f : ascii -> ascii) (s : string) :
  (forall c, p (f c) = true) -> all_chars_in p (Js.map_chars f s) = true.
Proof. intros H. induction s as [|c r IH]; simpl; [reflexivity | now rewrite H, IH]. Qed.

Lemma map_chars_fixed (p : ascii -> bool) (f : ascii -> ascii) (s : string) :
  (forall c, p c = true -> f c = c) -> all_chars_in p s = true -> Js.map_chars f s = s.
Proof.
  intros H. induction s as [|c r IH]; simpl; [reflexivity |].
  intros Hall. apply andb_true_iff in Hall as [Hc Hr]. now rewrite (H c Hc), IH.
Qed.

(** X1: a storage key is made of lower-case letters, digits and underscores
    only, and deriving the key of a key changes nothing. *)
Theorem getFileName_safe (name : string) :
  all_chars_in key_alphabet (getFileName name) = true
  /\ getFileName (getFileName name) = getFileName name.
Proof.
  assert (Hsafe : all_chars_in key_alphabet (getFileName name) = true).
  { rewrite getFileName_by_char. apply map_chars_all_in, key_char_in_alphabet. }
  split; [exact Hsafe |].
  rewrite (getFileName_by_char (getFileName name)).
  apply (map_chars_fixed key_alphabet); [apply key_char_fixed | exact Hsafe].
Qed.

(** ** Avatars *)

Lemma catalog_files_known :
  Forall (fun avatar => fst avatar <> "" /\ catalog_gender (fst avatar) = Some (snd avatar))
    avatarCatalog.
Proof. repeat constructor; discriminate. Qed.

Lemma pool_of_catalog (wanted : string) :
  let specific := List.filter (fun avatar => String.eqb (snd avatar) wanted) avatarCatalog in
  let pool := match specific with [] => avatarCatalog | _ => specific end in
  pool <> []
  /\ (forall avatar, In avatar pool -> In avatar avatarCatalog)
  /\ (specific <> [] -> forall avatar, In avatar pool -> snd avatar = wanted).
Proof.
  intros specific pool.
  assert (Hspecific : forall avatar, In avatar specific ->
                        In avatar avatarCatalog /\ snd avatar = wanted).
  { intros avatar Hin. apply filter_In in Hin as [Hin Heq].
    split; [exact Hin | now apply String.eqb_eq]. }
  subst pool. destruct specific as [|a rest] eqn:Hs.
  - split; [discriminate |]. split; [auto | congruence].
  - split; [discriminate |]. split; intros; now apply Hspecific.
Qed.

(** One draw from the catalog. *)
Lemma getRandomAvatarFile_draw (E : Env) (gender : option string) (w : World) :
  exists file,
    getRandomAvatarFile E gender w = (Ret file, {| ls := ls w; tick := S (tick w) |})
    /\ file <> ""
    /\ is_Some (catalog_gender file)
    /\ (forall g, g = "male" \/ g = "female" ->
        Js.toLowerCase (default "other" gender) = g ->
        catalog_gender file = Some g).
Proof.
  unfold getRandomAvatarFile.
  set (wanted := Js.toLowerCase (default "other" gender)).
  destruct (pool_of_catalog wanted) as (Hne & Hsub & Hgender).
  set (specific := List.filter (fun avatar => String.eqb (snd avatar) wanted) avatarCatalog)
    in *.
  set (pool := match specific with [] => avatarCatalog | _ => specific end) in *.
  set (i := random E (tick w) mod length pool).
  assert (Hin : In (nth i pool ("", "")) pool).
  { apply nth_In. apply Nat.mod_upper_bound. now destruct pool. }
  pose proof (proj1 (List.Forall_forall _ _) catalog_files_known _ (Hsub _ Hin))
    as [Hfile Hknown].
  exists (fst (nth i pool ("", ""))). split; [reflexivity |].
  split; [exact Hfile |]. split; [rewrite Hknown; eauto |].
  intros g Hg Hwanted. rewrite Hknown. f_equal. rewrite <- Hwanted.
  apply Hgender; [|exact Hin].
  unfold specific. rewrite Hwanted. destruct Hg as [-> | ->]; discriminate.
Qed.

(** X2: [getRandomAvatarFile] makes one draw, leaves the storage alone and
    answers the file of a catalog entry; for the genders male and female, in
    any letter case, the entry is of that gender. *)
Theorem getRandomAvatarFile_from_catalog (E : Env) (gender : option string) (w : World) :
  exists file,
    getRandomAvatarFile E gender w = (Ret file, {| ls := ls w; tick := S (tick w) |})
    /\ file <> ""
    /\ is_Some (catalog_gender file)
    /\ (forall g, g = "male" \/ g = "female" ->
        Js.toLowerCase (default "other" gender) = g ->
        catalog_gender file = Some g).
Proof. exact (getRandomAvatarFile_draw E gender w). Qed.

Lemma obj_set_same (k v : string) (o : row) :
  obj_get k o = Some v -> obj_set k v o = o.
Proof.
  induction o as [|[k0 v0] rest IH]; simpl; [discriminate |].
  destruct (String.eqb k0 k) eqn:Hk.
  - intros [= ->]. apply String.eqb_eq in Hk. now subst.
  - intros H. now rewrite IH.
Qed.

Lemma withAvatarMetadata_run (url_of : string -> string) (E : Env) (u : row) (w : World) :
  exists file w',
    withAvatarMetadata url_of E (Some u) w
    = (Ret (Some (obj_set "avatarUrl" (getAvatarUrl url_of (Some file))
                    (obj_set "avatar" file u))), w')
    /\ file <> ""
    /\ (Js.truthy (obj_get "avatar" u) = true -> obj_get "avatar" u = Some file /\ w' = w).
Proof.
  unfold withAvatarMetadata. destruct (Js.truthy (obj_get "avatar" u)) eqn:Hav.
  - apply truthy_Some in Hav as (file & Hfile & Hne).
    exists file, w. rewrite Hfile. simpl. now repeat split.
  - destruct (getRandomAvatarFile_draw E (obj_get "gender" u) w)
      as (file & Hrun & Hne & _).
    eexists file, _. split; [now rewrite (bind_ret_run _ _ _ _ _ Hrun) |].
    split; [exact Hne | discriminate].
Qed.

(** X3: [withAvatarMetadata] gives every user object a non-empty [avatar]
    and the matching [avatarUrl], keeps an avatar that is already there and
    every other property; applied to its own result it changes nothing and
    makes no draw. *)
Theorem withAvatarMetadata_idempotent (url_of : string -> string) (E : Env)
    (u : row) (w : World) :
  exists u' w',
    withAvatarMetadata url_of E (Some u) w = (Ret (Some u'), w')
    /\ Js.truthy (obj_get "avatar" u') = true
    /\ obj_get "avatarUrl" u' = Some (getAvatarUrl url_of (obj_get "avatar" u'))
    /\ (Js.truthy (obj_get "avatar" u) = true -> obj_get "avatar" u' = obj_get "avatar" u)
    /\ (forall k, k <> "avatar" -> k <> "avatarUrl" -> obj_get k u' = obj_get k u)
    /\ forall w2, withAvatarMetadata url_of E (Some u') w2 = (Ret (Some u'), w2).
Proof.
  destruct (withAvatarMetadata_run url_of E u w) as (file & w' & Hrun & Hne & Hkeep).
  set (u' := obj_set "avatarUrl" (getAvatarUrl url_of (Some file))
               (obj_set "avatar" file u)) in *.
  assert (Havatar : obj_get "avatar" u' = Some file).
  { unfold u'. rewrite obj_get_set_other by discriminate. apply obj_get_set_same. }
  assert (Hurl : obj_get "avatarUrl" u' = Some (getAvatarUrl url_of (Some file)))
    by apply obj_get_set_same.
  exists u', w'. split; [exact Hrun |].
  split; [rewrite Havatar; now apply truthy_nonempty |].
  split; [now rewrite Havatar |].
  split; [intros Hav; destruct (Hkeep Hav) as [-> _]; exact Havatar |].
  split.
  - intros k Hk1 Hk2. unfold u'. now rewrite !obj_get_set_other by congruence.
  - intros w2. unfold withAvatarMetadata.
    rewrite Havatar, (truthy_nonempty file Hne). simpl.
    unfold bind, ret. simpl.
    now rewrite (obj_set_same "avatar" file u' Havatar), (obj_set_same _ _ u' Hurl).
Qed.

(** ** Reading the table, in any environment *)

Lemma readCSV_run (E : Env) (w : World) :
  exists rows w',
    readCSV E w = (Ret rows, w')
    /\ rows = stored_rows (ls w')
    /\ user_json (ls w') = user_json (ls w)
    /\ user_files (ls w') = user_files (ls w)
    /\ deleted_images (ls w') = deleted_images (ls w)
    /\ (online E (tick w) = false -> ls w' = ls w).
Proof.
  destruct (online E (tick w)) eqn:Hon.
  - unfold readCSV, try_catch, bind at 1, fetch_csv. rewrite Hon.
    unfold bind at 1, cached_users at 1, bind at 1, getItem, ret. simpl.
    set (w0 := {| ls := ls w; tick := S (tick w) |}).
    destruct (mapM_normalize_run E
                (merge_users (parseCSV (d_csv E)) (default [] (csv_users (ls w)))) w0)
      as (merged & w1 & Hrun & _ & Hls).
    unfold bind at 1. rewrite Hrun. unfold bind, setItem.
    destruct (quota E (with_csv_users merged (ls w1))) eqn:Hq; simpl.
    + eexists _, _. split; [reflexivity |]. rewrite Hls. simpl.
      repeat split; discriminate.
    + unfold cached_users, bind, getItem, ret. simpl.
      eexists _, _. split; [reflexivity |]. rewrite Hls. simpl.
      repeat split; discriminate.
  - rewrite (readCSV_offline E w Hon). eexists _, _. split; [reflexivity |].
    simpl. now repeat split.
Qed.

(** X4: whatever the environment, [readCSV] returns, and what it returns is
    what the local layer holds when it returns; it never touches the detail
    documents, the file index or the deletion list; and when the baseline is
    out of reach it returns the cached rows and leaves the whole storage as
    it was. *)
Theorem readCSV_returns_stored (E : Env) (w : World) :
  exists rows,
    result (readCSV E) w = Ret rows
    /\ rows = stored_rows (ls (after (readCSV E) w))
    /\ user_json (ls (after (readCSV E) w)) = user_json (ls w)
    /\ user_files (ls (after (readCSV E) w)) = user_files (ls w)
    /\ deleted_images (ls (after (readCSV E) w)) = deleted_images (ls w)
    /\ (online E (tick w) = false ->
        rows = stored_rows (ls w) /\ ls (after (readCSV E) w) = ls w).
Proof.
  destruct (readCSV_run E w) as (rows & w' & Hrun & Hrows & Hjson & Hfiles & Hmarked & Hoff).
  exists rows. unfold result, after. rewrite Hrun. simpl.
  split; [reflexivity |]. split; [exact Hrows |]. split; [exact Hjson |].
  split; [exact Hfiles |]. split; [exact Hmarked |].
  intros Hon. specialize (Hoff Hon). split; [now rewrite Hrows, Hoff | exact Hoff].
Qed.

(** ** The shape of the merge *)

Lemma strict_eq_true (a b : option string) : Js.strict_eq a b = true <-> a = b.
Proof.
  destruct a as [x|], b as [y|]; simpl; try (split; [discriminate | congruence]).
  - rewrite String.eqb_eq. split; congruence.
  - tauto.
Qed.

Lemma seen_in_In (seen : list (option string)) (x : option string) :
  seen_in seen x = true <-> In x seen.
Proof.
  unfold seen_in. rewrite existsb_exists. split.
  - intros (e & Hin & Heq). apply strict_eq_true in Heq. now subst.
  - intros Hin. exists x. split; [exact Hin | apply strict_eq_refl].
Qed.

Lemma seen_in_not_In (seen : list (option string)) (x : option string) :
  seen_in seen x = false <-> ~ In x seen.
Proof.
  rewrite <- seen_in_In. destruct (seen_in seen x); split; congruence.
Qed.

Lemma merge_added_sublist (seen : list (option string)) (cached : list row) :
  merge_added seen cached `sublist_of` cached.
Proof.
  revert seen. induction cached as [|c rest IH]; intros seen; simpl; [constructor |].
  destruct (seen_in seen (legacy_email c)); [apply sublist_cons | apply sublist_skip];
    apply IH.
Qed.

Lemma merge_added_unseen (seen : list (option string)) (cached : list row) (c : row) :
  In c (merge_added seen cached) -> ~ In (legacy_email c) seen.
Proof.
  revert seen. induction cached as [|c0 rest IH]; intros seen; simpl; [tauto |].
  destruct (seen_in seen (legacy_email c0)) eqn:Hseen; [apply IH |].
  intros [<- | Hin]; [now apply seen_in_not_In |].
  intros Hc. apply (IH _ Hin). apply in_or_app. now left.
Qed.

Lemma merge_added_NoDup (seen : list (option string)) (cached : list row) :
  NoDup (map legacy_email (merge_added seen cached)).
Proof.
  revert seen. induction cached as [|c0 rest IH]; intros seen; simpl; [constructor |].
  destruct (seen_in seen (legacy_email c0)) eqn:Hseen; [apply IH |].
  simpl. constructor; [|apply IH].
  intros Hin. apply list_elem_of_In, in_map_iff in Hin as (c & Heq & Hc).
  apply merge_added_unseen in Hc. apply Hc. rewrite Heq.
  apply in_or_app. right. now left.
Qed.

Lemma merge_added_covers (seen : list (option string)) (cached : list row) (c : row) :
  In c cached ->
  In (legacy_email c) seen
  \/ In (legacy_email c) (map legacy_email (merge_added seen cached)).
Proof.
  revert seen. induction cached as [|c0 rest IH]; intros seen; simpl; [tauto |].
  intros [-> | Hin].
  - destruct (seen_in seen (legacy_email c)) eqn:Hseen.
    + left. now apply seen_in_In.
    + right. now left.
  - destruct (seen_in seen (legacy_email c0)) eqn:Hseen; [now apply IH |].
    destruct (IH (seen ++ [legacy_email c0])%list Hin) as [Hs | Hm].
    + apply in_app_or in Hs as [Hs | [<- | []]]; [now left | right; now left].
    + right. now right.
Qed.

(** X5: the merge of [readCSV] keeps the baseline rows first and in order,
    then appends cached rows in their order; the appended rows have pairwise
    different legacy [email] properties, none of them that of a baseline row,
    and every cached row has a row with its legacy [email] property in the
    merged list. *)
Theorem merge_users_baseline_first (users cachedUsers : list row) :
  exists added,
    merge_users users cachedUsers = (users ++ added)%list
    /\ added `sublist_of` cachedUsers
    /\ NoDup (map legacy_email added)
    /\ (forall c, In c added -> ~ In (legacy_email c) (map legacy_email users))
    /\ (forall c, In c cachedUsers ->
        exists c', In c' (merge_users users cachedUsers)
                   /\ legacy_email c' = legacy_email c).
Proof.
  exists (merge_added (map legacy_email users) cachedUsers).
  split; [apply merge_users_added |].
  split; [apply merge_added_sublist |].
  split; [apply merge_added_NoDup |].
  split; [intros c; apply merge_added_unseen |].
  intros c Hc. rewrite merge_users_added.
  destruct (merge_added_covers (map legacy_email users) cachedUsers c Hc) as [Hin | Hin];
    apply in_map_iff in Hin as (c' & Heq & Hc'); exists c';
    (split; [apply in_or_app; auto | exact Heq]).
Qed.

(** ** Looking up twice *)

Lemma same_keys_find (email : string) (l l' : list row) :
  Forall2 same_keys l l' ->
  match List.find (email_matches email) l, List.find (email_matches email) l' with
  | Some u, Some u' => same_keys u u'
  | None, None => True
  | _, _ => False
  end.
Proof.
  induction 1 as [|x y l l' Hxy _ IH]; simpl; [exact I |].
  rewrite <- (same_keys_email_matches email x y Hxy).
  now destruct (email_matches email x).
Qed.

(** Two look-ups in a row. *)
Lemma findUserByEmail_twice (E : Env) (email : string) (w : World)
    (Hfits : never_full E)
    (Hnet : steady E) :
  exists a b,
    result (findUserByEmail E email) w = Ret a
    /\ result (findUserByEmail E email) (after (findUserByEmail E email) w) = Ret b
    /\ match a, b with
       | Some u, Some u' => same_keys u u'
       | None, None => True
       | _, _ => False
       end.
Proof.
  destruct (readCSV_twice E w Hfits Hnet) as (first & second & w1 & w2 & H1 & H2 & Hkeys).
  exists (List.find (email_matches email) first), (List.find (email_matches email) second).
  unfold result, after, findUserByEmail.
  rewrite (bind_ret_run _ _ _ _ _ H1). simpl.
  rewrite (bind_ret_run _ _ _ _ _ H2). simpl.
  split; [reflexivity |]. split; [reflexivity |]. now apply same_keys_find.
Qed.

(** X6: when the storage takes every write and the baseline is within reach
    at every read or at none, two look-ups by the same e-mail address in a
    row give the same answer: both find nothing, or both find rows with the
    same [email] and [email_address]. *)
Theorem findUserByEmail_repeatable (E : Env) (email : string) (w : World)
    (Hfits : never_full E)
    (Hnet : steady E) :
  exists a b,
    result (findUserByEmail E email) w = Ret a
    /\ result (findUserByEmail E email) (after (findUserByEmail E email) w) = Ret b
    /\ match a, b with
       | Some u, Some u' => same_keys u u'
       | None, None => True
       | _, _ => False
       end.
Proof. exact (findUserByEmail_twice E email w Hfits Hnet). Qed.

Lemma findUserByEmail_repeatable_witness :
  let E := browser baseline_legacy (always true) roomy in
  exists u u',
    result (findUserByEmail E "ADA@x.test") fresh = Ret (Some u)
    /\ result (findUserByEmail E "ADA@x.test") (after (findUserByEmail E "ADA@x.test") fresh)
       = Ret (Some u')
    /\ obj_get "email" u = obj_get "email" u'.
Proof.
  intros E.
  assert (Hfits : never_full E) by (intros s; reflexivity).
  assert (Hnet : steady E) by (intros n m; reflexivity).
  destruct (findUserByEmail_repeatable E "ADA@x.test" fresh Hfits Hnet)
    as (a & b & Ha & Hb & Hab).
  assert (Hfound : exists u, a = Some u).
  { vm_compute in Ha. injection Ha as <-. eauto. }
  destruct Hfound as [u ->]. destruct b as [u'|]; [|contradiction].
  exists u, u'. split; [exact Ha |]. split; [exact Hb | exact (proj1 Hab)].
Defined.

(** ** Adding a user and logging in *)

Lemma merge_users_snoc (users cachedUsers : list row) (r : row) :
  merge_users users (cachedUsers ++ [r]) = merge_step (merge_users users cachedUsers) r.
Proof. unfold merge_users. now rewrite fold_left_app. Qed.

Lemma merge_step_new (allUsers : list row) (r : row) :
  (forall x, In x allUsers -> legacy_email x <> legacy_email r) ->
  merge_step allUsers r = (allUsers ++ [r])%list.
Proof.
  intros Hnew. rewrite merge_step_seen.
  destruct (seen_in (map legacy_email allUsers) (legacy_email r)) eqn:Hseen; [|reflexivity].
  apply seen_in_In, in_map_iff in Hseen as (x & Heq & Hx).
  now destruct (Hnew x Hx).
Qed.

Lemma mapM_normalize_snoc (E : Env) (rows : list row) (r : row) (w : World) :
  Js.truthy (obj_get "avatar" r) = true ->
  exists rows' w',
    mapM (normalize_user E) (rows ++ [r]) w = (Ret (rows' ++ [r])%list, w')
    /\ Forall2 same_keys rows rows' /\ ls w' = ls w.
Proof.
  intros Hav. revert w. induction rows as [|x rest IH]; intros w; simpl.
  - exists [], w. unfold bind, normalize_user. rewrite Hav. simpl.
    split; [reflexivity |]. split; [constructor | reflexivity].
  - destruct (normalize_user_run E x w) as (x' & w1 & Hx & Hkeys & Hls1).
    destruct (IH w1) as (rest' & w2 & Hrest & Hall & Hls2).
    exists (x' :: rest'), w2. split.
    + unfold bind at 1. rewrite Hx. unfold bind at 1. now rewrite Hrest.
    + split; [now constructor | congruence].
Qed.

Lemma readCSV_online_exact (E : Env) (w w1 : World) (merged : list row) :
  never_full E ->
  online E (tick w) = true ->
  mapM (normalize_user E) (merge_users (parseCSV (d_csv E)) (stored_rows (ls w)))
    {| ls := ls w; tick := S (tick w) |} = (Ret merged, w1) ->
  readCSV E w = (Ret merged, {| ls := with_csv_users merged (ls w1); tick := tick w1 |}).
Proof.
  intros Hfits Hon Hrun. unfold readCSV, try_catch, bind at 1, fetch_csv. rewrite Hon.
  unfold bind at 1, cached_users at 1, bind at 1, getItem, ret. simpl.
  unfold stored_rows in Hrun. unfold bind at 1. rewrite Hrun.
  unfold bind, setItem. now rewrite Hfits.
Qed.

Lemma find_none_same_keys (email : string) (l l' : list row) :
  Forall2 same_keys l l' ->
  List.find (email_matches email) l = None ->
  List.find (email_matches email) l' = None.
Proof.
  intros Hkeys Hnone. apply find_findIndex.
  rewrite <- (same_keys_findIndex email _ _ Hkeys). now apply find_findIndex.
Qed.

Lemma find_none_legacy_email (email : string) (rows : list row) (x : row) :
  List.find (email_matches email) rows = None ->
  In x rows -> legacy_email x <> Some email.
Proof.
  intros Hnone Hin Heq.
  assert (Hmatch : email_matches email x = true).
  { unfold email_matches. unfold legacy_email in Heq. rewrite Heq. simpl.
    now rewrite String.eqb_refl. }
  pose proof (find_none _ _ Hnone x Hin) as Hx. congruence.
Qed.

(** A row appended behind the rows a read returned is still the last row of
    the next read, and the first one its address finds. *)
Lemma read_after_append (E : Env) (w1 w2 w4 : World) (second : list row)
    (r : row) (email : string) :
  never_full E ->
  readCSV E w1 = (Ret second, w2) ->
  stored_rows (ls w4) = (second ++ [r])%list ->
  online E (tick w4) = online E (tick w1) ->
  Js.truthy (obj_get "avatar" r) = true ->
  obj_get "email" r = Some email ->
  List.find (email_matches email) second = None ->
  exists rows w5,
    readCSV E w4 = (Ret (rows ++ [r])%list, w5)
    /\ List.find (email_matches email) rows = None.
Proof.
  intros Hfits Hread Hstored Hsame Havatar Hemail Hnone.
  destruct (online E (tick w1)) eqn:Hon1.
  - destruct (readCSV_online E w1 Hfits Hon1) as (merged & w' & Hrun & Hkeys & _).
    rewrite Hread in Hrun. injection Hrun as <- _.
    pose proof (merge_users_again _ _ _ Hkeys) as Hagain.
    set (base := merge_users (parseCSV (d_csv E)) second) in *.
    assert (Hbase_none : List.find (email_matches email) base = None)
      by (eapply find_none_same_keys; eassumption).
    assert (Hmerge : merge_users (parseCSV (d_csv E)) (stored_rows (ls w4))
                     = (base ++ [r])%list).
    { rewrite Hstored, merge_users_snoc. apply merge_step_new.
      intros x Hx. unfold legacy_email at 2. rewrite Hemail.
      now apply (find_none_legacy_email email base). }
    destruct (mapM_normalize_snoc E base r {| ls := ls w4; tick := S (tick w4) |} Havatar)
      as (rows & w5 & Hnorm & Hrows & _).
    rewrite <- Hmerge in Hnorm.
    eexists rows, _. split.
    + apply readCSV_online_exact; [exact Hfits | exact Hsame | exact Hnorm].
    + eapply find_none_same_keys; eassumption.
  - exists second. eexists. rewrite readCSV_offline by exact Hsame.
    rewrite Hstored. split; [reflexivity | exact Hnone].
Qed.

Lemma new_user_row (u : UserObject.t) (file : string) :
  let r := literal [ ("name", UserObject.name u);
                     ("email", Some (UserObject.email u));
                     ("password", UserObject.password u);
                     ("gender", UserObject.gender u);
                     ("year", UserObject.year u);
                     ("country", UserObject.country u);
                     ("avatar", Some file) ] in
  obj_get "email" r = Some (UserObject.email u)
  /\ obj_get "password" r = UserObject.password u
  /\ obj_get "avatar" r = Some file.
Proof.
  destruct u as [n e p g y c a]. simpl.
  destruct n, p, g, y, c; repeat split.
Qed.

Lemma email_matches_legacy (email : string) (r : row) :
  obj_get "email" r = Some email -> email_matches email r = true.
Proof.
  intros H. unfold email_matches. rewrite H. simpl. now rewrite String.eqb_refl.
Qed.

(** The two ways [addUser] ends when every write fits. *)
Lemma addUser_cases (E : Env) (u : UserObject.t) (w : World)
    (Hfits : never_full E)
    (Hnet : steady E) :
  let email := UserObject.email u in
  (exists r,
     result (addUser E u) w = Ret (Some r)
     /\ result (findUserByEmail E email) w = Ret None
     /\ obj_get "email" r = Some email
     /\ obj_get "password" r = UserObject.password u
     /\ Js.truthy (obj_get "avatar" r) = true
     /\ result (findUserByEmail E email) (after (addUser E u) w) = Ret (Some r))
  \/ (exists found,
        result (addUser E u) w = Ret None
        /\ result (findUserByEmail E email) w = Ret (Some found)
        /\ after (addUser E u) w = after (findUserByEmail E email) w).
Proof.
  intros email.
  destruct (readCSV_twice E w Hfits Hnet) as (first & second & w1 & w2 & H1 & H2 & Hkeys).
  assert (Hlookup : findUserByEmail E email w
                    = (Ret (List.find (email_matches email) first), w1)).
  { unfold findUserByEmail. now rewrite (bind_ret_run _ _ _ _ _ H1). }
  destruct (List.find (email_matches email) first) as [found|] eqn:Hfind.
  - right. exists found. unfold result, after, addUser, try_catch.
    fold email. rewrite (bind_ret_run _ _ _ _ _ Hlookup), Hlookup. simpl. now repeat split.
  - left.
    set (pick := if Js.truthy (UserObject.avatar u)
                 then ret (default "" (UserObject.avatar u))
                 else getRandomAvatarFile E (UserObject.gender u)).
    assert (Hpick : exists file w3,
               pick w2 = (Ret file, w3) /\ file <> "" /\ ls w3 = ls w2).
    { unfold pick. destruct (Js.truthy (UserObject.avatar u)) eqn:Hav.
      - apply truthy_Some in Hav as (file & -> & Hne). now exists file, w2.
      - destruct (getRandomAvatarFile_draw E (UserObject.gender u) w2)
          as (file & Hrun & Hne & _).
        eexists file, _. split; [exact Hrun |]. now split. }
    destruct Hpick as (file & w3 & Hpick & Hne & Hls3).
    set (r := literal [ ("name", UserObject.name u);
                        ("email", Some (UserObject.email u));
                        ("password", UserObject.password u);
                        ("gender", UserObject.gender u);
                        ("year", UserObject.year u);
                        ("country", UserObject.country u);
                        ("avatar", Some file) ]).
    destruct (new_user_row u file) as (Hemail & Hpassword & Havatar). fold r in Hemail, Hpassword, Havatar.
    set (w4 := {| ls := with_csv_users (second ++ [r]) (ls w3); tick := tick w3 |}).
    assert (Hrun : addUser E u w = (Ret (Some r), w4)).
    { unfold addUser. apply try_catch_ret_run. fold email.
      rewrite (bind_ret_run _ _ _ _ _ Hlookup).
      rewrite (bind_ret_run _ _ _ _ _ H2). fold pick.
      rewrite (bind_ret_run _ _ _ _ _ Hpick). fold r.
      now rewrite (bind_ret_run _ _ _ _ _ (setItem_fits E _ _ Hfits)). }
    assert (Hnone2 : List.find (email_matches email) second = None)
      by (eapply find_none_same_keys; eassumption).
    assert (Htruthy : Js.truthy (obj_get "avatar" r) = true)
      by (rewrite Havatar; now apply truthy_nonempty).
    destruct (read_after_append E w1 w2 w4 second r email Hfits H2 eq_refl
                (Hnet _ _) Htruthy Hemail Hnone2) as (rows & w5 & Hread & Hrows).
    exists r. unfold result, after. rewrite Hrun, Hlookup. simpl.
    split; [reflexivity |]. split; [reflexivity |]. split; [exact Hemail |].
    split; [exact Hpassword |]. split; [exact Htruthy |].
    unfold findUserByEmail. rewrite (bind_ret_run _ _ _ _ _ Hread). simpl.
    f_equal. f_equal. apply find_snoc_first; [exact Hrows |].
    now apply email_matches_legacy.
Qed.

(** X7: when the storage takes every write and the baseline is within reach
    at every read or at none, [addUser] either appends a row (no row matched
    the address before, the row carries the address, the password and a
    non-empty avatar, and the next look-up by the address finds exactly that
    row), or refuses because a row already matches the address, and then it
    has done nothing but the look-up. *)
Theorem addUser_then_find (E : Env) (u : UserObject.t) (w : World)
    (Hfits : never_full E)
    (Hnet : steady E) :
  let email := UserObject.email u in
  (exists r,
     result (addUser E u) w = Ret (Some r)
     /\ result (findUserByEmail E email) w = Ret None
     /\ obj_get "email" r = Some email
     /\ obj_get "password" r = UserObject.password u
     /\ Js.truthy (obj_get "avatar" r) = true
     /\ result (findUserByEmail E email) (after (addUser E u) w) = Ret (Some r))
  \/ (exists found,
        result (addUser E u) w = Ret None
        /\ result (findUserByEmail E email) w = Ret (Some found)
        /\ after (addUser E u) w = after (findUserByEmail E email) w).
Proof. exact (addUser_cases E u w Hfits Hnet). Qed.

Lemma obj_get_remove_same (k : string) (o : row) : obj_get k (obj_remove k o) = None.
Proof.
  induction o as [|[k0 v0] rest IH]; simpl; [reflexivity |].
  destruct (String.eqb k0 k) eqn:Hk; [exact IH |]. simpl. now rewrite Hk.
Qed.

Lemma obj_get_remove_other (k k' : string) (o : row) :
  k' <> k -> obj_get k (obj_remove k' o) = obj_get k o.
Proof.
  intros Hne. induction o as [|[k0 v0] rest IH]; simpl; [reflexivity |].
  destruct (String.eqb k0 k') eqn:Hk'; simpl.
  - apply String.eqb_eq in Hk'. subst k0.
    destruct (String.eqb k' k) eqn:Hk; [apply String.eqb_eq in Hk; contradiction | exact IH].
  - now rewrite IH.
Qed.

Lemma validateLogin_run (E : Env) (email password : string) (w w1 : World)
    (found : option row) :
  findUserByEmail E email w = (Ret found, w1) ->
  validateLogin E email password w
  = (Ret match found with
         | Some u =>
             if Js.strict_eq (obj_get "password" u) (Some password)
             then {| success := true; user := Some (obj_remove "password" u);
                     error := None |}
             else login_refused
         | None => login_refused
         end, w1).
Proof.
  intros Hfind. unfold validateLogin, try_catch.
  rewrite (bind_ret_run _ _ _ _ _ Hfind).
  destruct found as [u|]; [|reflexivity].
  now destruct (Js.strict_eq (obj_get "password" u) (Some password)).
Qed.

(** X8: [validateLogin] does nothing to the browser state but the look-up;
    it succeeds exactly when the row the look-up finds carries the given
    password; on success the user it returns is that row without the
    [password] property and with every other property; otherwise it answers
    the one refusal, the same for an unknown address and for a wrong
    password, and never the message of its [catch]. *)
Theorem validateLogin_answers (E : Env) (email password : string) (w : World) :
  exists found answer,
    result (findUserByEmail E email) w = Ret found
    /\ validateLogin E email password w
       = (Ret answer, after (findUserByEmail E email) w)
    /\ (success answer = true <->
        exists u, found = Some u /\ obj_get "password" u = Some password)
    /\ (success answer = true ->
        exists u u', found = Some u /\ user answer = Some u' /\ error answer = None
                     /\ obj_get "password" u' = None
                     /\ forall k, k <> "password" -> obj_get k u' = obj_get k u)
    /\ (success answer = false -> answer = login_refused).
Proof.
  destruct (returns_findUserByEmail E email w) as [found Hfound].
  unfold result in Hfound.
  destruct (findUserByEmail E email w) as [o w1] eqn:Hrun.
  simpl in Hfound. subst o.
  eexists found, _. unfold result, after. rewrite Hrun. simpl.
  split; [reflexivity |].
  split; [apply (validateLogin_run E email password w w1 found Hrun) |].
  destruct found as [u|]; simpl.
  - destruct (Js.strict_eq (obj_get "password" u) (Some password)) eqn:Hpw; simpl.
    + apply strict_eq_true in Hpw. split; [|split].
      * split; [intros _; now exists u | reflexivity].
      * intros _. exists u, (obj_remove "password" u).
        repeat split; [apply obj_get_remove_same |].
        intros k Hk. apply obj_get_remove_other. congruence.
      * discriminate.
    + split; [|split]; try discriminate; [|reflexivity].
      split; [discriminate |]. intros (u' & [= <-] & Hu').
      rewrite Hu' in Hpw. simpl in Hpw. now rewrite String.eqb_refl in Hpw.
  - split; [|split]; try discriminate; [|reflexivity].
    split; [discriminate |]. now intros (u' & Hu' & _).
Qed.

(** X9: when the storage takes every write and the baseline is within reach
    at every read or at none, a user that [addUser] added logs in with the
    password given at sign-up, and the user returned is the added row without
    its password. *)
Theorem addUser_then_login (E : Env) (u : UserObject.t) (w : World)
    (r : row) (password : string)
    (Hfits : never_full E)
    (Hnet : steady E)
    (Hadded : result (addUser E u) w = Ret (Some r))
    (Hpassword : UserObject.password u = Some password) :
  result (validateLogin E (UserObject.email u) password) (after (addUser E u) w)
  = Ret {| success := true; user := Some (obj_remove "password" r); error := None |}.
Proof.
  destruct (addUser_cases E u w Hfits Hnet)
    as [(r' & Hres & _ & _ & Hpw & _ & Hfind) | (found & Hres & _)];
    rewrite Hres in Hadded; [|discriminate].
  injection Hadded as ->.
  destruct (findUserByEmail E (UserObject.email u) (after (addUser E u) w))
    as [o w1] eqn:Hrun.
  unfold result in Hfind. rewrite Hrun in Hfind. simpl in Hfind. subst o.
  unfold result. rewrite (validateLogin_run E _ password _ _ _ Hrun). simpl.
  rewrite Hpw, Hpassword. simpl. now rewrite String.eqb_refl.
Qed.

(** X10: when the storage takes every write and the baseline is within reach
    at every read or at none, after [initializeAdminUser] a look-up by the
    address [admin] finds a row; and where such a row is found already, the
    bootstrap does nothing but that look-up. *)
Theorem initializeAdminUser_establishes (E : Env) (w : World)
    (Hfits : never_full E)
    (Hnet : steady E) :
  (exists admin,
     result (findUserByEmail E "admin") (after (initializeAdminUser E) w)
     = Ret (Some admin))
  /\ (forall found,
        result (findUserByEmail E "admin") w = Ret (Some found) ->
        initializeAdminUser E w = (Ret tt, after (findUserByEmail E "admin") w)).
Proof.
  destruct (findUserByEmail_twice E "admin" w Hfits Hnet)
    as (a & b & Ha & Hb & Hab).
  unfold result at 1 in Ha. unfold after in Hb.
  destruct (findUserByEmail E "admin" w) as [o w1] eqn:Hrun.
  simpl in Ha, Hb. subst o.
  split.
  - unfold after, initializeAdminUser. rewrite (bind_ret_run _ _ _ _ _ Hrun).
    destruct a as [found|].
    + simpl. destruct b as [found'|]; [|contradiction]. now exists found'.
    + destruct b as [found'|]; [contradiction |].
      set (admin := {| UserObject.name := Some "Admin"; UserObject.email := "admin";
                       UserObject.password := Some "admin";
                       UserObject.gender := Some "male";
                       UserObject.year := Some "1990";
                       UserObject.country := Some "Bangladesh";
                       UserObject.avatar := None |}).
      destruct (addUser_cases E admin w1 Hfits Hnet)
        as [(r & Hres & _ & _ & _ & _ & Hfind) | (found & _ & Hfound & _)].
      * exists r. unfold result, after, bind in *.
        destruct (addUser E admin w1) as [[o|] w2]; simpl in *; [exact Hfind | discriminate].
      * simpl in Hfound. rewrite Hb in Hfound. discriminate.
  - intros found Hfound. unfold result in Hfound. rewrite Hrun in Hfound.
    simpl in Hfound. injection Hfound as ->.
    unfold after, initializeAdminUser. rewrite Hrun.
    now rewrite (bind_ret_run _ _ _ _ _ Hrun).
Qed.

(** ** The detailed record store, whatever the outcome *)

Section DetailAnyOutcome.

Variable E : Env.

Ltac split_quota :=
  repeat (match goal with
          | |- context [quota E ?s] => destruct (quota E s) eqn:?; simpl
          end).

Lemma saveUserJson_any name d oldName w :
  let s' := ls (after (saveUserJson E name d oldName) w) in
  (user_json s' = moved_json oldName name d (user_json (ls w))
   \/ (user_json s' = unmoved_json oldName name (user_json (ls w))
       /\ result (saveUserJson E name d oldName) w = Ret false))
  /\ csv_users s' = csv_users (ls w)
  /\ deleted_images s' = deleted_images (ls w).
Proof.
  unfold result, after, saveUserJson, moved_json, unmoved_json, renames, try_catch, bind,
    stored_user_files, setItem, removeItem, getItem, ret.
  destruct (Js.truthy oldName && negb (Js.strict_eq oldName (Some name))); simpl;
    split_quota; auto.
Qed.

End DetailAnyOutcome.

(** The detail documents after [saveUserJson], whatever it returns. *)
Lemma saveUserJson_outcomes (E : Env) (name : string) (d : UserData)
    (oldName : option string) (w : World) :
  let s' := ls (after (saveUserJson E name d oldName) w) in
  (user_json s' = moved_json oldName name d (user_json (ls w))
   \/ (user_json s' = unmoved_json oldName name (user_json (ls w))
       /\ result (saveUserJson E name d oldName) w = Ret false))
  /\ (renames oldName name = true ->
      getFileName (default "" oldName) <> getFileName name ->
      user_json s' !! getFileName (default "" oldName) = None)
  /\ (forall k, k <> getFileName name -> k <> getFileName (default "" oldName) ->
      user_json s' !! k = user_json (ls w) !! k)
  /\ csv_users s' = csv_users (ls w)
  /\ deleted_images s' = deleted_images (ls w).
Proof.
  intros s'. destruct (saveUserJson_any E name d oldName w) as (Hjson & Hcsv & Hmarked).
  fold s' in Hjson, Hcsv, Hmarked.
  split; [exact Hjson |]. split; [|split; [|now split]].
  - intros Hren Hkey. unfold moved_json, unmoved_json in Hjson. rewrite Hren in Hjson.
    destruct Hjson as [-> | [-> _]].
    + rewrite lookup_insert_ne by congruence. apply lookup_delete_eq.
    + apply lookup_delete_eq.
  - intros k Hk1 Hk2. unfold moved_json, unmoved_json in Hjson.
    destruct Hjson as [-> | [-> _]]; destruct (renames oldName name);
      rewrite ?lookup_insert_ne by congruence; rewrite ?lookup_delete_ne by congruence;
      reflexivity.
Qed.

(** X11: whatever the outcome of [saveUserJson], the detail documents are
    either moved completely (the record under the key of the name, the key of
    a different previous name deleted) or, when it returns false, at most the
    key of the previous name has been deleted; so a rename between names with
    different keys always empties the old key, every key other than these two
    keeps its record, and neither the summary rows nor the deletion list are
    touched. *)
Theorem saveUserJson_any_outcome (E : Env) (name : string) (d : UserData)
    (oldName : option string) (w : World) :
  let s' := ls (after (saveUserJson E name d oldName) w) in
  (user_json s' = moved_json oldName name d (user_json (ls w))
   \/ (user_json s' = unmoved_json oldName name (user_json (ls w))
       /\ result (saveUserJson E name d oldName) w = Ret false))
  /\ (renames oldName name = true ->
      getFileName (default "" oldName) <> getFileName name ->
      user_json s' !! getFileName (default "" oldName) = None)
  /\ (forall k, k <> getFileName name -> k <> getFileName (default "" oldName) ->
      user_json s' !! k = user_json (ls w) !! k)
  /\ csv_users s' = csv_users (ls w)
  /\ deleted_images s' = deleted_images (ls w).
Proof. exact (saveUserJson_outcomes E name d oldName w). Qed.

Lemma saveUserJson_any_outcome_witness :
  let E := browser "" (always false)
             (fun s => bool_decide (default ∅ (user_files s) !! "Ada Lovelace" = None)) in
  let w := after (saveUserJson (browser "" (always false) roomy) "Augusta Byron"
                    (detail_of ada) None) fresh in
  load "Augusta Byron" (ls w) = Some (detail_of ada)
  /\ result (saveUserJson E "Ada Lovelace" (detail_of ada) (Some "Augusta Byron")) w
     = Ret false
  /\ load "Augusta Byron"
       (ls (after (saveUserJson E "Ada Lovelace" (detail_of ada) (Some "Augusta Byron")) w))
     = None.
Proof.
  intros E w.
  destruct (saveUserJson_any_outcome E "Ada Lovelace" (detail_of ada)
              (Some "Augusta Byron") w) as (_ & Hgone & _).
  split; [reflexivity |]. split; [vm_compute; reflexivity |].
  apply Hgone; [reflexivity | discriminate].
Defined.

(** X12: one call of the engine never changes a detail record stored under a
    key other than the key of the payload's name and the key of the previous
    name, in any environment and whatever it returns. *)
Theorem syncUser_keeps_other_records (E : Env) (c : call) (w : World) (k : string) :
  k <> getFileName (key_name (payload c)) ->
  k <> getFileName (default "" (previousName c)) ->
  user_json (ls (syncUser E c w)) !! k = user_json (ls w) !! k.
Proof.
  intros Hk1 Hk2. destruct c as [p oldName oldImagePath]. unfold syncUser. simpl in *.
  destruct (valid p) eqn:Hvalid.
  - destruct (dual_run E p oldName oldImagePath w Hvalid) as (b & _ & Hafter & _).
    simpl in Hafter. rewrite Hafter, sync_summary_user_json.
    now apply (saveUserJson_outcomes E (key_name p) (detail_of p) oldName w).
  - unfold after. now rewrite (saveUserDataDual_invalid E p oldName oldImagePath w Hvalid).
Qed.

Lemma syncUser_keeps_other_records_witness :
  let E := browser baseline_new (always true) roomy in
  let w := syncUser E (mkCall bob None None) fresh in
  load "Bob" (ls (syncUser E (mkCall ada (Some "Augusta Byron") None) w))
  = Some (detail_of bob).
Proof.
  intros E w.
  assert (H1 : getFileName "Bob" <> getFileName (key_name ada)) by discriminate.
  assert (H2 : getFileName "Bob" <> getFileName (default "" (Some "Augusta Byron")))
    by discriminate.
  unfold load.
  rewrite (syncUser_keeps_other_records E (mkCall ada (Some "Augusta Byron") None) w
             (getFileName "Bob") H1 H2).
  reflexivity.
Defined.

(** ** Re-submitting a stored record *)

Lemma selected_or_empty_twice (v : option str_or_list) :
  selected_or_empty (selected_or_empty v) = selected_or_empty v.
Proof.
  destruct v as [[s|l]|]; simpl; try reflexivity.
  destruct (String.eqb s "") eqn:Hs; simpl; [reflexivity | now rewrite Hs].
Qed.

Lemma selected_joined_default (v : option str_or_list) :
  selected_joined (selected_or_empty v) = selected_joined v.
Proof.
  destruct v as [[s|l]|]; simpl; try reflexivity.
  destruct (String.eqb s "") eqn:Hs; simpl; [|reflexivity].
  apply String.eqb_eq in Hs. now subst.
Qed.

(** X13: the record the engine stores for a valid payload is itself a valid
    payload with the same name and address, and submitting it again builds
    the same detail record and the same summary row: loading a record and
    syncing it back changes neither. *)
Theorem detail_of_fixed (p : UserData) (Hvalid : valid p = true) :
  valid (detail_of p) = true
  /\ key_name (detail_of p) = key_name p
  /\ key_email (detail_of p) = key_email p
  /\ detail_of (detail_of p) = detail_of p
  /\ summary_of (detail_of p) = summary_of p.
Proof.
  pose proof (truthy_nonempty _ (key_name_nonempty p Hvalid)) as Hn.
  pose proof (truthy_nonempty _ (key_email_nonempty p Hvalid)) as He.
  assert (Hfull : fullName_of (detail_of p) = Some (key_name p)).
  { unfold fullName_of, Js.or_else.
    change (full_name (detail_of p)) with (Some (key_name p)). now rewrite Hn. }
  assert (Haddr : email_of (detail_of p) = Some (key_email p)).
  { unfold email_of, Js.or_else.
    change (email_address (detail_of p)) with (Some (key_email p)). now rewrite He. }
  assert (Hname : key_name (detail_of p) = key_name p)
    by (unfold key_name at 1; now rewrite Hfull).
  assert (Hemail : key_email (detail_of p) = key_email p)
    by (unfold key_email at 1; now rewrite Haddr).
  split; [unfold valid; now rewrite Hfull, Haddr, Hn, He |].
  split; [exact Hname |]. split; [exact Hemail |]. split.
  - unfold detail_of at 1. rewrite Hname, Hemail.
    unfold detail_of, jsonData_of. cbn [password gender country year education interests
      custom_interest skills custom_skill profile_picture bio recommendations_saved
      recommendations_selected recommendations_rejected default].
    now rewrite selected_or_empty_twice.
  - unfold summary_of at 1. rewrite Hname, Hemail.
    unfold summary_of, detail_of, csvData_of, jsonData_of.
    cbn [password gender country year profile_picture bio recommendations_selected default].
    now rewrite selected_joined_default.
Qed.

Lemma detail_of_fixed_witness :
  detail_of (detail_of ada) = detail_of ada
  /\ summary_of (detail_of ada) = summary_of ada.
Proof.
  destruct (detail_of_fixed ada eq_refl) as (_ & _ & _ & Hdetail & Hsummary).
  now split.
Defined.

(** ** The deletion-tracking list *)

Lemma syncUser_marked_prefix (E : Env) (c : call) (w : World) :
  marked (ls w) `prefix_of` marked (ls (syncUser E c w)).
Proof.
  unfold syncUser.
  pose proof (keeps_saveUserDataDual E (fun s s' => marked s `prefix_of` marked s')) as H.
  apply H; clear H; try (intros; reflexivity).
  - intros s1 s2 s3 H12 H23. now transitivity (marked s2).
  - intros l x _ s Hl. unfold marked. simpl. rewrite Hl. now apply prefix_app_r.
Qed.

(** X14: the deletion-tracking list only grows at its end: after any
    sequence of engine calls, in any environment, the list it started from is
    a prefix of the list it holds. *)
Theorem deleted_images_only_grow (E : Env) (cs : list call) (w : World) :
  marked (ls w) `prefix_of` marked (ls (syncAll E cs w)).
Proof.
  unfold syncAll. revert w. induction cs as [|c rest IH]; intros w; simpl; [reflexivity |].
  transitivity (marked (ls (syncUser E c w))); [apply syncUser_marked_prefix | apply IH].
Qed.

Section Marking.

Variable E : Env.

Let same_marks (s s' : Storage) : Prop := deleted_images s' = deleted_images s.

Lemma same_marks_trans s1 s2 s3 : same_marks s1 s2 -> same_marks s2 s3 -> same_marks s1 s3.
Proof. unfold same_marks. congruence. Qed.

Lemma sync_summary_same_marks (p : UserData) (oldImagePath : option string)
    (jsonSaved : bool) :
  picture_changed oldImagePath p = false ->
  keeps same_marks (sync_summary E (key_email p) (summary_of p) oldImagePath jsonSaved).
Proof.
  intros Hsame.
  assert (Hrefl : forall s, same_marks s s) by reflexivity.
  assert (Hcsv : forall v s, same_marks s (with_csv_users v s)) by reflexivity.
  pose proof same_marks_trans as Htrans.
  assert (Hread : keeps same_marks (readCSV E)) by (apply keeps_readCSV; assumption).
  apply keeps_bind; [assumption | apply keeps_findUserByEmail; assumption |].
  intros [existingUser|].
  - apply keeps_bind; [assumption | | intros; apply keeps_ret; assumption].
    apply keeps_try_catch; [assumption | | apply keeps_ret; assumption].
    apply keeps_bind; [assumption | assumption |].
    intros users. destruct (findIndex _ users) as [i|]; [|apply keeps_ret; assumption].
    unfold picture_changed in Hsame. rewrite Hsame.
    apply keeps_bind; [assumption | apply keeps_ret; assumption |]. intros _.
    apply keeps_bind; [assumption | apply keeps_setItem; [assumption | apply Hcsv] |].
    intros; apply keeps_ret; assumption.
  - apply keeps_bind; [assumption | assumption |]. intros users.
    apply keeps_bind; [assumption | apply keeps_setItem; [assumption | apply Hcsv] |].
    intros; apply keeps_ret; assumption.
Qed.

Lemma deleteOldImage_run (path : string) (w : World) :
  never_full E -> path <> "" ->
  exists w',
    deleteOldImage E (Some path) w = (Ret tt, w')
    /\ marked (ls w') = mark path (marked (ls w))
    /\ csv_users (ls w') = csv_users (ls w).
Proof.
  intros Hfits Hne. unfold deleteOldImage. rewrite (truthy_nonempty path Hne). simpl.
  unfold try_catch, bind, stored_deleted_images, getItem, ret, mark, marked. simpl.
  destruct (includes (default [] (deleted_images (ls w))) path); simpl.
  - now exists w.
  - unfold setItem. rewrite Hfits. eexists. repeat split.
Qed.

End Marking.

(** X15: a call of the engine whose previous resource path is absent, empty
    or equal to the payload's [profile_picture] leaves the deletion-tracking
    list as it was, in any environment. *)
Theorem unchanged_picture_marks_nothing (E : Env) (p : UserData)
    (oldName oldImagePath : option string) (w : World)
    (Hsame : picture_changed oldImagePath p = false) :
  deleted_images (ls (after (saveUserDataDual E p oldName oldImagePath) w))
  = deleted_images (ls w).
Proof.
  destruct (valid p) eqn:Hvalid.
  - destruct (dual_run E p oldName oldImagePath w Hvalid) as (b & _ & Hafter & _).
    simpl in Hafter. rewrite Hafter.
    rewrite (sync_summary_same_marks E p oldImagePath b Hsame).
    now apply (saveUserJson_outcomes E (key_name p) (detail_of p) oldName w).
  - unfold after. now rewrite (saveUserDataDual_invalid E p oldName oldImagePath w Hvalid).
Qed.

Lemma unchanged_picture_marks_nothing_witness :
  let E := browser "" (always false) roomy in
  let w := syncUser E (mkCall ada None None) fresh in
  deleted_images
    (ls (after (saveUserDataDual E ada None (Some "Faces/01_female_2001.jpg.jpg")) w))
  = None.
Proof.
  intros E w.
  now rewrite (unchanged_picture_marks_nothing E ada None
                 (Some "Faces/01_female_2001.jpg.jpg") w eq_refl).
Defined.

(** X16: when the storage takes every write and the baseline is within reach
    at every read or at none, a call with a valid payload and a non-empty
    previous resource path that differs from the payload's [profile_picture]
    marks that path, at the end of the list and once only, exactly when the
    look-up by the payload's address finds a summary row; when the row has to
    be appended instead, nothing is marked. *)
Theorem changed_picture_is_marked (E : Env) (p : UserData) (oldName : option string)
    (path : string) (w : World)
    (Hfits : never_full E)
    (Hnet : steady E)
    (Hvalid : valid p = true)
    (Hchanged : picture_changed (Some path) p = true) :
  let w1 := after (saveUserJson E (key_name p) (detail_of p) oldName) w in
  marked (ls (after (saveUserDataDual E p oldName (Some path)) w))
  = match result (findUserByEmail E (key_email p)) w1 with
    | Ret (Some _) => mark path (marked (ls w))
    | _ => marked (ls w)
    end.
Proof.
  intros w1.
  assert (Hpath : path <> "").
  { unfold picture_changed in Hchanged. apply andb_true_iff in Hchanged as [Ht _].
    now apply truthy_Some in Ht as (s & [= <-] & Hs). }
  destruct (dual_run E p oldName (Some path) w Hvalid) as (b & _ & Hafter & _).
  simpl in Hafter. fold w1 in Hafter. rewrite Hafter. clear Hafter.
  assert (Hw1 : marked (ls w1) = marked (ls w)).
  { unfold marked, w1.
    now rewrite (proj2 (proj2 (saveUserJson_any E (key_name p) (detail_of p) oldName w))). }
  rewrite <- Hw1. clear Hw1. generalize w1. clear w1. intros w1.
  destruct (readCSV_twice E w1 Hfits Hnet) as (first & second & w2 & w3 & H1 & H2 & Hkeys).
  destruct (readCSV_run E w1) as (r1 & w2' & Hr1 & _ & _ & _ & Hm1 & _).
  rewrite H1 in Hr1. injection Hr1 as <- <-.
  destruct (readCSV_run E w2) as (r2 & w3' & Hr2 & _ & _ & _ & Hm2 & _).
  rewrite H2 in Hr2. injection Hr2 as <- <-.
  assert (Hlookup : findUserByEmail E (key_email p) w1
                    = (Ret (List.find (email_matches (key_email p)) first), w2)).
  { unfold findUserByEmail. now rewrite (bind_ret_run _ _ _ _ _ H1). }
  unfold result, after, sync_summary. rewrite Hlookup, (bind_ret_run _ _ _ _ _ Hlookup).
  simpl. destruct (List.find (email_matches (key_email p)) first) as [found|] eqn:Hfind.
  - assert (Hidx : exists i, findIndex (email_matches (key_email p)) second = Some i).
    { rewrite <- (same_keys_findIndex _ _ _ Hkeys).
      destruct (findIndex (email_matches (key_email p)) first) as [i|] eqn:Hi;
        [now exists i |].
      apply find_findIndex in Hi. congruence. }
    destruct Hidx as [i Hi].
    destruct (deleteOldImage_run E path w3 Hfits Hpath) as (w4 & Hdel & Hmark & _).
    assert (Hupd : updateCSVRow E (key_email p) (summary_of p) (Some path) w2
                   = (Ret true,
                      {| ls := with_csv_users (<[i := overwrite_row (summary_of p)]> second)
                                 (ls w4);
                         tick := tick w4 |})).
    { unfold updateCSVRow. apply try_catch_ret_run.
      rewrite (bind_ret_run _ _ _ _ _ H2), Hi.
      unfold picture_changed in Hchanged. rewrite Hchanged.
      rewrite (bind_ret_run _ _ _ _ _ Hdel).
      now rewrite (bind_ret_run _ _ _ _ _ (setItem_fits E _ _ Hfits)). }
    rewrite (bind_ret_run _ _ _ _ _ Hupd). simpl.
    change (marked (with_csv_users ?v ?s)) with (marked s).
    rewrite Hmark. unfold marked. now rewrite Hm2, Hm1.
  - rewrite (bind_ret_run _ _ _ _ _ H2).
    rewrite (bind_ret_run _ _ _ _ _ (setItem_fits E _ _ Hfits)). simpl.
    change (marked (with_csv_users ?v ?s)) with (marked s).
    unfold marked. now rewrite Hm2, Hm1.
Qed.

Lemma changed_picture_is_marked_witness :
  let E := browser "" (always false) roomy in
  let old := "Faces/01_female_2001.jpg.jpg" in
  let edited := with_profile_picture "Faces/07_female_2001.jpg.jpg" ada in
  let w := syncUser E (mkCall ada None None) fresh in
  marked (ls (after (saveUserDataDual E edited None (Some old)) w)) = [old]
  /\ marked (ls (after (saveUserDataDual E edited None (Some old)) fresh)) = [].
Proof.
  intros E old edited w.
  assert (Hfits : never_full E) by (intros s; reflexivity).
  assert (Hnet : steady E) by (intros n m; reflexivity).
  split.
  - rewrite (changed_picture_is_marked E edited None old w Hfits Hnet eq_refl eq_refl).
    reflexivity.
  - rewrite (changed_picture_is_marked E edited None old fresh Hfits Hnet eq_refl eq_refl).
    reflexivity.
Defined.

(** ** What the summary-store adapter leaves alone *)

Lemma only_csv_users_refl (s : Storage) : only_csv_users s s.
Proof. now repeat split. Qed.

Lemma only_csv_users_trans (s1 s2 s3 : Storage) :
  only_csv_users s1 s2 -> only_csv_users s2 s3 -> only_csv_users s1 s3.
Proof. unfold only_csv_users. intros (? & ? & ?) (? & ? & ?). repeat split; congruence. Qed.

Lemma only_csv_users_write (v : list row) (s : Storage) :
  only_csv_users s (with_csv_users v s).
Proof. now repeat split. Qed.

Section Adapter.

Variable E : Env.

Ltac frame :=
  first [ exact only_csv_users_refl | exact only_csv_users_trans
        | exact only_csv_users_write ].

Lemma keeps_adapter_read : keeps only_csv_users (readCSV E).
Proof. apply keeps_readCSV; frame. Qed.

Lemma keeps_adapter_find email : keeps only_csv_users (findUserByEmail E email).
Proof. apply keeps_findUserByEmail; frame. Qed.

Lemma keeps_adapter_addUser u : keeps only_csv_users (addUser E u).
Proof.
  apply keeps_try_catch; [frame | | apply keeps_ret; frame].
  apply keeps_bind; [frame | apply keeps_adapter_find |]. intros [found|].
  - apply keeps_ret; frame.
  - apply keeps_bind; [frame | apply keeps_adapter_read |]. intros users.
    apply keeps_bind; [frame | |].
    + apply keeps_if; [apply keeps_ret; frame | apply keeps_getRandomAvatarFile; frame].
    + intros file. apply keeps_bind; [frame | apply keeps_setItem; frame |].
      intros; apply keeps_ret; frame.
Qed.

End Adapter.

(** X17: the look-ups and the other operations of the summary-store adapter
    ([findUserByEmail], [findUserByName], [checkUserExists], [validateLogin],
    [addUser], [getCSVString], [initializeAdminUser]) write nothing but the
    summary rows: in any environment the detail documents, the file index and
    the deletion list are after the call what they were before. *)
Theorem adapter_writes_only_csv_users (E : Env) (w : World) :
  (forall email, only_csv_users (ls w) (ls (after (findUserByEmail E email) w)))
  /\ (forall name, only_csv_users (ls w) (ls (after (findUserByName E name) w)))
  /\ (forall name email,
        only_csv_users (ls w) (ls (after (checkUserExists E name email) w)))
  /\ (forall email password,
        only_csv_users (ls w) (ls (after (validateLogin E email password) w)))
  /\ (forall u, only_csv_users (ls w) (ls (after (addUser E u) w)))
  /\ only_csv_users (ls w) (ls (after (getCSVString E) w))
  /\ only_csv_users (ls w) (ls (after (initializeAdminUser E) w)).
Proof.
  assert (Hrefl := only_csv_users_refl). assert (Htrans := only_csv_users_trans).
  assert (Hwrite := only_csv_users_write).
  assert (Hfind := keeps_adapter_find E). assert (Hread := keeps_adapter_read E).
  assert (Hname : forall name, keeps only_csv_users (findUserByName E name))
    by (intros; apply keeps_findUserByName; assumption).
  split; [intros; apply Hfind |]. split; [intros; apply Hname |].
  split; [|split; [|split; [|split]]].
  - intros name email. revert w.
    apply keeps_bind; [assumption | apply Hname |]. intros byName.
    apply keeps_bind; [assumption | apply Hfind |]. intros byEmail.
    apply keeps_ret; assumption.
  - intros email password. revert w.
    apply keeps_try_catch; [assumption | | apply keeps_ret; assumption].
    apply keeps_bind; [assumption | apply Hfind |]. intros [u|].
    + apply keeps_if; apply keeps_ret; assumption.
    + apply keeps_ret; assumption.
  - intros u. apply keeps_adapter_addUser.
  - revert w. apply keeps_bind; [assumption | assumption |].
    intros; apply keeps_ret; assumption.
  - revert w. apply keeps_bind; [assumption | apply Hfind |]. intros [admin|].
    + apply keeps_ret; assumption.
    + apply keeps_bind; [assumption | apply keeps_adapter_addUser |].
      intros; apply keeps_ret; assumption.
Qed.

(** ** Overwriting one row *)

(** X18: in any environment [updateCSVRow] returns true only after it has
    put the nine-column row at the position of the first row its read
    returned that matches the address, every other position and the number of
    rows being as read; when it returns false the local layer holds the rows
    its read returned, untouched. *)
Theorem updateCSVRow_overwrites_one (E : Env) (email : string) (updatedData : row)
    (oldImagePath : option string) (w : World) :
  exists users,
    result (readCSV E) w = Ret users
    /\ match result (updateCSVRow E email updatedData oldImagePath) w with
       | Ret true =>
           exists i,
             findIndex (email_matches email) users = Some i
             /\ stored_rows (ls (after (updateCSVRow E email updatedData oldImagePath) w))
                = <[i := overwrite_row updatedData]> users
       | Ret false =>
           stored_rows (ls (after (updateCSVRow E email updatedData oldImagePath) w))
           = users
       | Throw => False
       end.
Proof.
  destruct (readCSV_run E w) as (users & w1 & Hread & Hrows & _).
  exists users. unfold result at 1. rewrite Hread. split; [reflexivity |].
  destruct (findIndex (email_matches email) users) as [i|] eqn:Hi.
  2:{ assert (Hupd : updateCSVRow E email updatedData oldImagePath w = (Ret false, w1)).
      { unfold updateCSVRow, try_catch. now rewrite (bind_ret_run _ _ _ _ _ Hread), Hi. }
      unfold result, after. rewrite Hupd. simpl. now rewrite Hrows. }
  set (mark_old := if Js.truthy oldImagePath
                        && negb (Js.strict_eq oldImagePath
                                   (obj_get "profile_picture" updatedData))
                   then deleteOldImage E oldImagePath else ret tt).
  assert (Hmark : keeps (fun s s' => csv_users s' = csv_users s) mark_old).
  { unfold mark_old. apply keeps_if.
    - apply keeps_deleteOldImage; try reflexivity. intros s1 s2 s3. congruence.
    - now apply keeps_ret. }
  assert (Hret : returns mark_old).
  { unfold mark_old. destruct (_ && _); [apply returns_deleteOldImage | apply returns_ret]. }
  destruct (returns_unit_run mark_old w1 Hret) as [w2 Hrun].
  specialize (Hmark w1). unfold after in Hmark. rewrite Hrun in Hmark. simpl in Hmark.
  destruct (quota E (with_csv_users (<[i := overwrite_row updatedData]> users) (ls w2)))
    eqn:Hq.
  - assert (Hupd : updateCSVRow E email updatedData oldImagePath w
                   = (Ret true,
                      {| ls := with_csv_users (<[i := overwrite_row updatedData]> users)
                                 (ls w2);
                         tick := tick w2 |})).
    { unfold updateCSVRow. apply try_catch_ret_run.
      rewrite (bind_ret_run _ _ _ _ _ Hread), Hi. fold mark_old.
      rewrite (bind_ret_run _ _ _ _ _ Hrun). unfold bind, setItem. now rewrite Hq. }
    unfold result, after. rewrite Hupd. simpl. exists i. now split.
  - assert (Hupd : updateCSVRow E email updatedData oldImagePath w = (Ret false, w2)).
    { unfold updateCSVRow, try_catch.
      rewrite (bind_ret_run _ _ _ _ _ Hread), Hi. fold mark_old.
      rewrite (bind_ret_run _ _ _ _ _ Hrun). unfold bind, setItem. now rewrite Hq. }
    unfold result, after. rewrite Hupd. simpl.
    unfold stored_rows. now rewrite Hmark, Hrows.
Qed.

(** ** The rows of the baseline *)

Lemma parse_line_email (headers : list string) (line : string) (r : row) :
  parse_line headers line = Some r ->
  Js.truthy (obj_get "email" r) || Js.truthy (obj_get "email_address" r) = true.
Proof.
  unfold parse_line. destruct (String.eqb (Js.trim line) ""); [discriminate |].
  destruct (Js.truthy _ || Js.truthy _) eqn:H; [|discriminate].
  now intros [= <-].
Qed.

Lemma split_one_line (s : string) :
  has_char "010" s = false -> Js.split "010" s = [s].
Proof.
  induction s as [|c r IH]; simpl; [reflexivity |].
  destruct (Ascii.eqb c "010"); simpl; [discriminate |].
  intros H. now rewrite (IH H).
Qed.

(** X19: every row [parseCSV] returns has a non-empty [email] or a non-empty
    [email_address], and a text with a header line only (no line feed once
    trimmed) gives no row at all. *)
Theorem parseCSV_rows_have_email (csvText : string) :
  (forall r, In r (parseCSV csvText) ->
     Js.truthy (obj_get "email" r) || Js.truthy (obj_get "email_address" r) = true)
  /\ (has_char "010" (Js.trim csvText) = false -> parseCSV csvText = []).
Proof.
  split.
  - intros r. unfold parseCSV.
    destruct (Js.split "010" (Js.trim csvText)) as [|header [|line rest]];
      try (intros []).
    intros Hin. apply list_elem_of_In, list_elem_of_omap in Hin as (line' & _ & Hline).
    exact (parse_line_email _ line' r Hline).
  - intros Hone. unfold parseCSV. now rewrite (split_one_line _ Hone).
Qed.

(** ** Exporting the table and reading it back *)

Lemma split_no_separator (sep : ascii) (s : string) :
  has_char sep s = false -> Js.split sep s = [s].
Proof.
  induction s as [|c r IH]; simpl; [reflexivity |].
  destruct (Ascii.eqb c sep); simpl; [discriminate |].
  intros H. now rewrite (IH H).
Qed.

Lemma split_app_separator (sep : ascii) (a b : string) :
  has_char sep a = false ->
  Js.split sep (a ++ String sep b) = a :: Js.split sep b.
Proof.
  induction a as [|c r IH]; simpl.
  - now rewrite Ascii.eqb_refl.
  - destruct (Ascii.eqb c sep); simpl; [discriminate |].
    intros H. now rewrite (IH H).
Qed.

Lemma join_cons (sep : ascii) (x y : string) (l : list string) :
  Js.join (String sep "") (x :: y :: l) = x ++ String sep (Js.join (String sep "") (y :: l)).
Proof. reflexivity. Qed.

Lemma split_join (sep : ascii) (l : list string) :
  l <> [] ->
  Forall (fun v => has_char sep v = false) l ->
  Js.split sep (Js.join (String sep "") l) = l.
Proof.
  intros Hne Hall. induction Hall as [|x rest Hx Hrest IH]; [contradiction |].
  destruct rest as [|y rest].
  - now apply split_no_separator.
  - rewrite join_cons, split_app_separator by exact Hx.
    now rewrite IH.
Qed.

Lemma append_cons (c : ascii) (r b : string) : String c r ++ b = String c (r ++ b).
Proof. reflexivity. Qed.

Lemma append_empty (b : string) : "" ++ b = b.
Proof. reflexivity. Qed.

Lemma has_char_app (c : ascii) (a b : string) :
  has_char c (a ++ b) = has_char c a || has_char c b.
Proof.
  induction a as [|x r IH]; [reflexivity |].
  rewrite append_cons. simpl. now rewrite IH, orb_assoc.
Qed.

Lemma has_char_join (c sep : ascii) (l : list string) :
  Ascii.eqb sep c = false ->
  Forall (fun v => has_char c v = false) l ->
  has_char c (Js.join (String sep "") l) = false.
Proof.
  intros Hsep Hall. induction Hall as [|x rest Hx Hrest IH]; [reflexivity |].
  destruct rest as [|y rest]; [exact Hx |].
  rewrite join_cons, has_char_app, Hx.
  change (has_char c (String sep ?s)) with (Ascii.eqb sep c || has_char c s).
  now rewrite Hsep, IH.
Qed.

(** *** [trim] *)

Lemma rev_string_app (acc a b : string) :
  Js.rev_string acc (a ++ b) = Js.rev_string (Js.rev_string acc a) b.
Proof. revert acc. induction a as [|c r IH]; intros acc; simpl; [reflexivity | apply IH]. Qed.

Lemma rev_string_twice (s a b : string) :
  Js.rev_string b (Js.rev_string a s) = Js.rev_string (s ++ b) a.
Proof.
  revert a. induction s as [|c r IH]; intros a; simpl; [reflexivity |].
  now rewrite IH.
Qed.

Lemma rev_string_involutive (s : string) :
  Js.rev_string "" (Js.rev_string "" s) = s.
Proof.
  rewrite rev_string_twice.
  change (Js.rev_string (s ++ "") "") with (s ++ "").
  induction s as [|c r IH]; [reflexivity |].
  change (String c r ++ "") with (String c (r ++ "")). now rewrite IH.
Qed.

Lemma rev_string_length (acc s : string) :
  String.length (Js.rev_string acc s) = String.length s + String.length acc.
Proof.
  revert acc. induction s as [|c r IH]; intros acc; simpl; [reflexivity |].
  rewrite IH. simpl. lia.
Qed.

Lemma drop_spaces_length (s : string) :
  String.length (Js.drop_spaces s) <= String.length s.
Proof.
  induction s as [|c r IH]; simpl; [lia |].
  destruct (Js.is_space c); simpl; lia.
Qed.

Lemma drop_spaces_solid (s : string) :
  starts_solid s = true -> Js.drop_spaces s = s.
Proof.
  destruct s as [|c r]; simpl; [discriminate |].
  now destruct (Js.is_space c).
Qed.

Lemma drop_spaces_fixed (s : string) :
  Js.drop_spaces s = s -> s = "" \/ starts_solid s = true.
Proof.
  destruct s as [|c r]; simpl; [now left |].
  destruct (Js.is_space c); [|now right].
  intros H. pose proof (drop_spaces_length r) as Hle. rewrite H in Hle. simpl in Hle. lia.
Qed.

Lemma rev_string_ends_solid (acc s : string) :
  ends_solid s = true -> starts_solid (Js.rev_string acc s) = true.
Proof.
  revert acc. induction s as [|c r IH]; intros acc; [discriminate |].
  destruct r as [|c' r']; [simpl; auto |].
  intros H. apply (IH (String c acc)). exact H.
Qed.

Lemma rev_string_ends_space (acc s : string) :
  s <> "" -> ends_solid s = false ->
  s <> "" /\ starts_solid (Js.rev_string acc s) = false.
Proof.
  intros Hne. split; [exact Hne |]. revert acc Hne H.
  induction s as [|c r IH]; intros acc Hne H; [contradiction |].
  destruct r as [|c' r'].
  - simpl in *. now destruct (Js.is_space c).
  - apply (IH (String c acc)); [discriminate | exact H].
Qed.

Lemma trim_solid (s : string) :
  starts_solid s = true -> ends_solid s = true -> Js.trim s = s.
Proof.
  intros Hs He. unfold Js.trim. rewrite (drop_spaces_solid s Hs).
  rewrite (drop_spaces_solid _ (rev_string_ends_solid "" s He)).
  apply rev_string_involutive.
Qed.

Lemma trim_fixed (s : string) :
  Js.trim s = s -> s = "" \/ (starts_solid s = true /\ ends_solid s = true).
Proof.
  intros H. destruct s as [|c r] eqn:Hs; [now left |]. right. rewrite <- Hs in *.
  assert (Hne : s <> "") by (rewrite Hs; discriminate).
  assert (Hlen : String.length (Js.trim s) = String.length s) by now rewrite H.
  unfold Js.trim in Hlen. rewrite rev_string_length in Hlen. simpl in Hlen.
  pose proof (drop_spaces_length (Js.rev_string "" (Js.drop_spaces s))) as H1.
  rewrite rev_string_length in H1. simpl in H1.
  pose proof (drop_spaces_length s) as H2.
  assert (Hfirst : starts_solid s = true).
  { destruct s as [|c0 r0]; [contradiction |]. simpl in *.
    destruct (Js.is_space c0); [|reflexivity].
    pose proof (drop_spaces_length r0). lia. }
  split; [exact Hfirst |].
  rewrite (drop_spaces_solid s Hfirst) in Hlen.
  destruct (ends_solid s) eqn:He; [reflexivity |].
  destruct (rev_string_ends_space "" s Hne He) as [_ Hsp].
  destruct (Js.rev_string "" s) as [|c0 r0] eqn:Hrev.
  - pose proof (rev_string_length "" s) as Hl. rewrite Hrev in Hl. simpl in Hl.
    destruct s; [contradiction | simpl in Hl; lia].
  - simpl in Hsp, Hlen. destruct (Js.is_space c0); [|discriminate].
    pose proof (drop_spaces_length r0) as H3.
    pose proof (rev_string_length "" s) as Hl. rewrite Hrev in Hl. simpl in Hl. lia.
Qed.

Lemma trim_trailing_line_feed (s : string) :
  starts_solid s = true -> ends_solid s = true ->
  Js.trim (s ++ String "010" "") = s.
Proof.
  intros Hs He. unfold Js.trim.
  assert (Hstart : starts_solid (s ++ String "010" "") = true)
    by (destruct s; [discriminate | exact Hs]).
  rewrite (drop_spaces_solid _ Hstart), rev_string_app. simpl.
  rewrite (drop_spaces_solid _ (rev_string_ends_solid "" s He)).
  apply rev_string_involutive.
Qed.

Lemma starts_solid_app (a b : string) :
  starts_solid a = true -> starts_solid (a ++ b) = true.
Proof. now destruct a. Qed.

Lemma ends_solid_app (a b : string) :
  ends_solid b = true -> ends_solid (a ++ b) = true.
Proof.
  intros Hb. induction a as [|c r IH]; [exact Hb |].
  rewrite append_cons. simpl.
  destruct (r ++ b) as [|c' r'] eqn:Hrb; [|exact IH].
  destruct r; [|discriminate]. rewrite append_empty in Hrb. subst b. discriminate.
Qed.

Lemma ends_solid_join (sep : ascii) (l : list string) (last : string) :
  ends_solid last = true ->
  ends_solid (Js.join (String sep "") (l ++ [last])) = true.
Proof.
  intros Hlast. induction l as [|x rest IH]; [exact Hlast |].
  destruct rest as [|y rest]; simpl app in *.
  - rewrite join_cons. apply ends_solid_app.
    change (String sep (Js.join (String sep "") [last])) with (String sep "" ++ last).
    now apply ends_solid_app.
  - rewrite join_cons. apply ends_solid_app.
    change (String sep ?s) with (String sep "" ++ s). now apply ends_solid_app.
Qed.

(** *** One exported line *)

Lemma obj_set_fresh (k v : string) (o : row) :
  obj_get k o = None -> obj_set k v o = (o ++ [(k, v)])%list.
Proof.
  induction o as [|[k' v'] rest IH]; simpl; [reflexivity |].
  destruct (String.eqb k' k); [discriminate |].
  intros H. now rewrite (IH H).
Qed.

Lemma obj_get_app_fresh (k k' v : string) (o : row) :
  k' <> k -> obj_get k (o ++ [(k', v)])%list = obj_get k o.
Proof.
  intros Hne. induction o as [|[k0 v0] rest IH]; simpl.
  - destruct (String.eqb_spec k' k); [contradiction | reflexivity].
  - now rewrite IH.
Qed.

Lemma fill_row_fresh (f : string -> string) (headers : list string) (user : row) :
  NoDup headers ->
  "__proto__" ∉ headers ->
  (forall h, h ∈ headers -> obj_get h user = None) ->
  fill_row headers (map f headers) user
  = (user ++ map (fun h => (h, f h)) headers)%list.
Proof.
  intros Hnd. revert user.
  induction Hnd as [|h hs Hnotin Hnd IH]; intros user Hproto Hfresh; simpl.
  - now rewrite app_nil_r.
  - apply not_elem_of_cons in Hproto as [Hh Hproto].
    destruct (String.eqb_spec h "__proto__") as [Heq | _]; [congruence |].
    rewrite obj_set_fresh by (apply Hfresh; left).
    rewrite IH.
    + now rewrite <- app_assoc.
    + exact Hproto.
    + intros h' Hin. rewrite obj_get_app_fresh.
      * apply Hfresh. now right.
      * intros ->. contradiction.
Qed.

Lemma csv_headers_NoDup : NoDup csv_headers.
Proof. apply (bool_decide_unpack _). vm_compute. reflexivity. Qed.

Lemma clean_field_parts (v : string) :
  clean_field v = true ->
  has_char "," v = false /\ has_char "010" v = false /\ Js.trim v = v.
Proof.
  unfold clean_field. intros H.
  apply andb_prop in H as [H Htrim]. apply andb_prop in H as [Hc Hl].
  apply negb_true_iff in Hc, Hl. apply String.eqb_eq in Htrim. auto.
Qed.

Lemma exportable_fields (user : row) :
  exportable user = true ->
  Forall (fun v => clean_field v = true) (map (export_field user) csv_headers)
  /\ export_field user "email_address" <> "".
Proof.
  unfold exportable. intros H. apply andb_prop in H as [Hall Hmail]. split.
  - apply Forall_forall. intros v Hv. rewrite forallb_forall in Hall.
    apply Hall. now apply list_elem_of_In.
  - intros Heq. rewrite Heq in Hmail. discriminate.
Qed.

Lemma export_row_split (user : row) :
  exportable user = true ->
  map Js.trim (Js.split "," (export_row user)) = map (export_field user) csv_headers.
Proof.
  intros Hx. destruct (exportable_fields user Hx) as [Hall _].
  unfold export_row. rewrite split_join.
  - induction Hall as [|v vs Hv Hvs IH]; [reflexivity |].
    simpl. rewrite IH. f_equal. now apply clean_field_parts in Hv as (_ & _ & ->).
  - discriminate.
  - eapply Forall_impl; [exact Hall |]. intros v Hv.
    now apply clean_field_parts in Hv as (? & _).
Qed.

Lemma export_row_one_line (user : row) :
  exportable user = true -> has_char "010" (export_row user) = false.
Proof.
  intros Hx. destruct (exportable_fields user Hx) as [Hall _].
  unfold export_row. apply has_char_join; [reflexivity |].
  eapply Forall_impl; [exact Hall |]. intros v Hv.
  now apply clean_field_parts in Hv as (_ & ? & _).
Qed.

(** An exported line begins with its first field or with the comma after
    it, and ends with its last field or with the comma before it. *)
Lemma export_row_solid (user : row) :
  exportable user = true ->
  starts_solid (export_row user) = true /\ ends_solid (export_row user) = true.
Proof.
  intros Hx. destruct (exportable_fields user Hx) as [Hall _].
  unfold export_row. set (f := export_field user) in *.
  assert (Hfirst : clean_field (f "full_name") = true).
  { rewrite Forall_forall in Hall. apply Hall. unfold csv_headers. simpl. now left. }
  assert (Hlast : clean_field (f "bio") = true).
  { rewrite Forall_forall in Hall. apply Hall. unfold csv_headers. simpl.
    do 8 right. now left. }
  apply clean_field_parts in Hfirst as (_ & _ & Hfirst).
  apply clean_field_parts in Hlast as (_ & _ & Hlast).
  apply trim_fixed in Hfirst, Hlast. split.
  - unfold csv_headers. cbn [map]. rewrite join_cons.
    destruct Hfirst as [-> | [Hs _]]; [reflexivity | now apply starts_solid_app].
  - change (map f csv_headers)
      with ([f "full_name"; f "email_address"; f "password"; f "gender"; f "country";
             f "year"; f "profile_picture"; f "recommendations_selected"]
            ++ [f "bio"])%list.
    destruct Hlast as [Hempty | [_ He]].
    + rewrite Hempty.
      change ([f "full_name"; f "email_address"; f "password"; f "gender"; f "country";
               f "year"; f "profile_picture"; f "recommendations_selected"] ++ [""])%list
        with ([f "full_name"; f "email_address"; f "password"; f "gender"; f "country";
               f "year"; f "profile_picture"]
              ++ [f "recommendations_selected"; ""])%list.
      induction [f "full_name"; f "email_address"; f "password"; f "gender"; f "country";
                 f "year"; f "profile_picture"] as [|x rest IH].
      * change (Js.join "," ([] ++ [f "recommendations_selected"; ""])%list)
          with (f "recommendations_selected" ++ ",").
        now apply ends_solid_app.
      * destruct rest as [|y rest]; cbn [app] in *; rewrite join_cons;
          apply ends_solid_app;
          change (String "," ?s) with (String "," "" ++ s);
          now apply ends_solid_app.
    + now apply ends_solid_join.
Qed.

Lemma parse_line_exported (user : row) :
  exportable user = true ->
  parse_line csv_headers (export_row user) = Some (exported user).
Proof.
  intros Hx. unfold parse_line.
  destruct (export_row_solid user Hx) as [Hs He].
  rewrite (trim_solid _ Hs He).
  destruct (String.eqb_spec (export_row user) "") as [Hempty | _].
  { rewrite Hempty in Hs. discriminate. }
  cbv zeta. rewrite (export_row_split user Hx).
  rewrite (fill_row_fresh (export_field user) csv_headers [] csv_headers_NoDup)
    by (try reflexivity; apply (bool_decide_unpack _); vm_compute; reflexivity).
  rewrite app_nil_l. fold (exported user).
  destruct (exportable_fields user Hx) as [_ Hmail].
  assert (Hget : obj_get "email_address" (exported user)
                 = Some (export_field user "email_address")).
  { unfold exported. generalize (export_field user). intros f. reflexivity. }
  rewrite Hget.
  assert (Htruthy : Js.truthy (Some (export_field user "email_address")) = true).
  { simpl. destruct (String.eqb_spec (export_field user "email_address") "");
      [contradiction | reflexivity]. }
  rewrite Htruthy, orb_true_r. reflexivity.
Qed.

(** *** The whole text *)

Lemma join_lines_one_line (lines : list string) :
  Forall (fun l => has_char "010" l = false) lines ->
  Js.split "010" (Js.join (String "010" "") lines) = match lines with [] => [""] | _ => lines end.
Proof.
  intros Hall. destruct lines as [|l ls]; [reflexivity |].
  now apply split_join.
Qed.

Lemma convertToCSV_text (user : row) (users : list row) :
  convertToCSV (user :: users)
  = Js.join (String "010" "") (Js.join "," csv_headers :: map export_row (user :: users))
    ++ String "010" "".
Proof. reflexivity. Qed.

Lemma ends_solid_lines (first : string) (lines : list string) :
  lines <> [] ->
  Forall (fun l => ends_solid l = true) lines ->
  ends_solid (Js.join (String "010" "") (first :: lines)) = true.
Proof.
  intros Hne Hall. revert first.
  induction Hall as [|l ls Hl Hls IH]; intros first; [contradiction |].
  rewrite join_cons. apply ends_solid_app.
  change (String "010" ?s) with (String "010" "" ++ s). apply ends_solid_app.
  destruct ls as [|l' ls']; [exact Hl |].
  apply IH. discriminate.
Qed.

Lemma omap_parse_exported (users : list row) :
  forallb exportable users = true ->
  omap (parse_line csv_headers) (map export_row users) = map exported users.
Proof.
  induction users as [|u us IH]; [reflexivity |].
  cbn [forallb]. intros H. apply andb_prop in H as [Hu Hus].
  change (omap (parse_line csv_headers) (map export_row (u :: us)))
    with (match parse_line csv_headers (export_row u) with
          | Some r => r :: omap (parse_line csv_headers) (map export_row us)
          | None => omap (parse_line csv_headers) (map export_row us)
          end).
  rewrite (parse_line_exported u Hu), (IH Hus). reflexivity.
Qed.

Lemma header_line_parsed :
  map Js.trim (Js.split "," (Js.join "," csv_headers)) = csv_headers.
Proof. vm_compute. reflexivity. Qed.

Lemma parse_exported_text (users : list row) :
  forallb exportable users = true ->
  parseCSV (convertToCSV users) = map exported users.
Proof.
  destruct users as [|u us]; [intros _; vm_compute; reflexivity |].
  intros Hall. rewrite convertToCSV_text.
  set (lines := map export_row (u :: us)).
  assert (Hrows : Forall (fun l => has_char "010" l = false
                                   /\ ends_solid l = true) lines).
  { subst lines. apply Forall_forall. intros l Hl.
    apply list_elem_of_In, in_map_iff in Hl as (r & <- & Hr).
    rewrite forallb_forall in Hall. specialize (Hall r Hr).
    split; [now apply export_row_one_line | now apply export_row_solid]. }
  assert (Hne : lines <> []) by discriminate.
  unfold parseCSV. rewrite trim_trailing_line_feed.
  - rewrite split_join.
    + subst lines. cbn [map]. cbv zeta. rewrite header_line_parsed.
      apply (omap_parse_exported (u :: us) Hall).
    + discriminate.
    + constructor; [vm_compute; reflexivity |].
      eapply Forall_impl; [exact Hrows |]. now intros l [? _].
  - destruct lines as [|l ls]; [contradiction |].
    rewrite join_cons. apply starts_solid_app. vm_compute. reflexivity.
  - apply ends_solid_lines; [exact Hne |].
    eapply Forall_impl; [exact Hrows |]. now intros l [_ ?].
Qed.

Lemma exported_current_format (users : list row) :
  current_format (map exported users).
Proof.
  apply Forall_forall. intros r Hr.
  apply list_elem_of_In, in_map_iff in Hr as (u & <- & _).
  unfold exported. generalize (export_field u). intros f. reflexivity.
Qed.

Lemma or_undefined_default (v : string) :
  default "" (Some v ||| None) = v.
Proof.
  unfold Js.or_else. simpl.
  destruct (String.eqb_spec v ""); subst; reflexivity.
Qed.

Lemma exported_csvData (fullName email : string) (p : UserData) :
  exported (csvData_of fullName email p) = csvData_of fullName email p.
Proof.
  unfold exported, csvData_of, csv_headers, export_field.
  generalize (default "" (password p)) (default "" (gender p)) (default "" (country p))
             (default "" (year p)) (default "" (profile_picture p))
             (selected_joined (recommendations_selected p)) (default "" (bio p)).
  intros v1 v2 v3 v4 v5 v6 v7. simpl.
  now rewrite !or_undefined_default.
Qed.

(** X20: exporting a table and parsing the text gives, row for row, the nine
    exported columns of each row, provided every exported value is free of
    commas, line feeds and outer white space and every row exports a
    non-empty address; the rows read back are all in the current format,
    whatever format the exported rows had. *)
Theorem export_then_parse (users : list row) :
  forallb exportable users = true ->
  parseCSV (convertToCSV users) = map exported users
  /\ current_format (parseCSV (convertToCSV users)).
Proof.
  intros Hall. rewrite (parse_exported_text users Hall).
  split; [reflexivity | apply exported_current_format].
Qed.

Lemma export_then_parse_witness :
  forallb exportable [summary_of ada; [("name", "Bob"); ("email", "bob@x.test")]] = true
  /\ parseCSV (convertToCSV [summary_of ada; [("name", "Bob"); ("email", "bob@x.test")]])
     = map exported [summary_of ada; [("name", "Bob"); ("email", "bob@x.test")]]
  /\ current_format
       (parseCSV (convertToCSV [summary_of ada; [("name", "Bob"); ("email", "bob@x.test")]])).
Proof.
  split; [vm_compute; reflexivity |].
  apply (export_then_parse [summary_of ada; [("name", "Bob"); ("email", "bob@x.test")]]).
  vm_compute. reflexivity.
Defined.

(** X21: the rows the engine writes come back unchanged from an export
    followed by a parse, when their values are free of commas, line feeds
    and outer white space. *)
Theorem engine_rows_survive_export (payloads : list UserData) :
  forallb exportable (map summary_of payloads) = true ->
  parseCSV (convertToCSV (map summary_of payloads)) = map summary_of payloads.
Proof.
  intros Hall. rewrite (parse_exported_text _ Hall), map_map.
  apply map_ext. intros p. apply exported_csvData.
Qed.

Lemma engine_rows_survive_export_witness :
  forallb exportable (map summary_of [ada; bob]) = true
  /\ parseCSV (convertToCSV (map summary_of [ada; bob])) = map summary_of [ada; bob].
Proof.
  split; [vm_compute; reflexivity |].
  apply (engine_rows_survive_export [ada; bob]). vm_compute. reflexivity.
Defined.

(** ** The sign-up statements on an example *)

Lemma addUser_then_find_witness :
  let E := browser baseline_new (always true) roomy in
  let carol := {| UserObject.name := Some "Carol"; UserObject.email := "carol@x.test";
                  UserObject.password := Some "secret3";
                  UserObject.gender := Some "female"; UserObject.year := Some "1990";
                  UserObject.country := Some "Norway"; UserObject.avatar := None |} in
  exists r,
    result (addUser E carol) fresh = Ret (Some r)
    /\ result (findUserByEmail E "carol@x.test") (after (addUser E carol) fresh)
       = Ret (Some r).
Proof.
  intros E carol.
  assert (Hfits : never_full E) by (intros s; reflexivity).
  assert (Hnet : steady E) by (intros n m; reflexivity).
  destruct (addUser_then_find E carol fresh Hfits Hnet)
    as [(r & Hres & _ & _ & _ & _ & Hfind) | (found & Hres & _)].
  - exists r. split; [exact Hres | exact Hfind].
  - vm_compute in Hres. discriminate Hres.
Defined.

Lemma addUser_then_login_witness :
  let E := browser baseline_new (always true) roomy in
  let carol := {| UserObject.name := Some "Carol"; UserObject.email := "carol@x.test";
                  UserObject.password := Some "secret3";
                  UserObject.gender := Some "female"; UserObject.year := Some "1990";
                  UserObject.country := Some "Norway"; UserObject.avatar := None |} in
  exists r,
    result (addUser E carol) fresh = Ret (Some r)
    /\ result (validateLogin E "carol@x.test" "secret3") (after (addUser E carol) fresh)
       = Ret {| success := true; user := Some (obj_remove "password" r); error := None |}.
Proof.
  intros E carol.
  assert (Hfits : never_full E) by (intros s; reflexivity).
  assert (Hnet : steady E) by (intros n m; reflexivity).
  eexists. split; [vm_compute; reflexivity |].
  apply (addUser_then_login E carol fresh _ "secret3" Hfits Hnet);
    [vm_compute; reflexivity | reflexivity].
Defined.

Lemma initializeAdminUser_establishes_witness :
  let E := browser "" (always false) roomy in
  exists admin,
    result (findUserByEmail E "admin") (after (initializeAdminUser E) fresh)
    = Ret (Some admin).
Proof.
  intros E.
  assert (Hfits : never_full E) by (intros s; reflexivity).
  assert (Hnet : steady E) by (intros n m; reflexivity).
  exact (proj1 (initializeAdminUser_establishes E fresh Hfits Hnet)).
Defined.

(** ** The export of the detail records *)

Lemma mapM_loadUserJson_run (entries : list (string * string)) (w : World) :
  mapM (fun entry => loadUserJson (fst entry)) entries w
  = (Ret (map (fun entry => load (fst entry) (ls w)) entries), w).
Proof.
  induction entries as [|entry rest IH]; [reflexivity |].
  cbn [mapM map].
  rewrite (bind_ret_run _ _ _ _ _ (loadUserJson_load (fst entry) w)).
  rewrite (bind_ret_run _ _ _ _ _ IH). reflexivity.
Qed.

Lemma getAllUserJsonFiles_run
    (entries_of : gmap string string -> list (string * string)) (w : World) :
  getAllUserJsonFiles entries_of w
  = (Ret (omap (fun entry => load (fst entry) (ls w))
            (entries_of (default ∅ (user_files (ls w))))), w).
Proof.
  unfold getAllUserJsonFiles. apply try_catch_ret_run.
  assert (Hfiles : stored_user_files w = (Ret (default ∅ (user_files (ls w))), w))
    by reflexivity.
  rewrite (bind_ret_run _ _ _ _ _ Hfiles).
  rewrite (bind_ret_run _ _ _ _ _ (mapM_loadUserJson_run _ w)).
  unfold ret. do 2 f_equal.
  induction (entries_of (default ∅ (user_files (ls w)))) as [|entry rest IH];
    [reflexivity |].
  cbn [map]. 
  change (omap id (load entry.1 (ls w) :: map (fun e => load e.1 (ls w)) rest))
    with (match load entry.1 (ls w) with
          | Some d => d :: omap id (map (fun e => load e.1 (ls w)) rest)
          | None => omap id (map (fun e => load e.1 (ls w)) rest)
          end).
  rewrite IH. reflexivity.
Qed.

Lemma getAllUserJsonFiles_elem_of
    (entries_of : gmap string string -> list (string * string)) (w : World)
    (d : UserData) :
  (forall m, entries_of m ≡ₚ map_to_list m) ->
  d ∈ omap (fun entry => load (fst entry) (ls w))
        (entries_of (default ∅ (user_files (ls w))))
  <-> exists name, is_Some (default ∅ (user_files (ls w)) !! name)
                   /\ load name (ls w) = Some d.
Proof.
  intros Hentries. rewrite list_elem_of_omap. split.
  - intros ([name file] & Hin & Hload). exists name. split; [|exact Hload].
    rewrite (Hentries _) in Hin. apply elem_of_map_to_list in Hin. eauto.
  - intros (name & [file Hfile] & Hload). exists (name, file). split; [|exact Hload].
    rewrite (Hentries _). now apply elem_of_map_to_list.
Qed.

Lemma omap_length_le {A B} (f : A -> option B) (l : list A) :
  length (omap f l) <= length l.
Proof.
  induction l as [|x rest IH]; [reflexivity |].
  change (omap f (x :: rest))
    with (match f x with Some y => y :: omap f rest | None => omap f rest end).
  destruct (f x); simpl; lia.
Qed.

(** X22: the export of the detail records reads only: it leaves the browser
    state as it was and answers the records found under the keys of the
    names in the name table, so a record is listed exactly when some name of
    the table loads it, and never more records than the table has names;
    this holds in whatever order the browser lists the table. *)
Theorem getAllUserJsonFiles_lists
    (entries_of : gmap string string -> list (string * string)) (w : World)
    (Hentries : forall m, entries_of m ≡ₚ map_to_list m) :
  exists records,
    getAllUserJsonFiles entries_of w = (Ret records, w)
    /\ (forall d, d ∈ records
                  <-> exists name, is_Some (default ∅ (user_files (ls w)) !! name)
                                   /\ load name (ls w) = Some d)
    /\ length records <= size (default ∅ (user_files (ls w))).
Proof.
  eexists. split; [apply getAllUserJsonFiles_run |]. split.
  - intros d. now apply getAllUserJsonFiles_elem_of.
  - etransitivity; [apply omap_length_le |].
    rewrite (Hentries _). now rewrite length_map_to_list.
Qed.

Lemma getAllUserJsonFiles_lists_witness :
  let E := browser "" (always false) roomy in
  let w := syncUser E (mkCall bob None None) (syncUser E (mkCall ada None None) fresh) in
  exists records,
    getAllUserJsonFiles map_to_list w = (Ret records, w)
    /\ detail_of ada ∈ records /\ detail_of bob ∈ records /\ length records <= 2.
Proof.
  intros E w.
  destruct (getAllUserJsonFiles_lists map_to_list w (fun m => reflexivity (map_to_list m)))
    as (records & Hrun & Hin & Hlen).
  exists records. split; [exact Hrun |]. split; [|split].
  - apply Hin. exists "Ada Lovelace". split; [|vm_compute; reflexivity].
    exists "ada_lovelace". vm_compute. reflexivity.
  - apply Hin. exists "Bob". split; [|vm_compute; reflexivity].
    exists "bob". vm_compute. reflexivity.
  - etransitivity; [exact Hlen |]. vm_compute. reflexivity.
Defined.

Section Listed.

Variable E : Env.

Lemma assign_entry_lookup (name fileName : string) (userFiles : gmap string string) :
  name <> "__proto__" -> assign_entry name fileName userFiles !! name = Some fileName.
Proof.
  intros Hname. unfold assign_entry.
  destruct (String.eqb_spec name "__proto__") as [Heq | _]; [contradiction |].
  apply lookup_insert_eq.
Qed.

Lemma saveUserJson_true_files name d oldName w :
  name <> "__proto__" ->
  result (saveUserJson E name d oldName) w = Ret true ->
  default ∅ (user_files (ls (after (saveUserJson E name d oldName) w))) !! name
  = Some (getFileName name).
Proof.
  intros Hname.
  unfold result, after, saveUserJson, try_catch, bind,
    stored_user_files, setItem, removeItem, getItem, ret.
  destruct (Js.truthy oldName && negb (Js.strict_eq oldName (Some name))); simpl;
    repeat (match goal with
            | |- context [quota E ?s] => destruct (quota E s) eqn:?; simpl
            end);
    try discriminate; intros _; now apply assign_entry_lookup.
Qed.

Lemma sync_summary_detail_side email csvData oldImagePath jsonSaved w :
  let w' := after (sync_summary E email csvData oldImagePath jsonSaved) w in
  user_files (ls w') = user_files (ls w) /\ user_json (ls w') = user_json (ls w).
Proof.
  pose proof (keeps_sync_summary E
                (fun s s' => user_files s' = user_files s /\ user_json s' = user_json s))
    as H.
  apply H; try (intros; split; reflexivity).
  intros s1 s2 s3 [H12 H12'] [H23 H23']. split; congruence.
Qed.

Lemma saved_profile_stored (p : UserData) (oldName oldImagePath : option string)
    (w : World) :
  key_name p <> "__proto__" ->
  result (saveUserDataDual E p oldName oldImagePath) w = Ret true ->
  let w' := after (saveUserDataDual E p oldName oldImagePath) w in
  default ∅ (user_files (ls w')) !! key_name p = Some (getFileName (key_name p))
  /\ load (key_name p) (ls w') = Some (detail_of p).
Proof.
  intros Hname Hsaved w'. subst w'.
  destruct (valid p) eqn:Hvalid.
  - destruct (dual_run E p oldName oldImagePath w Hvalid) as (b & Hb & Hafter & Hres).
    simpl in Hafter, Hres. rewrite Hres in Hsaved.
    assert (Hflag : b = true).
    { destruct (sync_summary_result E (key_email p) (summary_of p) oldImagePath b
                  (after (saveUserJson E (key_name p) (detail_of p) oldName) w))
        as [Hr | Hr]; rewrite Hr in Hsaved; congruence. }
    subst b. rewrite Hafter.
    destruct (sync_summary_detail_side (key_email p) (summary_of p) oldImagePath true
                (after (saveUserJson E (key_name p) (detail_of p) oldName) w))
      as [Hfiles Hjson].
    unfold load. rewrite Hfiles, Hjson. split.
    + now apply saveUserJson_true_files.
    + rewrite (proj1 (saveUserJson_true E _ _ _ _ Hb)). apply load_moved_new.
  - unfold result in Hsaved.
    rewrite (saveUserDataDual_invalid E p oldName oldImagePath w Hvalid) in Hsaved.
    discriminate.
Qed.

End Listed.

(** X23: a profile the engine reports as saved, under a name other than
    [__proto__], is in the export of the detail records right after the
    call, in the form the engine stores it, in any environment. (For the
    name [__proto__] the assignment to the name table creates no entry.) *)
Theorem saved_profile_is_listed (E : Env)
    (entries_of : gmap string string -> list (string * string))
    (p : UserData) (oldName oldImagePath : option string) (w : World)
    (Hentries : forall m, entries_of m ≡ₚ map_to_list m)
    (Hname : key_name p <> "__proto__")
    (Hsaved : result (saveUserDataDual E p oldName oldImagePath) w = Ret true) :
  let w' := after (saveUserDataDual E p oldName oldImagePath) w in
  exists records,
    getAllUserJsonFiles entries_of w' = (Ret records, w')
    /\ detail_of p ∈ records.
Proof.
  intros w'. eexists. split; [apply getAllUserJsonFiles_run |].
  apply (getAllUserJsonFiles_elem_of entries_of w' (detail_of p) Hentries).
  destruct (saved_profile_stored E p oldName oldImagePath w Hname Hsaved)
    as [Hentry Hload].
  exists (key_name p). split; [|exact Hload].
  fold w' in Hentry. rewrite Hentry. eauto.
Qed.

Lemma saved_profile_is_listed_witness :
  let E := browser baseline_new (always true) roomy in
  let w' := after (saveUserDataDual E ada None None) fresh in
  exists records,
    getAllUserJsonFiles map_to_list w' = (Ret records, w')
    /\ detail_of ada ∈ records.
Proof.
  intros E.
  apply (saved_profile_is_listed E map_to_list ada None None fresh
           (fun m => reflexivity (map_to_list m))).
  - discriminate.
  - vm_compute. reflexivity.
Defined.

(** ** The authentication service: the address check *)

Lemma regex_test_end (s : string) :
  regex_test s [] = true <-> s = "".
Proof. destruct s; simpl; split; intros H; try reflexivity; discriminate. Qed.

Lemma regex_test_one (class : ascii -> bool) (rest : list regex_item) (s : string) :
  regex_test s (One class :: rest) = true
  <-> exists c s', s = String c s' /\ class c = true /\ regex_test s' rest = true.
Proof.
  destruct s as [|c r]; simpl; split.
  - discriminate.
  - intros (c & s' & H & _). discriminate.
  - intros H. apply andb_prop in H as [Hc Hr]. now exists c, r.
  - intros (c' & s' & [= <- <-] & Hc & Hr). now rewrite Hc, Hr.
Qed.

Lemma regex_test_plus (class : ascii -> bool) (rest : list regex_item) (s : string) :
  regex_test s (Plus class :: rest) = true
  <-> exists a s',
        s = a ++ s' /\ a <> "" /\ all_chars_in class a = true
        /\ regex_test s' rest = true.
Proof.
  induction s as [|c r IH]; split.
  - discriminate.
  - intros (a & s' & H & Hne & _). destruct a; [contradiction | discriminate].
  - simpl. intros H. apply andb_prop in H as [Hc Hr].
    apply orb_prop in Hr as [Hr | Hr].
    + exists (String c ""), r. simpl. rewrite Hc. now repeat split.
    + apply IH in Hr as (a & s' & -> & _ & Ha & Hr).
      exists (String c a), s'. simpl. rewrite Hc, Ha. now repeat split.
  - intros (a & s' & H & Hne & Ha & Hr).
    destruct a as [|c' a']; [contradiction |].
    rewrite append_cons in H. injection H as <- ->.
    simpl in Ha. apply andb_prop in Ha as [Hc Ha].
    cbn [regex_test]. rewrite Hc. simpl.
    destruct a' as [|c'' a''].
    + rewrite append_empty. now rewrite Hr.
    + apply orb_true_iff. right. apply IH.
      exists (String c'' a''), s'. now repeat split.
Qed.

(** X24: [isValidEmail] accepts exactly the strings made of a non-empty
    local part, one [@], a non-empty part, a dot and a non-empty last part,
    none of the three parts holding white space or an [@]. *)
Theorem isValidEmail_shape (email : string) :
  isValidEmail email = true <-> email_shape email.
Proof.
  unfold isValidEmail, email_shape. rewrite regex_test_plus. split.
  - intros (a & s1 & -> & Ha & Hca & H).
    apply regex_test_one in H as (at_ & s2 & -> & Hat & H).
    apply Ascii.eqb_eq in Hat. subst at_.
    apply regex_test_plus in H as (b & s3 & -> & Hb & Hcb & H).
    apply regex_test_one in H as (dot & s4 & -> & Hdot & H).
    apply Ascii.eqb_eq in Hdot. subst dot.
    apply regex_test_plus in H as (c & s5 & -> & Hc & Hcc & H).
    apply regex_test_end in H. subst s5.
    exists a, b, c. repeat split; try assumption.
    assert (Hnil : forall s : string, s ++ "" = s).
    { intros s. induction s as [|x s IHs]; [reflexivity |].
      rewrite append_cons. now rewrite IHs. }
    now rewrite Hnil.
  - intros (a & b & c & -> & Ha & Hb & Hc & Hca & Hcb & Hcc).
    exists a, ("@" ++ b ++ "." ++ c). repeat split; try assumption.
    apply regex_test_one. exists "@"%char, (b ++ "." ++ c).
    repeat split. apply regex_test_plus.
    exists b, ("." ++ c). repeat split; try assumption.
    apply regex_test_one. exists "."%char, c.
    repeat split. apply regex_test_plus.
    exists c, "". repeat split; try assumption.
    clear. induction c as [|x s IHs]; [reflexivity |].
    rewrite append_cons. now rewrite <- IHs.
Qed.

(** ** The authentication service: registration *)

Section Registration.

Variable url_of : string -> string.
Variable setCurrentUser : option row -> M unit.
Variable E : Env.
Variables name email password confirmPassword gender year country : string.

Lemma acceptable_checks :
  acceptable name email password confirmPassword gender year country = true ->
  (negb (Js.truthy (Some name)) || negb (Js.truthy (Some email))
   || negb (Js.truthy (Some password)) || negb (Js.truthy (Some confirmPassword))
   || negb (Js.truthy (Some gender)) || negb (Js.truthy (Some year))
   || negb (Js.truthy (Some country))) = false
  /\ isValidEmail email = true
  /\ Js.strict_eq (Some password) (Some confirmPassword) = true
  /\ Nat.ltb (String.length password) 6 = false
  /\ Js.truthy (Some name) = true
  /\ Js.truthy (Some email) = true.
Proof.
  unfold acceptable. cbn [forallb]. intros H.
  repeat (apply andb_prop in H as [H ?]).
  repeat match goal with
         | Ht : Js.truthy (Some _) = true |- _ => rewrite Ht; clear Ht
         | Ht : Js.truthy (Some _) && _ = true |- _ => apply andb_prop in Ht as [? ?]
         end.
  repeat split; try assumption; try reflexivity.
  apply Nat.ltb_ge. now apply Nat.leb_le.
Qed.

Lemma registerUser_known (w w1 : World) (ex : Exists) :
  acceptable name email password confirmPassword gender year country = true ->
  checkUserExists E name email w = (Ret ex, w1) ->
  exists_ ex = true ->
  registerUser url_of setCurrentUser E name email password confirmPassword
    gender year country w
  = (Ret (refusal "Account already exists. Please log in instead."), w1).
Proof.
  intros Hok Hcheck Hex. apply acceptable_checks in Hok as (H1 & H2 & H3 & H4 & _).
  unfold registerUser. rewrite H1, H2, H3, H4. cbn [negb].
  rewrite (bind_ret_run _ _ _ _ _ Hcheck). now rewrite Hex.
Qed.

Lemma registerUser_steps (w w1 w2 w3 : World) (ex : Exists) (file : string)
    (saved : bool) :
  acceptable name email password confirmPassword gender year country = true ->
  session_write_ok setCurrentUser ->
  checkUserExists E name email w = (Ret ex, w1) ->
  exists_ ex = false ->
  getRandomAvatarFile E (Some gender) w1 = (Ret file, w2) ->
  file <> "" ->
  saveUserDataDual E
    (registration_data name email password gender year country ("Faces/" ++ file))
    None None w2 = (Ret saved, w3) ->
  if saved then
    exists w5,
      registerUser url_of setCurrentUser E name email password confirmPassword
        gender year country w
      = (Ret {| success := true;
                user := Some [ ("email", email); ("name", name); ("gender", gender);
                               ("year", year); ("country", country); ("avatar", file);
                               ("avatarUrl", getAvatarUrl url_of (Some file)) ];
                error := None |}, w5)
      /\ ls w5 = ls w3
  else
    registerUser url_of setCurrentUser E name email password confirmPassword
      gender year country w
    = (Ret (refusal "Failed to create account. Please try again."), w3).
Proof.
  intros Hok Hsession Hcheck Hex Hdraw Hfile Hsave.
  apply acceptable_checks in Hok as (H1 & H2 & H3 & H4 & _).
  unfold registerUser. rewrite H1, H2, H3, H4. cbn [negb].
  rewrite (bind_ret_run _ _ _ _ _ Hcheck). rewrite Hex.
  rewrite (bind_ret_run _ _ _ _ _ Hdraw). cbv zeta.
  rewrite (bind_ret_run _ _ _ _ _ Hsave).
  destruct saved; cbn [negb]; [|reflexivity].
  match goal with
  | |- context [withAvatarMetadata url_of E (Some ?r)] =>
      destruct (withAvatarMetadata_run url_of E r w3) as (file' & w4 & Hmeta & _ & Hkeep)
  end.
  assert (Htruthy : Js.truthy (Some file) = true) by now apply truthy_nonempty.
  destruct (Hkeep Htruthy) as [Hsame ->]. injection Hsame as <-.
  rewrite (bind_ret_run _ _ _ _ _ Hmeta).
  match goal with
  | |- context [setCurrentUser ?v] => destruct (Hsession v w3) as (w5 & Hset & Hls)
  end.
  rewrite (bind_ret_run _ _ _ _ _ Hset).
  exists w5. split; [reflexivity | exact Hls].
Qed.

End Registration.

Lemma find_none_all {A} (p : A -> bool) (l : list A) :
  List.find p l = None <-> forall x, In x l -> p x = false.
Proof.
  split; [apply find_none |].
  induction l as [|x rest IH]; intros H; [reflexivity |].
  simpl. rewrite (H x (or_introl eq_refl)). apply IH.
  intros y Hy. apply H. now right.
Qed.

Lemma find_merge_none (p : row -> bool) (users cachedUsers : list row) :
  List.find p users = None ->
  List.find p cachedUsers = None ->
  List.find p (merge_users users cachedUsers) = None.
Proof.
  rewrite !find_none_all. intros Hu Hc x Hx.
  rewrite merge_users_added in Hx. apply in_app_or in Hx as [Hx | Hx]; [now apply Hu |].
  apply Hc. apply list_elem_of_In.
  eapply elem_of_sublist; [|apply merge_added_sublist]. apply list_elem_of_In. exact Hx.
Qed.

Lemma find_prefix_none {A} (p : A -> bool) (l more : list A) :
  List.find p (l ++ more)%list = None -> List.find p l = None.
Proof.
  rewrite !find_none_all. intros H x Hx. apply H. apply in_or_app. now left.
Qed.

Lemma registration_data_keys
    (name email password gender year country picture : string) :
  Js.truthy (Some name) = true -> Js.truthy (Some email) = true ->
  let data := registration_data name email password gender year country picture in
  valid data = true /\ key_name data = name /\ key_email data = email.
Proof.
  intros Hn He data. subst data.
  unfold valid, key_name, key_email, fullName_of, email_of, registration_data, Js.or_else.
  cbn [full_name email_address]. rewrite Hn, He. cbv iota. rewrite Hn, He.
  repeat split.
Qed.

Section RegistrationOutcomes.

Variable url_of : string -> string.
Variable setCurrentUser : option row -> M unit.
Variable E : Env.
Variables name email password confirmPassword gender year country : string.

Lemma registerUser_bad_input (w : World) :
  acceptable name email password confirmPassword gender year country = false ->
  exists message,
    registerUser url_of setCurrentUser E name email password confirmPassword
      gender year country w
    = (Ret (refusal message), w).
Proof.
  unfold acceptable, registerUser. cbn [forallb]. intros Hbad.
  repeat match goal with
         | |- context [Js.truthy (Some ?v)] =>
             destruct (Js.truthy (Some v)); cbn [negb orb andb] in *;
             [|eexists; reflexivity]
         end.
  destruct (isValidEmail email); cbn [negb andb] in *; [|eexists; reflexivity].
  cbn [Js.strict_eq].
  destruct (String.eqb password confirmPassword); cbn [negb andb] in *;
    [|eexists; reflexivity].
  apply Nat.leb_gt in Hbad. apply Nat.ltb_lt in Hbad. rewrite Hbad.
  eexists; reflexivity.
Qed.

Lemma checkUserExists_run (w : World) :
  exists byName byEmail w1 w2,
    findUserByName E name w = (Ret byName, w1)
    /\ findUserByEmail E email w1 = (Ret byEmail, w2)
    /\ checkUserExists E name email w
       = (Ret {| exists_ := bool_decide (is_Some byName) || bool_decide (is_Some byEmail);
                 byName := bool_decide (is_Some byName);
                 byEmail := bool_decide (is_Some byEmail) |}, w2).
Proof.
  destruct (returns_findUserByName E name w) as [a Ha]. unfold result in Ha.
  destruct (findUserByName E name w) as [o w1] eqn:H1. simpl in Ha. subst o.
  destruct (returns_findUserByEmail E email w1) as [b Hb]. unfold result in Hb.
  destruct (findUserByEmail E email w1) as [o w2] eqn:H2. simpl in Hb. subst o.
  exists a, b, w1, w2. split; [reflexivity |]. split; [exact H2 |].
  unfold checkUserExists. rewrite (bind_ret_run _ _ _ _ _ H1).
  now rewrite (bind_ret_run _ _ _ _ _ H2).
Qed.

Lemma keeps_adapter_check : keeps only_csv_users (checkUserExists E name email).
Proof.
  apply keeps_bind; [exact only_csv_users_trans | |].
  - apply keeps_findUserByName;
      [exact only_csv_users_refl | exact only_csv_users_trans | exact only_csv_users_write].
  - intros a. apply keeps_bind; [exact only_csv_users_trans | apply keeps_adapter_find |].
    intros b. apply keeps_ret. exact only_csv_users_refl.
Qed.

End RegistrationOutcomes.

(** X25: [registerUser] refuses form values that miss a field, carry an
    address [isValidEmail] rejects, two passwords that differ or a password
    of fewer than six characters, and it refuses them before it looks
    anything up: the browser state is the one it started from, and the
    session is not written. *)
Theorem registerUser_refuses_bad_input (url_of : string -> string)
    (setCurrentUser : option row -> M unit) (E : Env)
    (name email password confirmPassword gender year country : string) (w : World)
    (Hbad : acceptable name email password confirmPassword gender year country = false) :
  exists message,
    registerUser url_of setCurrentUser E name email password confirmPassword
      gender year country w
    = (Ret (refusal message), w).
Proof.
  exact (registerUser_bad_input url_of setCurrentUser E name email password
           confirmPassword gender year country w Hbad).
Qed.

Lemma registerUser_refuses_bad_input_witness :
  let E := browser baseline_new (always true) roomy in
  acceptable "Admin" "admin" "secret" "secret" "male" "1990" "Bangladesh" = false
  /\ exists message,
       registerUser id (fun _ => throw) E "Admin" "admin" "secret" "secret"
         "male" "1990" "Bangladesh" fresh
       = (Ret (refusal message), fresh).
Proof.
  intros E. split; [vm_compute; reflexivity |].
  apply (registerUser_refuses_bad_input id (fun _ => throw) E "Admin" "admin" "secret"
           "secret" "male" "1990" "Bangladesh" fresh).
  vm_compute. reflexivity.
Defined.

(** X26: when the form values pass the checks and [checkUserExists] reports
    a row with the name or with the address, [registerUser] refuses with the
    message of an existing account; it has then done nothing but that
    look-up, so no detail record, file index entry or deletion mark has been
    written, and the session is not written either. *)
Theorem registerUser_refuses_known_account (url_of : string -> string)
    (setCurrentUser : option row -> M unit) (E : Env)
    (name email password confirmPassword gender year country : string) (w : World)
    (known : Exists)
    (Hok : acceptable name email password confirmPassword gender year country = true)
    (Hcheck : result (checkUserExists E name email) w = Ret known)
    (Hknown : exists_ known = true) :
  let register :=
    registerUser url_of setCurrentUser E name email password confirmPassword
      gender year country in
  register w
  = (Ret (refusal "Account already exists. Please log in instead."),
     after (checkUserExists E name email) w)
  /\ only_csv_users (ls w) (ls (after register w)).
Proof.
  intros register.
  destruct (checkUserExists E name email w) as [o w1] eqn:Hrun.
  unfold result in Hcheck. rewrite Hrun in Hcheck. simpl in Hcheck. subst o.
  pose proof (registerUser_known url_of setCurrentUser E name email password
                confirmPassword gender year country w w1 known Hok Hrun Hknown) as Hreg.
  split.
  - unfold after. rewrite Hrun. exact Hreg.
  - unfold after. subst register. rewrite Hreg. simpl.
    pose proof (keeps_adapter_check E name email w) as Hkeep.
    unfold after in Hkeep. now rewrite Hrun in Hkeep.
Qed.

Lemma registerUser_refuses_known_account_witness :
  let E := browser baseline_new (always true) roomy in
  let register :=
    registerUser id (fun _ => throw) E "ada lovelace" "ada@other.test" "secret1" "secret1"
      "female" "1815" "UK" in
  result register fresh = Ret (refusal "Account already exists. Please log in instead.")
  /\ user_json (ls (after register fresh)) = ∅.
Proof.
  intros E register.
  destruct (registerUser_refuses_known_account id (fun _ => throw) E "ada lovelace"
              "ada@other.test" "secret1" "secret1" "female" "1815" "UK" fresh
              {| exists_ := true; byName := true; byEmail := false |})
    as [Hreg Hkeep]; [vm_compute; reflexivity .. |].
  split.
  - unfold result. fold register in Hreg. now rewrite Hreg.
  - exact (proj1 Hkeep).
Defined.

(** ** Registration, then login *)

Lemma findUserByEmail_offline (E : Env) (email : string) (w : World) :
  online E (tick w) = false ->
  findUserByEmail E email w
  = (Ret (List.find (email_matches email) (stored_rows (ls w))),
     {| ls := ls w; tick := S (tick w) |}).
Proof.
  intros Hoff. unfold findUserByEmail.
  now rewrite (bind_ret_run _ _ _ _ _ (readCSV_offline E w Hoff)).
Qed.

Lemma run_pair {A} (m : M A) (w : World) : m w = (result m w, after m w).
Proof. unfold result, after. now destruct (m w). Qed.

(** X27: with a storage that takes every write, the baseline out of reach
    and a session write that succeeds, form values that pass the checks and
    meet no existing account are registered: the answer carries the address,
    the name and a catalog avatar, the detail record is stored under the key
    of the name, and a login with the address and the password succeeds
    right away and answers the summary row without its password. *)
Theorem registerUser_then_login (url_of : string -> string)
    (setCurrentUser : option row -> M unit) (E : Env)
    (name email password confirmPassword gender year country : string) (w : World)
    (unknown : Exists)
    (Hfits : never_full E)
    (Hoff : forall n, online E n = false)
    (Hsession : session_write_ok setCurrentUser)
    (Hok : acceptable name email password confirmPassword gender year country = true)
    (Hcheck : result (checkUserExists E name email) w = Ret unknown)
    (Hnew : exists_ unknown = false) :
  let register :=
    registerUser url_of setCurrentUser E name email password confirmPassword
      gender year country in
  exists file,
    let data :=
      registration_data name email password gender year country ("Faces/" ++ file) in
    result register w
    = Ret {| success := true;
             user := Some [ ("email", email); ("name", name); ("gender", gender);
                            ("year", year); ("country", country); ("avatar", file);
                            ("avatarUrl", getAvatarUrl url_of (Some file)) ];
             error := None |}
    /\ is_Some (catalog_gender file)
    /\ load name (ls (after register w)) = Some (detail_of data)
    /\ result (validateLogin E email password) (after register w)
       = Ret {| success := true;
                user := Some (obj_remove "password" (summary_of data));
                error := None |}.
Proof.
  intros register.
  assert (Hnet : steady E) by (intros n m; now rewrite !Hoff).
  destruct (checkUserExists E name email w) as [o w1] eqn:Hrun.
  unfold result in Hcheck. rewrite Hrun in Hcheck. simpl in Hcheck. subst o.
  destruct (getRandomAvatarFile_draw E (Some gender) w1) as (file & Hdraw & Hfile & Hcat & _).
  set (w2 := {| ls := ls w1; tick := S (tick w1) |}) in *.
  exists file. intros data.
  destruct (acceptable_checks name email password confirmPassword gender year country Hok)
    as (_ & _ & _ & _ & Hn & He).
  destruct (registration_data_keys name email password gender year country
              ("Faces/" ++ file) Hn He) as (Hvalid & Hkn & Hke).
  fold data in Hvalid, Hkn, Hke.
  destruct (saveUserDataDual_post E data None None w2 Hfits Hnet Hvalid)
    as (Hres & Hjson & Hfind).
  pose proof (run_pair (saveUserDataDual E data None None) w2) as Hsave.
  rewrite Hres in Hsave.
  set (w3 := after (saveUserDataDual E data None None) w2) in *.
  destruct (registerUser_steps url_of setCurrentUser E name email password
              confirmPassword gender year country w w1 w2 w3 unknown file true
              Hok Hsession Hrun Hnew Hdraw Hfile Hsave) as (w5 & Hreg & Hls).
  fold register in Hreg.
  unfold result, after. rewrite Hreg. cbn [fst snd].
  split; [reflexivity |]. split; [exact Hcat |]. split.
  - unfold load. rewrite Hls, Hjson, Hkn. apply load_moved_new.
  - pose proof (findUserByEmail_offline E email w5 (Hoff _)) as Hlookup.
    unfold stored_rows in Hlookup. rewrite Hls in Hlookup.
    rewrite Hke in Hfind. unfold stored_rows in Hfind. rewrite Hfind in Hlookup.
    rewrite (validateLogin_run E email password _ _ _ Hlookup).
    cbn [fst]. f_equal.
    assert (Hpw : obj_get "password" (summary_of data) = Some password) by reflexivity.
    rewrite Hpw. cbn [Js.strict_eq]. now rewrite String.eqb_refl.
Qed.

Lemma registerUser_then_login_witness :
  let E := browser baseline_new (always false) roomy in
  let register :=
    registerUser id (fun _ => ret tt) E "Bob" "bob@x.test" "secret2" "secret2"
      "male" "1990" "Norway" in
  exists file,
    result register fresh
    = Ret {| success := true;
             user := Some [ ("email", "bob@x.test"); ("name", "Bob"); ("gender", "male");
                            ("year", "1990"); ("country", "Norway"); ("avatar", file);
                            ("avatarUrl", getAvatarUrl id (Some file)) ];
             error := None |}
    /\ result (validateLogin E "bob@x.test" "secret2") (after register fresh)
       = Ret {| success := true;
                user := Some (obj_remove "password"
                                (summary_of (registration_data "Bob" "bob@x.test" "secret2"
                                               "male" "1990" "Norway" ("Faces/" ++ file))));
                error := None |}.
Proof.
  intros E register.
  assert (Hfits : never_full E) by (intros s; reflexivity).
  assert (Hoff : forall n, online E n = false) by reflexivity.
  assert (Hsession : session_write_ok (fun _ : option row => ret tt))
    by (intros v w; now exists w).
  destruct (registerUser_then_login id (fun _ => ret tt) E "Bob" "bob@x.test" "secret2"
              "secret2" "male" "1990" "Norway" fresh
              {| exists_ := false; byName := false; byEmail := false |}
              Hfits Hoff Hsession)
    as (file & Hreg & _ & _ & Hlogin); [vm_compute; reflexivity .. |].
  exists file. split; [exact Hreg | exact Hlogin].
Defined.

(** ** A row appended while the baseline is within reach *)

Lemma appended_row_lost (E : Env) (p : UserData) (oldName oldImagePath : option string)
    (w : World) :
  never_full E ->
  (forall n, online E n = true) ->
  valid p = true ->
  (exists r, In r (parseCSV (d_csv E)) /\ obj_get "email" r = None) ->
  List.find (email_matches (key_email p)) (parseCSV (d_csv E)) = None ->
  List.find (email_matches (key_email p)) (stored_rows (ls w)) = None ->
  exists w',
    saveUserDataDual E p oldName oldImagePath w = (Ret true, w')
    /\ In (summary_of p) (stored_rows (ls w'))
    /\ forall w'', ls w'' = ls w' ->
         exists w3, findUserByEmail E (key_email p) w'' = (Ret None, w3).
Proof.
  intros Hfits Hon Hvalid (r & Hr & Hremail) HB Hstored.
  assert (Hnet : steady E) by (intros n m; now rewrite !Hon).
  destruct (dual_run E p oldName oldImagePath w Hvalid) as (b & Hb & Hafter & Hres).
  cbv zeta in Hb, Hafter, Hres.
  rewrite (saveUserJson_fits E _ _ _ w Hfits) in Hb. injection Hb as <-.
  set (w1 := after (saveUserJson E (key_name p) (detail_of p) oldName) w) in *.
  assert (Hrows1 : stored_rows (ls w1) = stored_rows (ls w)).
  { unfold stored_rows, w1. now rewrite saveUserJson_csv_users. }
  destruct (sync_summary_rows E (key_email p) (summary_of p) oldImagePath true w1
              Hfits Hnet)
    as (first & second & wa & wb & w' & Hr1 & Hr2 & Hsync & Hcases).
  destruct (readCSV_twice E w1 Hfits Hnet)
    as (first' & second' & wa' & wb' & Hr1' & Hr2' & Hkeys).
  rewrite Hr1 in Hr1'. injection Hr1' as <- <-.
  rewrite Hr2 in Hr2'. injection Hr2' as <- <-.
  destruct (readCSV_online E w1 Hfits (Hon _)) as (merged & w0 & Hr0 & Hm & _).
  rewrite Hr1 in Hr0. injection Hr0 as <- <-.
  assert (Hfirst : List.find (email_matches (key_email p)) first = None).
  { eapply find_none_same_keys; [exact Hm |].
    apply find_merge_none; [exact HB | now rewrite Hrows1]. }
  assert (Hsecond : List.find (email_matches (key_email p)) second = None)
    by exact (find_none_same_keys _ _ _ Hkeys Hfirst).
  destruct Hcases as [(i & Hi & _) | (_ & Hst)].
  { apply find_findIndex in Hsecond. congruence. }
  exists w'. split; [|split].
  - rewrite (run_pair (saveUserDataDual E p oldName oldImagePath) w).
    rewrite Hres, Hafter. unfold result, after. now rewrite Hsync.
  - rewrite Hst. apply in_or_app. right. now left.
  - intros w'' Hls.
    destruct (readCSV_online E w'' Hfits (Hon _)) as (merged3 & w3 & Hr3 & Hm3 & _).
    exists w3. unfold findUserByEmail. rewrite (bind_ret_run _ _ _ _ _ Hr3).
    unfold ret. do 2 f_equal.
    eapply find_none_same_keys; [exact Hm3 |].
    unfold stored_rows. rewrite Hls. fold (stored_rows (ls w')). rewrite Hst.
    rewrite merge_users_snoc, merge_step_seen.
    assert (Hseen : seen_in (map legacy_email (merge_users (parseCSV (d_csv E)) second))
                      (legacy_email (summary_of p)) = true).
    { apply seen_in_In. change (legacy_email (summary_of p)) with (@None string).
      rewrite merge_users_added, map_app. apply in_or_app. left.
      apply in_map_iff. exists r. split; [exact Hremail | exact Hr]. }
    rewrite Hseen. now apply find_merge_none.
Qed.

(** X28: with a storage that takes every write and a baseline within reach
    that holds a row without the legacy [email] property (any row of a
    baseline in the current format), a valid payload whose address matches
    no baseline row and no cached row is saved, the engine reports success
    and its summary row is in the local layer; yet the very next look-up by
    that address finds nothing, so a login with the address is refused
    whatever the password. *)
Theorem appended_row_lost_online (E : Env) (p : UserData)
    (oldName oldImagePath : option string) (w : World) (password : string)
    (Hfits : never_full E)
    (Hon : forall n, online E n = true)
    (Hvalid : valid p = true)
    (Hbase : exists r, In r (parseCSV (d_csv E)) /\ obj_get "email" r = None)
    (Hnew_base : List.find (email_matches (key_email p)) (parseCSV (d_csv E)) = None)
    (Hnew_cache : List.find (email_matches (key_email p)) (stored_rows (ls w)) = None) :
  let w' := after (saveUserDataDual E p oldName oldImagePath) w in
  result (saveUserDataDual E p oldName oldImagePath) w = Ret true
  /\ In (summary_of p) (stored_rows (ls w'))
  /\ result (findUserByEmail E (key_email p)) w' = Ret None
  /\ result (validateLogin E (key_email p) password) w' = Ret login_refused.
Proof.
  intros w'.
  destruct (appended_row_lost E p oldName oldImagePath w Hfits Hon Hvalid Hbase
              Hnew_base Hnew_cache) as (w1 & Hsave & Hin & Hlost).
  subst w'. unfold result at 1, after. rewrite Hsave. cbn [fst snd].
  destruct (Hlost w1 eq_refl) as (w3 & Hlook).
  split; [reflexivity |]. split; [exact Hin |]. split.
  - unfold result. now rewrite Hlook.
  - unfold result. now rewrite (validateLogin_run E _ password _ _ _ Hlook).
Qed.

Lemma appended_row_lost_online_witness :
  let E := browser baseline_new (always true) roomy in
  let w' := after (saveUserDataDual E bob None None) fresh in
  result (saveUserDataDual E bob None None) fresh = Ret true
  /\ In (summary_of bob) (stored_rows (ls w'))
  /\ result (findUserByEmail E "bob@x.test") w' = Ret None
  /\ result (validateLogin E "bob@x.test" "secret2") w' = Ret login_refused.
Proof.
  intros E.
  apply (appended_row_lost_online E bob None None fresh "secret2").
  - intros s. reflexivity.
  - intros n. reflexivity.
  - reflexivity.
  - exists [("full_name", "Ada Lovelace"); ("email_address", "ada@x.test");
            ("password", "secret1")].
    split; [vm_compute; now left | reflexivity].
  - vm_compute. reflexivity.
  - reflexivity.
Defined.

(** X29: with a storage that takes every write, a session write that
    succeeds and a baseline within reach that holds a row without the legacy
    [email] property, a registration that [registerUser] answers with
    success leaves the new summary row in the local layer, and a login with
    the registered address and password right after it is refused. *)
Theorem registered_user_cannot_login_online (url_of : string -> string)
    (setCurrentUser : option row -> M unit) (E : Env)
    (name email password confirmPassword gender year country : string) (w : World)
    (answer : LoginResult)
    (Hfits : never_full E)
    (Hon : forall n, online E n = true)
    (Hsession : session_write_ok setCurrentUser)
    (Hbase : exists r, In r (parseCSV (d_csv E)) /\ obj_get "email" r = None)
    (Hreg : result (registerUser url_of setCurrentUser E name email password
                      confirmPassword gender year country) w = Ret answer)
    (Hsuccess : success answer = true) :
  let register :=
    registerUser url_of setCurrentUser E name email password confirmPassword
      gender year country in
  (exists file,
     In (summary_of (registration_data name email password gender year country
                       ("Faces/" ++ file)))
        (stored_rows (ls (after register w))))
  /\ result (validateLogin E email password) (after register w) = Ret login_refused.
Proof.
  intros register. fold register in Hreg. unfold result in Hreg.
  destruct (acceptable name email password confirmPassword gender year country) eqn:Hok.
  2:{ destruct (registerUser_bad_input url_of setCurrentUser E name email password
                  confirmPassword gender year country w Hok) as [message Hrun].
      fold register in Hrun. rewrite Hrun in Hreg. injection Hreg as <-. discriminate. }
  destruct (checkUserExists_run E name email w) as (fn & fe & wa & w1 & Hfn & Hfe & Hcheck).
  set (unknown := {| exists_ := bool_decide (is_Some fn) || bool_decide (is_Some fe);
                     byName := bool_decide (is_Some fn);
                     byEmail := bool_decide (is_Some fe) |}) in Hcheck.
  destruct (exists_ unknown) eqn:Hex.
  { pose proof (registerUser_known url_of setCurrentUser E name email password
                  confirmPassword gender year country w w1 unknown Hok Hcheck Hex) as Hrun.
    fold register in Hrun. rewrite Hrun in Hreg. injection Hreg as <-. discriminate. }
  assert (Hfe_none : fe = None).
  { subst unknown. cbn [exists_] in Hex. apply orb_false_elim in Hex as [_ H].
    destruct fe as [found|]; [|reflexivity].
    apply bool_decide_eq_false in H. exfalso. apply H. eauto. }
  clearbody unknown. subst fe.
  destruct (readCSV_online E wa Hfits (Hon _)) as (merged & w1' & Hr & Hm & Hcsv).
  unfold findUserByEmail in Hfe. rewrite (bind_ret_run _ _ _ _ _ Hr) in Hfe.
  injection Hfe as Hfind Hw. subst w1.
  assert (Hstored : stored_rows (ls w1') = merged) by (unfold stored_rows; now rewrite Hcsv).
  assert (Hnew_base : List.find (email_matches email) (parseCSV (d_csv E)) = None).
  { apply (find_prefix_none _ _ (merge_added (map legacy_email (parseCSV (d_csv E)))
                                   (stored_rows (ls wa)))).
    rewrite <- merge_users_added.
    eapply find_none_same_keys; [apply Forall2_same_keys_sym; exact Hm | exact Hfind]. }
  destruct (getRandomAvatarFile_draw E (Some gender) w1') as (file & Hdraw & Hfile & _).
  set (w2 := {| ls := ls w1'; tick := S (tick w1') |}) in *.
  destruct (acceptable_checks name email password confirmPassword gender year country Hok)
    as (_ & _ & _ & _ & Hn & He).
  destruct (registration_data_keys name email password gender year country
              ("Faces/" ++ file) Hn He) as (Hvalid & Hkn & Hke).
  set (data := registration_data name email password gender year country
                 ("Faces/" ++ file)) in *.
  destruct (appended_row_lost E data None None w2 Hfits Hon Hvalid Hbase)
    as (w3 & Hsave & Hin & Hlost).
  { now rewrite Hke. }
  { rewrite Hke. unfold w2. cbn [ls]. now rewrite Hstored. }
  destruct (registerUser_steps url_of setCurrentUser E name email password
              confirmPassword gender year country w w1' w2 w3 unknown file true
              Hok Hsession Hcheck Hex Hdraw Hfile Hsave) as (w5 & Hrun & Hls).
  fold register in Hrun. unfold after. rewrite Hrun. cbn [snd].
  split.
  - exists file. unfold stored_rows. rewrite Hls. exact Hin.
  - destruct (Hlost w5 Hls) as (w6 & Hlook). rewrite Hke in Hlook.
    unfold result. now rewrite (validateLogin_run E _ password _ _ _ Hlook).
Qed.

Lemma registered_user_cannot_login_online_witness :
  let E := browser baseline_new (always true) roomy in
  let register :=
    registerUser id (fun _ => ret tt) E "Bob" "bob@x.test" "secret2" "secret2"
      "male" "1990" "Norway" in
  (exists answer, result register fresh = Ret answer /\ success answer = true)
  /\ result (validateLogin E "bob@x.test" "secret2") (after register fresh)
     = Ret login_refused.
Proof.
  intros E register.
  assert (Hfits : never_full E) by (intros s; reflexivity).
  assert (Hon : forall n, online E n = true) by reflexivity.
  assert (Hsession : session_write_ok (fun _ : option row => ret tt))
    by (intros v w; now exists w).
  assert (Hbase : exists r, In r (parseCSV (d_csv E)) /\ obj_get "email" r = None).
  { exists [("full_name", "Ada Lovelace"); ("email_address", "ada@x.test");
            ("password", "secret1")].
    split; [vm_compute; now left | reflexivity]. }
  assert (Hreg : exists answer, result register fresh = Ret answer /\ success answer = true).
  { exists {| success := true;
              user := Some [ ("email", "bob@x.test"); ("name", "Bob"); ("gender", "male");
                             ("year", "1990"); ("country", "Norway");
                             ("avatar", "09_male_1982.jpg.jpg");
                             ("avatarUrl", "09_male_1982.jpg.jpg") ];
              error := None |}.
    split; [vm_compute; reflexivity | reflexivity]. }
  split; [exact Hreg |].
  destruct Hreg as (answer & Hreg & Hsuccess).
  exact (proj2 (registered_user_cannot_login_online id (fun _ => ret tt) E "Bob"
                  "bob@x.test" "secret2" "secret2" "male" "1990" "Norway" fresh answer
                  Hfits Hon Hsession Hbase Hreg Hsuccess)).
Defined.

(** ** Renaming, and the row the look-up finds *)

Lemma find_at_index {A} (p : A -> bool) (l : list A) (i : nat) :
  findIndex p l = Some i -> List.find p l = l !! i.
Proof.
  revert i. induction l as [|y rest IH]; intros i; simpl; [discriminate |].
  destruct (p y) eqn:Hy.
  - now intros [= <-].
  - destruct (findIndex p rest) as [j|]; simpl; [|discriminate].
    intros [= <-]. simpl. now apply IH.
Qed.

(** One call of the engine with a valid payload while the baseline is out
    of reach and the storage takes every write. *)
Lemma saveUserDataDual_offline (E : Env) (p : UserData)
    (oldName oldImagePath : option string) (w : World) :
  never_full E ->
  (forall n, online E n = false) ->
  valid p = true ->
  let rows := stored_rows (ls w) in
  exists w',
    saveUserDataDual E p oldName oldImagePath w = (Ret true, w')
    /\ match findIndex (email_matches (key_email p)) rows with
       | Some i => stored_rows (ls w') = <[i := summary_of p]> rows
       | None => stored_rows (ls w') = (rows ++ [summary_of p])%list
       end.
Proof.
  intros Hfits Hoff Hvalid rows.
  assert (Hnet : steady E) by (intros n m; now rewrite !Hoff).
  destruct (dual_run E p oldName oldImagePath w Hvalid) as (b & Hb & Hafter & Hres).
  cbv zeta in Hb, Hafter, Hres.
  rewrite (saveUserJson_fits E _ _ _ w Hfits) in Hb. injection Hb as <-.
  set (w1 := after (saveUserJson E (key_name p) (detail_of p) oldName) w) in *.
  assert (Hrows1 : stored_rows (ls w1) = rows).
  { unfold stored_rows, w1, rows. now rewrite saveUserJson_csv_users. }
  destruct (sync_summary_rows E (key_email p) (summary_of p) oldImagePath true w1
              Hfits Hnet)
    as (first & second & wa & wb & w' & Hr1 & Hr2 & Hsync & Hcases).
  rewrite (readCSV_offline E w1 (Hoff _)) in Hr1. injection Hr1 as <- <-.
  rewrite (readCSV_offline E _ (Hoff _)) in Hr2. injection Hr2 as <- _.
  cbn [ls] in Hcases. rewrite Hrows1 in Hcases.
  exists w'. split.
  - rewrite (run_pair (saveUserDataDual E p oldName oldImagePath) w).
    rewrite Hres, Hafter. unfold result, after. now rewrite Hsync.
  - destruct Hcases as [(i & Hi & Hst) | (Hnone & Hst)].
    + rewrite Hi. now rewrite summary_of_overwrite in Hst.
    + apply find_findIndex in Hnone. now rewrite Hnone.
Qed.

(** C3, as amended: for a valid payload and a non-empty previous name whose
    storage key differs from the key of the payload's name, a call that
    reports success leaves no detail record under the previous name and the
    detail record built from the payload (the payload itself when it spells
    out every property) under the new one. When the storage takes every
    write and the baseline is out of reach, the call reports success and the
    look-up by the payload's e-mail address then finds the flattening of the
    payload, which carries the new name and the same address; where the
    look-up found a row before the call, the new row stands at the position
    of that row, every other row of the local layer being as it was; where
    it found none, the new row is appended. And where the state before the
    call is the one the engine left when it saved the payload under the
    previous name, the look-up before the call finds a row with the previous
    name, from which the row found after the call differs in [full_name]
    only. *)
Theorem rename_moves_detail_record (E : Env) (p : UserData) (oldName : string)
    (oldImagePath : option string) (w : World)
    (Hvalid : valid p = true)
    (Hold : oldName <> "")
    (Hkey : getFileName oldName <> getFileName (key_name p)) :
  let rename := saveUserDataDual E p (Some oldName) oldImagePath in
  let lookup := findUserByEmail E (key_email p) in
  let w' := after rename w in
  (result rename w = Ret true ->
   load oldName (ls w') = None /\ load (key_name p) (ls w') = Some (detail_of p))
  /\ (complete p = true -> detail_of p = p)
  /\ (never_full E -> (forall n, online E n = false) ->
      result rename w = Ret true
      /\ result lookup w' = Ret (Some (summary_of p))
      /\ obj_get "full_name" (summary_of p) = Some (key_name p)
      /\ obj_get "email_address" (summary_of p) = Some (key_email p)
      /\ match result lookup w with
         | Ret (Some found) =>
             exists i,
               stored_rows (ls w) !! i = Some found
               /\ stored_rows (ls w') = <[i := summary_of p]> (stored_rows (ls w))
         | Ret None =>
             stored_rows (ls w') = (stored_rows (ls w) ++ [summary_of p])%list
         | Throw => False
         end
      /\ (forall w0,
            w = syncUser E (mkCall (with_full_name oldName p) None None) w0 ->
            exists found,
              result lookup w = Ret (Some found)
              /\ obj_get "full_name" found = Some oldName
              /\ forall k, k <> "full_name" ->
                   obj_get k (summary_of p) = obj_get k found)).
Proof.
  intros rename lookup w'.
  split; [|split; [apply detail_of_complete |]].
  - intros Hsaved.
    destruct (dual_run E p (Some oldName) oldImagePath w Hvalid) as (b & Hb & Hafter & Hres).
    simpl in Hafter, Hres. subst rename. rewrite Hsaved in Hres.
    destruct (sync_summary_result E (key_email p) (summary_of p) oldImagePath b
                (after (saveUserJson E (key_name p) (detail_of p) (Some oldName)) w))
      as [Hr|Hr]; rewrite Hr in Hres; [|discriminate].
    injection Hres as <-.
    destruct (saveUserJson_true E _ _ _ _ Hb) as [Hjson _].
    unfold load, w'. rewrite Hafter, sync_summary_user_json, Hjson.
    split; [|apply load_moved_new].
    apply load_moved_old; [|exact Hkey].
    apply renames_true; [exact Hold | congruence].
  - intros Hfits Hoff.
    destruct (saveUserDataDual_offline E p (Some oldName) oldImagePath w Hfits Hoff Hvalid)
      as (w1 & Hrun & Hrows).
    cbv zeta in Hrows. fold rename in Hrun.
    assert (Hw' : w' = w1) by (unfold w', after; now rewrite Hrun).
    rewrite Hw'. clear Hw'.
    assert (Hbefore : result lookup w
                      = Ret (List.find (email_matches (key_email p)) (stored_rows (ls w)))).
    { unfold result, lookup. now rewrite (findUserByEmail_offline E _ w (Hoff _)). }
    assert (Hafter : result lookup w1
                     = Ret (List.find (email_matches (key_email p)) (stored_rows (ls w1)))).
    { unfold result, lookup. now rewrite (findUserByEmail_offline E _ w1 (Hoff _)). }
    assert (Hlater :
              forall w0,
                w = syncUser E (mkCall (with_full_name oldName p) None None) w0 ->
                exists found,
                  result lookup w = Ret (Some found)
                  /\ obj_get "full_name" found = Some oldName
                  /\ forall k, k <> "full_name" ->
                       obj_get k (summary_of p) = obj_get k found).
    { intros w0 Hw.
      destruct (with_full_name_keys oldName p Hold) as [Hname Hmail].
      assert (Hvalid0 : valid (with_full_name oldName p) = true).
      { unfold valid in *. apply andb_prop in Hvalid as [_ Hemail].
        apply andb_true_intro. split; [|exact Hemail].
        unfold fullName_of, Js.or_else. cbn [full_name with_full_name].
        now rewrite !(truthy_nonempty oldName Hold). }
      assert (Hnet : steady E) by (intros n m; now rewrite !Hoff).
      destruct (saveUserDataDual_post E (with_full_name oldName p) None None w0
                  Hfits Hnet Hvalid0) as (_ & _ & Hrow).
      cbv zeta in Hrow. rewrite Hmail in Hrow.
      exists (summary_of (with_full_name oldName p)).
      split; [|split].
      - rewrite Hbefore, Hw. unfold syncUser. cbn [payload previousName previousResourcePath].
        now rewrite Hrow.
      - change (obj_get "full_name" (summary_of (with_full_name oldName p)))
          with (Some (key_name (with_full_name oldName p))).
        now rewrite Hname.
      - intros k Hk. now apply summary_of_renamed. }
    rewrite Hbefore, Hafter.
    split; [unfold result; now rewrite Hrun |].
    destruct (findIndex (email_matches (key_email p)) (stored_rows (ls w))) as [i|] eqn:Hi.
    + rewrite Hrows, (find_at_index _ _ _ Hi).
      destruct (findIndex_lookup _ _ _ Hi) as (found & Hfound & _).
      rewrite Hfound.
      split; [f_equal; apply (find_insert_first _ _ _ _ Hi), summary_of_matches |].
      split; [reflexivity |]. split; [reflexivity |]. split.
      * exists i. split; [exact Hfound | reflexivity].
      * intros w0 Hw. destruct (Hlater w0 Hw) as (found' & Hf & Hrest).
        exists found'. split; [|exact Hrest].
        rewrite <- Hf, Hbefore, (find_at_index _ _ _ Hi). now rewrite Hfound.
    + apply find_findIndex in Hi. rewrite Hrows, Hi.
      split; [f_equal; apply (find_snoc_first _ _ _ Hi), summary_of_matches |].
      split; [reflexivity |]. split; [reflexivity |]. split; [reflexivity |].
      intros w0 Hw. destruct (Hlater w0 Hw) as (found' & Hf & Hrest).
      exists found'. split; [|exact Hrest].
      rewrite <- Hf, Hbefore. now rewrite Hi.
Qed.

(** C3, as stated, fails, in two ways. "ada lovelace" differs from "Ada
    Lovelace" and has the same storage key, so that after the rename the
    previous name still loads the record. And with the baseline within
    reach and holding the account under its previous name, a rename that
    reports success and moves the detail record is not seen by the look-up:
    it finds the baseline row with the previous [full_name], and the read it
    makes puts that row in the place of the renamed one. *)
Lemma rename_not_as_stated :
  (let E := browser "" (always false) roomy in
   let w := syncUser E (mkCall (with_full_name "ada lovelace" ada) None None) fresh in
   "ada lovelace" <> "Ada Lovelace"
   /\ full_name ada = Some "Ada Lovelace"
   /\ result (saveUserDataDual E ada (Some "ada lovelace") None) w = Ret true
   /\ load "ada lovelace" (ls (after (saveUserDataDual E ada (Some "ada lovelace") None) w))
      = Some (detail_of ada))
  /\ (let E := browser baseline_new (always true) roomy in
      let renamed := with_full_name "Ada King" ada in
      let w := syncUser E (mkCall ada None None) fresh in
      let w' := after (saveUserDataDual E renamed (Some "Ada Lovelace") None) w in
      result (saveUserDataDual E renamed (Some "Ada Lovelace") None) w = Ret true
      /\ load "Ada Lovelace" (ls w') = None
      /\ load "Ada King" (ls w') = Some (detail_of renamed)
      /\ stored_rows (ls w') = [summary_of renamed]
      /\ option_map (obj_get "full_name") (List.find (email_matches "ada@x.test")
                                             (parseCSV (d_csv E)))
         = Some (Some "Ada Lovelace")
      /\ (exists found,
            result (findUserByEmail E "ada@x.test") w' = Ret (Some found)
            /\ obj_get "full_name" found = Some "Ada Lovelace")
      /\ ~ In (summary_of renamed)
             (stored_rows (ls (after (findUserByEmail E "ada@x.test") w')))).
Proof.
  split.
  - vm_compute. split; [discriminate | repeat split].
  - intros E renamed w w'.
    split; [vm_compute; reflexivity |]. split; [vm_compute; reflexivity |].
    split; [vm_compute; reflexivity |]. split; [vm_compute; reflexivity |].
    split; [vm_compute; reflexivity |]. split.
    + exists [("full_name", "Ada Lovelace"); ("email_address", "ada@x.test");
              ("password", "secret1"); ("avatar", "10_male_19981.jpg.jpg")].
      split; [vm_compute; reflexivity | reflexivity].
    + vm_compute. intros [H | []]. discriminate H.
Qed.

Lemma rename_moves_detail_record_witness :
  let E := browser baseline_new (always false) roomy in
  let before := with_full_name "Augusta Byron" ada in
  let w := syncUser E (mkCall before None None) fresh in
  let w' := after (saveUserDataDual E ada (Some "Augusta Byron") None) w in
  load "Augusta Byron" (ls w) = Some (detail_of before)
  /\ load "Augusta Byron" (ls w') = None
  /\ load "Ada Lovelace" (ls w') = Some (detail_of ada)
  /\ result (findUserByEmail E "ada@x.test") w' = Ret (Some (summary_of ada))
  /\ stored_rows (ls w') = <[0 := summary_of ada]> (stored_rows (ls w))
  /\ exists found,
       result (findUserByEmail E "ada@x.test") w = Ret (Some found)
       /\ obj_get "full_name" found = Some "Augusta Byron"
       /\ forall k, k <> "full_name" -> obj_get k (summary_of ada) = obj_get k found.
Proof.
  intros E before w w'.
  assert (Hold : "Augusta Byron" <> "") by discriminate.
  assert (Hkey : getFileName "Augusta Byron" <> getFileName (key_name ada)) by discriminate.
  destruct (rename_moves_detail_record E ada "Augusta Byron" None w eq_refl Hold Hkey)
    as (Hdetail & _ & Hsummary).
  assert (Hfits : never_full E) by (intros s; reflexivity).
  assert (Hoff : forall n, online E n = false) by reflexivity.
  destruct (Hsummary Hfits Hoff) as (Hres & Hfound & _ & _ & Hrow & Hlater).
  destruct (Hdetail Hres) as [Hgone Hnew].
  assert (Hbefore : result (findUserByEmail E "ada@x.test") w = Ret (Some (summary_of before)))
    by (vm_compute; reflexivity).
  change (key_email ada) with "ada@x.test" in Hrow, Hfound, Hlater.
  rewrite Hbefore in Hrow.
  destruct Hrow as (i & Hi & Hrows).
  assert (Hzero : i = 0).
  { destruct i as [|i]; [reflexivity |]. vm_compute in Hi. discriminate Hi. }
  subst i.
  split; [reflexivity |]. split; [exact Hgone |].
  split; [exact Hnew |]. split; [exact Hfound |]. split; [exact Hrows |].
  exact (Hlater fresh eq_refl).
Defined.

(** ** Uniqueness of e-mail addresses, from a clash-free store *)

Lemma clash_free_cons (x : row) (l : list row) :
  clash_free (x :: l)
  <-> (forall y e, In y l -> email_matches e x = true -> email_matches e y = true -> False)
      /\ clash_free l.
Proof.
  split.
  - intros H. split.
    + intros y e Hy Hx Hy'.
      apply list_elem_of_In, list_elem_of_lookup in Hy as [j Hj].
      specialize (H 0 (S j) x y e eq_refl Hj Hx Hy'). discriminate.
    + intros i j r r' e Hi Hj Hr Hr'.
      specialize (H (S i) (S j) r r' e Hi Hj Hr Hr'). congruence.
  - intros [Hcross Hl] i j r r' e Hi Hj Hr Hr'.
    destruct i as [|i], j as [|j]; simpl in Hi, Hj.
    + reflexivity.
    + injection Hi as <-. exfalso. apply (Hcross r' e); try assumption.
      apply list_elem_of_In. eapply list_elem_of_lookup_2. exact Hj.
    + injection Hj as <-. exfalso. apply (Hcross r e); try assumption.
      apply list_elem_of_In. eapply list_elem_of_lookup_2. exact Hi.
    + f_equal. now apply (Hl i j r r' e).
Qed.

Lemma clash_free_nil : clash_free [].
Proof. intros i j r r' e Hi. discriminate. Qed.

Lemma clash_free_In (l : list row) (x y : row) (e : string) :
  clash_free l -> In x l -> In y l ->
  email_matches e x = true -> email_matches e y = true -> x = y.
Proof.
  intros Hfree Hx Hy Hmx Hmy.
  apply list_elem_of_In, list_elem_of_lookup in Hx as [i Hi].
  apply list_elem_of_In, list_elem_of_lookup in Hy as [j Hj].
  pose proof (Hfree i j x y e Hi Hj Hmx Hmy) as ->. congruence.
Qed.

Lemma clash_free_sublist (l1 l2 : list row) :
  l1 `sublist_of` l2 -> clash_free l2 -> clash_free l1.
Proof.
  induction 1 as [|x l1 l2 Hsub IH|x l1 l2 Hsub IH]; intros Hfree.
  - exact clash_free_nil.
  - apply clash_free_cons in Hfree as [Hcross Hrest]. apply clash_free_cons. split.
    + intros y e Hy. apply (Hcross y e). apply list_elem_of_In.
      eapply elem_of_sublist; [|exact Hsub]. now apply list_elem_of_In.
    + now apply IH.
  - apply clash_free_cons in Hfree as [_ Hrest]. now apply IH.
Qed.

Lemma clash_free_app (l1 l2 : list row) :
  clash_free l1 -> clash_free l2 ->
  (forall x y e, In x l1 -> In y l2 ->
     email_matches e x = true -> email_matches e y = true -> False) ->
  clash_free (l1 ++ l2).
Proof.
  induction l1 as [|x rest IH]; intros H1 H2 Hcross; [exact H2 |].
  apply clash_free_cons in H1 as [Hx Hrest]. simpl. apply clash_free_cons. split.
  - intros y e Hy. apply in_app_or in Hy as [Hy | Hy].
    + now apply (Hx y e).
    + apply (Hcross x y e); [now left | exact Hy].
  - apply IH; [exact Hrest | exact H2 |].
    intros x' y e Hx'. apply (Hcross x' y e). now right.
Qed.

Lemma clash_free_same_keys (l l' : list row) :
  Forall2 same_keys l l' -> clash_free l -> clash_free l'.
Proof.
  intros Hkeys Hfree i j r1' r2' e Hi Hj H1 H2.
  destruct (Forall2_lookup_r _ _ _ _ _ Hkeys Hi) as (r1 & Hr1 & Hk1).
  destruct (Forall2_lookup_r _ _ _ _ _ Hkeys Hj) as (r2 & Hr2 & Hk2).
  apply (Hfree i j r1 r2 e Hr1 Hr2).
  - now rewrite (same_keys_email_matches e r1 r1' Hk1).
  - now rewrite (same_keys_email_matches e r2 r2' Hk2).
Qed.

(** The row the engine writes takes the place of the first row its address
    matches, or is appended where there is none: neither brings a clash. *)
Lemma clash_free_overwrite (p : UserData) (rows : list row) (i : nat) :
  clash_free rows ->
  findIndex (email_matches (key_email p)) rows = Some i ->
  clash_free (<[i := summary_of p]> rows).
Proof.
  intros Hfree Hi. destruct (findIndex_lookup _ _ _ Hi) as (x & Hx & Hmatch).
  assert (Hclash : forall j r e, rows !! j = Some r ->
                     email_matches e (summary_of p) = true ->
                     email_matches e r = true -> i = j).
  { intros j r e Hj Hnew Hr.
    apply (Hfree i j x r (key_email p) Hx Hj Hmatch).
    now rewrite <- (email_matches_lower e (key_email p) r (summary_of_only_key p e Hnew)). }
  intros j k r r' e Hj Hk Hr Hr'.
  apply list_lookup_insert_Some in Hj as [(<- & <- & _)|[Hne Hj]];
    apply list_lookup_insert_Some in Hk as [(<- & <- & _)|[Hne' Hk]].
  - reflexivity.
  - now apply (Hclash k r' e).
  - symmetry. now apply (Hclash j r e).
  - now apply (Hfree j k r r' e).
Qed.

Lemma clash_free_append (p : UserData) (rows : list row) :
  clash_free rows ->
  List.find (email_matches (key_email p)) rows = None ->
  clash_free (rows ++ [summary_of p]).
Proof.
  intros Hfree Hnone. apply clash_free_app; [exact Hfree | |].
  - apply clash_free_cons. split; [intros y e [] | exact clash_free_nil].
  - intros x y e Hx [<- | []] Hmx Hnew.
    rewrite (email_matches_lower e (key_email p) x (summary_of_only_key p e Hnew)) in Hmx.
    rewrite (proj1 (find_none_all _ _) Hnone x Hx) in Hmx. discriminate.
Qed.

Lemma In_insert {A} (l : list A) (i : nat) (c a : A) :
  In a (<[i := c]> l) -> a = c \/ In a l.
Proof.
  revert i. induction l as [|x rest IH]; intros i; [intros [] |].
  destruct i as [|i]; simpl.
  - intros [<- | H]; [now left | right; now right].
  - intros [<- | H]; [right; now left |].
    destruct (IH i H) as [-> | Hin]; [now left | right; now right].
Qed.

(** The merge after a write of the engine: next to a baseline in the current
    format, of which every row has its copy among the rows read, the rows
    written bring no clash into the next merge. *)
Lemma merge_after_write (base read written : list row) (c : row) :
  tidy base ->
  clash_free read ->
  (forall b, In b base -> exists x, In x read /\ same_keys b x) ->
  legacy_email c = None ->
  clash_free written ->
  (forall a, In a written -> a = c \/ In a read) ->
  clash_free (merge_users base written).
Proof.
  intros [Hformat Hbase] Hread Hcopy Hc Hwritten Hfrom.
  rewrite merge_users_added. apply clash_free_app; [exact Hbase | |].
  - eapply clash_free_sublist; [apply merge_added_sublist | exact Hwritten].
  - intros b a e Hb Ha Hmb Hma.
    assert (Hnone : forall b', In b' base -> legacy_email b' = None).
    { intros b' Hb'. apply list_elem_of_In in Hb'.
      exact (proj1 (Forall_forall _ _) Hformat b' Hb'). }
    pose proof (merge_added_unseen _ _ _ Ha) as Hunseen.
    assert (Hlegacy : legacy_email a <> None).
    { intros Heq. apply Hunseen. rewrite Heq, <- (Hnone b Hb).
      now apply in_map. }
    assert (Hin : In a written).
    { apply list_elem_of_In. eapply elem_of_sublist; [|apply merge_added_sublist].
      apply list_elem_of_In. exact Ha. }
    destruct (Hfrom a Hin) as [-> | Hin_read]; [contradiction |].
    destruct (Hcopy b Hb) as (x & Hx & Hkeys).
    assert (Hmx : email_matches e x = true)
      by now rewrite <- (same_keys_email_matches e b x Hkeys).
    pose proof (clash_free_In read x a e Hread Hx Hin_read Hmx Hma) as <-.
    apply Hlegacy. unfold legacy_email. rewrite <- (proj1 Hkeys). exact (Hnone b Hb).
Qed.

(** *** The baseline within reach *)

Section UniqueOnline.

Variable E : Env.
Hypothesis Hfits : never_full E.
Hypothesis Hon : forall n, online E n = true.
Hypothesis Hbase : tidy (parseCSV (d_csv E)).

Lemma read_online_clash_free (w w' : World) (rows : list row) :
  clash_free (merge_users (parseCSV (d_csv E)) (stored_rows (ls w))) ->
  readCSV E w = (Ret rows, w') ->
  clash_free rows
  /\ stored_rows (ls w') = rows
  /\ Forall2 same_keys rows (merge_users (parseCSV (d_csv E)) rows).
Proof.
  intros Hview Hrun.
  destruct (readCSV_online E w Hfits (Hon _)) as (merged & w'' & Hrun' & Hkeys & Hcsv).
  rewrite Hrun in Hrun'. injection Hrun' as -> ->.
  split; [eapply clash_free_same_keys; [exact Hkeys | exact Hview] |].
  split; [unfold stored_rows; now rewrite Hcsv |].
  now apply merge_users_again with (cachedUsers := stored_rows (ls w)).
Qed.

Lemma read_online_view (w w' : World) (rows : list row) :
  clash_free (merge_users (parseCSV (d_csv E)) (stored_rows (ls w))) ->
  readCSV E w = (Ret rows, w') ->
  clash_free (stored_rows (ls w'))
  /\ clash_free (merge_users (parseCSV (d_csv E)) (stored_rows (ls w'))).
Proof.
  intros Hview Hrun.
  destruct (read_online_clash_free w w' rows Hview Hrun) as (Hrows & -> & Hagain).
  split; [exact Hrows |]. eapply clash_free_same_keys; [exact Hagain | exact Hrows].
Qed.

Lemma sync_online_view (c : call) (w : World) :
  clash_free (stored_rows (ls w)) ->
  clash_free (merge_users (parseCSV (d_csv E)) (stored_rows (ls w))) ->
  clash_free (stored_rows (ls (syncUser E c w)))
  /\ clash_free (merge_users (parseCSV (d_csv E)) (stored_rows (ls (syncUser E c w)))).
Proof.
  intros Hstart Hview. unfold syncUser.
  destruct c as [p oldName oldImagePath]. simpl.
  destruct (valid p) eqn:Hvalid.
  2:{ unfold after. rewrite (saveUserDataDual_invalid E p oldName oldImagePath w Hvalid).
      now split. }
  assert (Hnet : steady E) by (intros n m; now rewrite !Hon).
  destruct (dual_run E p oldName oldImagePath w Hvalid) as (b & _ & Hafter & _).
  simpl in Hafter. rewrite Hafter.
  set (w1 := after (saveUserJson E (key_name p) (detail_of p) oldName) w) in *.
  assert (Hw1 : stored_rows (ls w1) = stored_rows (ls w)).
  { unfold stored_rows, w1. now rewrite saveUserJson_csv_users. }
  destruct (sync_summary_rows E (key_email p) (summary_of p) oldImagePath b w1 Hfits Hnet)
    as (first & second & w2 & w3 & w' & Hr1 & Hr2 & Hrun & Hshape).
  rewrite <- Hw1 in Hview.
  destruct (read_online_view w1 w2 first Hview Hr1) as [_ Hview2].
  destruct (read_online_clash_free w2 w3 second Hview2 Hr2) as (Hsecond & _ & _).
  destruct (readCSV_online E w2 Hfits (Hon _)) as (merged & w3' & Hr2' & Hkeys & _).
  rewrite Hr2 in Hr2'. injection Hr2' as <- <-.
  assert (Hcopy : forall x, In x (parseCSV (d_csv E)) ->
                    exists y, In y second /\ same_keys x y).
  { intros x Hx. rewrite merge_users_added in Hkeys.
    apply Forall2_app_inv_l in Hkeys as (known & added & Hknown & _ & ->).
    apply list_elem_of_In, list_elem_of_lookup in Hx as [i Hi].
    destruct (Forall2_lookup_l _ _ _ _ _ Hknown Hi) as (y & Hy & Hxy).
    exists y. split; [|exact Hxy].
    apply in_or_app. left. apply list_elem_of_In. eapply list_elem_of_lookup_2. exact Hy. }
  unfold after. rewrite Hrun. cbn [snd].
  destruct Hshape as [(i & Hi & Hst)|[Hnone Hst]]; rewrite Hst.
  - rewrite summary_of_overwrite.
    assert (Hwritten : clash_free (<[i := summary_of p]> second))
      by now apply clash_free_overwrite.
    split; [exact Hwritten |].
    apply (merge_after_write _ second _ (summary_of p) Hbase Hsecond Hcopy eq_refl Hwritten).
    intros a. apply In_insert.
  - assert (Hwritten : clash_free (second ++ [summary_of p]))
      by now apply clash_free_append.
    split; [exact Hwritten |].
    apply (merge_after_write _ second _ (summary_of p) Hbase Hsecond Hcopy eq_refl Hwritten).
    intros a Ha. apply in_app_or in Ha as [Ha | [<- | []]]; [now right | now left].
Qed.

Lemma run_ops_online_view (os : list op) (w : World) :
  clash_free (stored_rows (ls w)) ->
  clash_free (merge_users (parseCSV (d_csv E)) (stored_rows (ls w))) ->
  clash_free (stored_rows (ls (run_ops E os w)))
  /\ clash_free (merge_users (parseCSV (d_csv E)) (stored_rows (ls (run_ops E os w)))).
Proof.
  unfold run_ops. revert w. induction os as [|o rest IH]; intros w Hstart Hview; simpl;
    [now split |].
  destruct o as [c|]; simpl.
  - destruct (sync_online_view c w Hstart Hview) as [H1 H2]. now apply IH.
  - pose proof (run_pair (readCSV E) w) as Hrun.
    destruct (returns_readCSV E w) as [rows Hrows]. rewrite Hrows in Hrun.
    destruct (read_online_view w _ rows Hview Hrun) as [H1 H2]. now apply IH.
Qed.

End UniqueOnline.

(** *** The baseline out of reach *)

Section UniqueOffline.

Variable E : Env.
Hypothesis Hfits : never_full E.
Hypothesis Hoff : forall n, online E n = false.

Lemma sync_offline_clash_free (c : call) (w : World) :
  clash_free (stored_rows (ls w)) -> clash_free (stored_rows (ls (syncUser E c w))).
Proof.
  intros Hstart. unfold syncUser. destruct c as [p oldName oldImagePath]. simpl.
  destruct (valid p) eqn:Hvalid.
  2:{ unfold after. now rewrite (saveUserDataDual_invalid E p oldName oldImagePath w Hvalid). }
  destruct (saveUserDataDual_offline E p oldName oldImagePath w Hfits Hoff Hvalid)
    as (w' & Hrun & Hrows).
  cbv zeta in Hrows. unfold after. rewrite Hrun. cbn [snd].
  destruct (findIndex (email_matches (key_email p)) (stored_rows (ls w))) as [i|] eqn:Hi;
    rewrite Hrows.
  - now apply clash_free_overwrite.
  - apply clash_free_append; [exact Hstart | now apply find_findIndex].
Qed.

Lemma run_ops_offline_clash_free (os : list op) (w : World) :
  clash_free (stored_rows (ls w)) -> clash_free (stored_rows (ls (run_ops E os w))).
Proof.
  unfold run_ops. revert w. induction os as [|o rest IH]; intros w Hstart; simpl;
    [exact Hstart |].
  apply IH. destruct o as [c|]; simpl.
  - now apply sync_offline_clash_free.
  - unfold after. now rewrite (readCSV_offline E w (Hoff _)).
Qed.

End UniqueOffline.

Lemma clash_freeb_sound (rows : list row) :
  clash_freeb rows = true -> clash_free rows.
Proof.
  assert (Hkey : forall e r, email_matches e r = true ->
                   In (Js.toLowerCase e) (match_keys r)).
  { intros e r. unfold email_matches, same_lower, match_keys.
    change (omap ?f ["email"; "email_address"])
      with (match f "email" with
            | Some y => y :: match f "email_address" with Some z => [z] | None => [] end
            | None => match f "email_address" with Some z => [z] | None => [] end
            end).
    cbv beta.
    destruct (obj_get "email" r) as [a|], (obj_get "email_address" r) as [b|];
      cbn [option_map]; intros H.
    - apply orb_prop in H as [H | H]; apply String.eqb_eq in H; rewrite <- H;
        [now left | right; now left].
    - rewrite orb_false_r in H. apply String.eqb_eq in H. rewrite <- H. now left.
    - apply String.eqb_eq in H. rewrite <- H. now left.
    - discriminate H. }
  induction rows as [|r rest IH]; [intros _; exact clash_free_nil |].
  simpl. intros H. apply andb_prop in H as [Hcross Hrest].
  apply clash_free_cons. split; [|now apply IH].
  intros y e Hy Hr Hy'. rewrite forallb_forall in Hcross.
  specialize (Hcross y Hy). rewrite forallb_forall in Hcross.
  specialize (Hcross _ (Hkey e r Hr)).
  apply negb_true_iff in Hcross.
  assert (Hfound : existsb (String.eqb (Js.toLowerCase e)) (match_keys y) = true).
  { apply existsb_exists. exists (Js.toLowerCase e). split; [now apply Hkey |].
    apply String.eqb_refl. }
  congruence.
Qed.


(** The conditions on the start cannot be dropped. A local layer without two
    rows of the same address, but with a legacy row and a current row that
    one look-up both matches, has two rows of the same address after one
    save; and next to a baseline within reach, a local layer that is free
    of clashes but whose row clashes with a baseline row has two rows of the
    same address after one read. *)
Lemma start_conditions_needed :
  (let E := browser "" (always false) roomy in
   let rows := [[("email", "ada@x.test")]; [("email_address", "ada@x.test")]] in
   let w := {| ls := with_csv_users rows empty_storage; tick := 0 |} in
   unique_addresses (stored_rows (ls w))
   /\ ~ unique_addresses (stored_rows (ls (run_ops E [Sync (mkCall ada None None)] w))))
  /\ (let E := browser baseline_new (always true) roomy in
      let rows := [[("email", "mary@x.test"); ("email_address", "ada@x.test")]] in
      let w := {| ls := with_csv_users rows empty_storage; tick := 0 |} in
      clash_free (stored_rows (ls w))
      /\ ~ unique_addresses (stored_rows (ls (run_ops E [ReadAll] w)))).
Proof.
  split.
  - intros E rows w. split.
    + intros i j r r' a a' Hi Hj Ha Ha' _.
      destruct i as [|[|i]], j as [|[|j]]; vm_compute in Hi, Hj; try discriminate;
        try reflexivity.
      * injection Hi as <-. discriminate Ha.
      * injection Hj as <-. discriminate Ha'.
    + apply (two_rows_one_address _ "ada@x.test" "ada@x.test"); [|reflexivity].
      vm_compute. reflexivity.
  - intros E rows w. split.
    + apply clash_freeb_sound. vm_compute. reflexivity.
    + apply (two_rows_one_address _ "ada@x.test" "ada@x.test"); [|reflexivity].
      vm_compute. reflexivity.
Qed.

